(** * git-pr-mcp: the session manager, its state store and the URL parser

    A shallow embedding of [src/git_pr_mcp/server.py], and what holds of
    it:
    - [Str], [OsPath]: the operations of Python's [str] and [os.path]
                 that the server calls;
    - [Re]:      a backtracking matcher for the fragment of Python's [re]
                 that the pattern of [_parse_repo_url] is written in;
    - [Server]:  the module-level state, the state file, the file system,
                 and the tools that read or set the active session;
    - [Spec], [Scenario]: the vocabulary of the statements, and a server
                 at work for the examples;
    - the facts, by component, and the properties of the specification;
    - further properties of the code, tool by tool.

    A Python [str] is modelled by [string]; a character is a code point
    below 256. A tool is a function from the state of the world to its
    answer and the state it leaves. What a call meets outside the process
    (what git does, the names [tempfile] draws, what the forge answers)
    is an argument of the tool; that a file cannot be written or removed
    is part of the world. The messages sent to [ctx] and to the logger
    are left out; every call that leaves the process is recorded in the
    [trace] of the world. The tools [get_git_status], [list_branches],
    [create_pr_summary], [get_commit_history] and [get_git_diff] work on
    a path of the caller; they come last in [Server]. *)

From stdpp Require Import gmap strings list sorting pretty.
From Stdlib Require Import Ascii.
From Stdlib Require String.

(** ** Python string operations *)

Module Str.

Fixpoint length (s : string) : nat :=
  match s with
  | EmptyString => 0
  | String _ s' => S (length s')
  end.

(** [s.startswith(p)], returning what follows the prefix. *)
Fixpoint strip_prefix (p s : string) : option string :=
  match p, s with
  | EmptyString, _ => Some s
  | String a p', String b s' =>
      if Ascii.eqb a b then strip_prefix p' s' else None
  | String _ _, EmptyString => None
  end.

Definition startswith (s p : string) : bool :=
  match strip_prefix p s with Some _ => true | None => false end.

(** [s[:n]] and [s[n:]] for [0 <= n]. *)
Fixpoint take (n : nat) (s : string) : string :=
  match n, s with
  | S n', String c s' => String c (take n' s')
  | _, _ => EmptyString
  end.

Fixpoint drop (n : nat) (s : string) : string :=
  match n, s with
  | S n', String _ s' => drop n' s'
  | _, _ => s
  end.

(** [s.endswith(suf)]: the last [len(suf)] characters are [suf]. *)
Definition endswith (s suf : string) : bool :=
  (length suf <=? length s)%nat
  && String.eqb (drop (length s - length suf) s) suf.

(** [s[:-n]] for [0 < n]: everything but the last [n] characters (the
    empty string when [s] is shorter). *)
Definition drop_last (n : nat) (s : string) : string :=
  take (length s - n) s.

(** [c in s] for a character. *)
Fixpoint mem (c : ascii) (s : string) : bool :=
  match s with
  | EmptyString => false
  | String a s' => Ascii.eqb a c || mem c s'
  end.

(** [all(p(c) for c in s)] *)
Fixpoint all (p : ascii -> bool) (s : string) : bool :=
  match s with
  | EmptyString => true
  | String a s' => p a && all p s'
  end.

(** [needle in s] for a substring. *)
Fixpoint contains (needle s : string) : bool :=
  startswith s needle
  || match s with
     | EmptyString => false
     | String _ s' => contains needle s'
     end.

(** [sep.join(l)] *)
Fixpoint join (sep : string) (l : list string) : string :=
  match l with
  | [] => EmptyString
  | [x] => x
  | x :: l' => x +:+ sep +:+ join sep l'
  end.

(** [s.split(sep)] for a one-character separator: the pieces between the
    separators, empty pieces kept. *)
Fixpoint split (sep : ascii) (s : string) : list string :=
  match s with
  | EmptyString => [EmptyString]
  | String c s' =>
      if Ascii.eqb c sep then EmptyString :: split sep s'
      else match split sep s' with
           | piece :: pieces => String c piece :: pieces
           | [] => [String c EmptyString]
           end
  end.

(** [s.rstrip(c)] for one character. *)
Fixpoint rstrip (c : ascii) (s : string) : string :=
  match s with
  | EmptyString => EmptyString
  | String a s' =>
      match rstrip c s' with
      | EmptyString => if Ascii.eqb a c then EmptyString else String a EmptyString
      | r => String a r
      end
  end.

(** [str.isspace] for one character, on the code points below 256. *)
Definition is_space (c : ascii) : bool :=
  let n := nat_of_ascii c in
  ((9 <=? n) && (n <=? 13)) || ((28 <=? n) && (n <=? 32))
  || (n =? 133) || (n =? 160).

Fixpoint lstrip (s : string) : string :=
  match s with
  | EmptyString => EmptyString
  | String c s' => if is_space c then lstrip s' else s
  end.

Fixpoint rstrip_space (s : string) : string :=
  match s with
  | EmptyString => EmptyString
  | String a s' =>
      match rstrip_space s' with
      | EmptyString => if is_space a then EmptyString else String a EmptyString
      | r => String a r
      end
  end.

(** [s.strip()] *)
Definition strip (s : string) : string := rstrip_space (lstrip s).

(** The newline character, as a string. *)
Definition nl : string := String "010"%char EmptyString.

(** Python truthiness of an [Optional[str]]: [None] and [''] are false. *)
Definition truthy (o : option string) : bool :=
  match o with
  | None => false
  | Some s => negb (String.eqb s EmptyString)
  end.

(** What reading in text mode with [newline=None] makes of the text of a
    file: ['\r\n'] and a lone ['\r'] are read as ['\n']. *)
Fixpoint universal_newlines (s : string) : string :=
  match s with
  | EmptyString => EmptyString
  | String c s' =>
      if Ascii.eqb c "013"%char then
        String "010"%char
          match s' with
          | String c' s'' =>
              if Ascii.eqb c' "010"%char then universal_newlines s''
              else universal_newlines s'
          | EmptyString => EmptyString
          end
      else String c (universal_newlines s')
  end.

(** The text after the last ['/'] ([s.rsplit('/', 1)[-1]]). *)
Fixpoint final_segment (s : string) : string :=
  match s with
  | EmptyString => EmptyString
  | String c s' =>
      if mem "/"%char s' then final_segment s'
      else if Ascii.eqb c "/"%char then s' else s
  end.

End Str.

(** ** [os.path] (posixpath), lexically *)

Module OsPath.

(** [os.path.join(a, b)] *)
Definition join (a b : string) : string :=
  if Str.startswith b "/" then b
  else if String.eqb a EmptyString || Str.endswith a "/" then a +:+ b
  else a +:+ "/" +:+ b.

(** [p[:p.rfind('/') + 1]] *)
Fixpoint head_part (p : string) : string :=
  match p with
  | EmptyString => EmptyString
  | String c p' => if Str.mem "/"%char p then String c (head_part p') else EmptyString
  end.

(** [os.path.dirname(p)] *)
Definition dirname (p : string) : string :=
  let head := head_part p in
  if negb (String.eqb head EmptyString) && negb (Str.all (Ascii.eqb "/"%char) head)
  then Str.rstrip "/"%char head
  else head.

(** One component of a path against the directories entered so far,
    innermost first: empty components and [.] stay, [..] leaves. *)
Definition enter (stack : list string) (component : string) : list string :=
  if String.eqb component EmptyString || String.eqb component "." then stack
  else if String.eqb component ".." then tail stack
  else component :: stack.

(** The components of the directory a path names, from the root, for a
    process whose working directory is [cwd]: what [os.path.abspath]
    computes before it joins the components again. The disk is not
    looked at: this is the place the kernel reaches when the path is
    made of names, and when each [..] of it leaves a directory that is
    there; where a [..] or a final ['/'] follows a name that is no
    directory the kernel fails, which is not modelled. *)
Definition resolve (cwd : list string) (p : string) : list string :=
  let start := if Str.startswith p "/" then [] else reverse cwd in
  reverse (fold_left enter (Str.split "/"%char p) start).

End OsPath.

(** ** The fragment of [re] used by the server *)

Module Re.

(** An item of a bracket expression: a literal character or [\w]. *)
Inductive citem :=
  | CChar (c : ascii)
  | CWord.

(** A bracket expression, [[...]] or [[^...]]. *)
Inductive cclass :=
  | CSet (items : list citem)
  | CNot (items : list citem).

Inductive regex :=
  | Lit (s : string)               (* a run of literal characters *)
  | Opt (r : regex)                (* r?  (greedy) *)
  | Plus (c : cclass)              (* [...]+  (greedy) *)
  | Cat (r1 r2 : regex)            (* r1 r2 *)
  | Alt (r1 r2 : regex)            (* r1|r2  (ordered) *)
  | Group (n : nat) (r : regex)    (* (r), capture group number n *)
  | Eos.                           (* $ *)

(** [\w] on a [str] pattern: [ch.isalnum() or ch == '_'], here for the
    code points below 256. *)
Definition is_word (c : ascii) : bool :=
  let n := nat_of_ascii c in
  ((48 <=? n) && (n <=? 57))          (* 0-9 *)
  || ((65 <=? n) && (n <=? 90))       (* A-Z *)
  || (n =? 95)                        (* _ *)
  || ((97 <=? n) && (n <=? 122))      (* a-z *)
  || (n =? 170) || (n =? 178) || (n =? 179) || (n =? 181)
  || (n =? 185) || (n =? 186)
  || ((188 <=? n) && (n <=? 190))
  || ((192 <=? n) && (n <=? 214))
  || ((216 <=? n) && (n <=? 246))
  || ((248 <=? n) && (n <=? 255)).

Definition item_matches (c : ascii) (i : citem) : bool :=
  match i with
  | CChar a => Ascii.eqb a c
  | CWord => is_word c
  end.

Definition in_class (cl : cclass) (c : ascii) : bool :=
  match cl with
  | CSet items => existsb (item_matches c) items
  | CNot items => negb (existsb (item_matches c) items)
  end.

(** [$] without MULTILINE: at the end of the string, or just before a
    newline that ends the string. *)
Definition at_end (s : string) : bool :=
  match s with
  | EmptyString => true
  | String c EmptyString => Ascii.eqb c "010"%char
  | _ => false
  end.

(** The groups of a match object, by number. *)
Abbreviation groups := (gmap nat string).

Section Matcher.
Context {R : Type}.

(** One or more characters of the class, longest run first; [k] gets the
    text matched and the rest of the subject, and a [None] from [k]
    makes the matcher give one character back. *)
Fixpoint plus_from (p : ascii -> bool) (s : string)
    (k : string -> string -> option R) : option R :=
  match s with
  | EmptyString => None
  | String c s' =>
      if p c then
        match plus_from p s' (fun w rest => k (String c w) rest) with
        | Some x => Some x
        | None => k (String c EmptyString) s'
        end
      else None
  end.

(** The backtracking matcher, in continuation-passing style: [k] gets
    the text matched by [r], the rest of the subject and the groups set
    so far. *)
Fixpoint run (r : regex) (s : string) (gs : groups)
    (k : string -> string -> groups -> option R) : option R :=
  match r with
  | Lit l =>
      match Str.strip_prefix l s with
      | Some rest => k l rest gs
      | None => None
      end
  | Opt r1 =>
      match run r1 s gs k with
      | Some x => Some x
      | None => k EmptyString s gs
      end
  | Plus cl => plus_from (in_class cl) s (fun w rest => k w rest gs)
  | Cat r1 r2 =>
      run r1 s gs (fun w1 s1 gs1 =>
        run r2 s1 gs1 (fun w2 s2 gs2 => k (w1 +:+ w2) s2 gs2))
  | Alt r1 r2 =>
      match run r1 s gs k with
      | Some x => Some x
      | None => run r2 s gs k
      end
  | Group n r1 => run r1 s gs (fun w rest gs1 => k w rest (<[n := w]> gs1))
  | Eos => if at_end s then k EmptyString s gs else None
  end.
End Matcher.

(** [re.match]: a match that starts at the first character. *)
Definition re_match (r : regex) (s : string) : option groups :=
  run r s ∅ (fun _ _ gs => Some gs).

(** [re.search]: the match at the leftmost position that has one. *)
Fixpoint re_search (r : regex) (s : string) : option groups :=
  match re_match r s with
  | Some gs => Some gs
  | None =>
      match s with
      | EmptyString => None
      | String _ s' => re_search r s'
      end
  end.

(** [match.group(n)] *)
Definition group (gs : groups) (n : nat) : option string := gs !! n.

End Re.

(** ** The server *)

Module Server.

Import Re.

(** [[^/]] and [[\w.-]] *)
Definition not_slash : cclass := CNot [CChar "/"].
Definition host_chars : cclass := CSet [CWord; CChar "."; CChar "-"].

(** [r"(?:https?://[^/]+/|git@[\w.-]+:)([^/]+)/([^/]+)$"], as its
    non-capturing group and what follows it. *)
Definition head_re : regex :=
  Alt (Cat (Lit "http") (Cat (Opt (Lit "s")) (Cat (Lit "://")
         (Cat (Plus not_slash) (Lit "/")))))
      (Cat (Lit "git@") (Cat (Plus host_chars) (Lit ":"))).

Definition tail_re : regex :=
  Cat (Group 1 (Plus not_slash))
      (Cat (Lit "/") (Cat (Group 2 (Plus not_slash)) Eos)).

Definition pattern : regex := Cat head_re tail_re.

(** [name_with_suffix[:-4] if name_with_suffix.endswith(".git") else
    name_with_suffix] *)
Definition strip_git (name_with_suffix : string) : string :=
  if Str.endswith name_with_suffix ".git"
  then Str.drop_last 4 name_with_suffix
  else name_with_suffix.

(** [_parse_repo_url]: [owner] is [match.group(1)], [name] is
    [match.group(2)] without a trailing [.git]; both groups are set by
    every match of [pattern]. *)
Definition _parse_repo_url (repo_url : string)
    : option string * option string :=
  match re_search pattern repo_url with
  | Some mt =>
      let owner := group mt 1 in
      let name_with_suffix := group mt 2 in
      (owner, strip_git <$> name_with_suffix)
  | None => (None, None)
  end.

(** *** The active session and what the process can see *)

(** [active_repo_details], a dict with the keys ['path'], ['url'],
    ['owner'] and ['name'], each [None] or a [str]. *)
Record details := Details {
  path : option string;
  url : option string;
  owner : option string;
  name : option string
}.

Definition no_details : details :=
  {| path := None; url := None; owner := None; name := None |}.

(** What [STATE_FILE] holds: the JSON text of a [details] dict, from
    which [json.load] gives back the dict that [json.dump] wrote, or
    something [json.load] raises on. JSON documents of another shape are
    not modelled. *)
Inductive file_content :=
  | Json (d : details)
  | Unreadable.

(** An entry of the file system. *)
Inductive entry :=
  | Dir
  | File (content : string).

(** The calls that leave the process. *)
Inductive action :=
  | Rmtree (p : string)
  | OpenStateFile
  | Mkdir (p : string)
  | Makedirs (p : string)
  | Subprocess (cmd : list string) (cwd : option string)
  | GithubGetRepo (full_name : string)
  | GithubCreatePull (full_name : string)
  | OpenRead (p : string)
  | OpenWrite (p : string)
  | Walk (top : string).

(** A call, with the session in memory and in the state file when it was
    made. *)
Record event := Event {
  act : action;
  in_memory : details;
  persisted : option file_content
}.

(** What writing [STATE_FILE] does: the text is written; [open] raises and
    the file is as it was; or the write raises midway and leaves a file
    that [json.load] raises on. *)
Inductive write_result :=
  | Written
  | Refused
  | Torn.

(** [STATE_FILE] *)
Definition STATE_FILE : string := "active_repo_state.json".

(** The state of the process and of the disk. [STATE_FILE] is a path
    relative to the working directory; the model keeps what that file
    holds apart from [fs], in [state_file]: [fs] is the disk but for that
    one file, and what is said of [fs] is not said of it. *)
Record world := World {
  active_repo_details : details;          (* the module-level global *)
  state_file : option file_content;       (* STATE_FILE; None: no such file *)
  state_file_writes : write_result;       (* what writing STATE_FILE does *)
  fs : gmap (list string) entry;          (* directories and files, by components *)
  cwd : list string;                      (* the working directory *)
  denied : list (list string);            (* entries that can be neither removed,
                                             created nor written *)
  trace : list event                      (* the calls made so far, latest first *)
}.

Definition set_details (d : details) (w : world) : world :=
  World d (state_file w) (state_file_writes w) (fs w) (cwd w) (denied w) (trace w).
Definition set_state_file (c : option file_content) (w : world) : world :=
  World (active_repo_details w) c (state_file_writes w) (fs w) (cwd w)
        (denied w) (trace w).
Definition set_fs (m : gmap (list string) entry) (w : world) : world :=
  World (active_repo_details w) (state_file w) (state_file_writes w) m (cwd w)
        (denied w) (trace w).
Definition log (a : action) (w : world) : world :=
  World (active_repo_details w) (state_file w) (state_file_writes w) (fs w)
        (cwd w) (denied w)
        (Event a (active_repo_details w) (state_file w) :: trace w).

(** Exceptions, by the classes the handlers tell apart; [str_e] is what
    [str(e)] reads (for the errors of the operating system the model
    gives the text without the error number and the path). *)
Inductive exn :=
  | CalledProcessError (stdout stderr str_e : string)
  | FileNotFoundError (str_e : string)
  | FileExistsError (str_e : string)
  | OtherError (str_e : string).

Definition str_of (e : exn) : string :=
  match e with
  | CalledProcessError _ _ m | FileNotFoundError m
  | FileExistsError m | OtherError m => m
  end.

Inductive outcome (A : Type) :=
  | Returns (a : A)
  | Raises (e : exn).
Arguments Returns {A} a.
Arguments Raises {A} e.

(** *** The file system calls *)

(** The place a path names, for the process. *)
Definition where_is (w : world) (p : string) : list string :=
  OsPath.resolve (cwd w) p.

(** The entry at a place; the root is always a directory. *)
Definition entry_at (w : world) (k : list string) : option entry :=
  match k with
  | [] => Some Dir
  | _ => fs w !! k
  end.

(** [os.path.exists(p)], [os.path.isdir(p)], [os.path.isfile(p)]; the
    empty path names nothing. *)
Definition os_path_exists (w : world) (p : string) : bool :=
  negb (String.eqb p EmptyString)
  && match entry_at w (where_is w p) with Some _ => true | None => false end.

Definition os_path_isdir (w : world) (p : string) : bool :=
  negb (String.eqb p EmptyString)
  && match entry_at w (where_is w p) with Some Dir => true | _ => false end.

Definition os_path_isfile (w : world) (p : string) : bool :=
  negb (String.eqb p EmptyString)
  && match entry_at w (where_is w p) with Some (File _) => true | _ => false end.

(** The entry at [k] can be neither made nor written. *)
Definition is_denied (w : world) (k : list string) : bool :=
  bool_decide (k ∈ denied w).

(** Some entry at or below [k] cannot be removed. *)
Definition holds_denied (w : world) (k : list string) : bool :=
  existsb (fun k' => bool_decide (k `prefix_of` k')) (denied w).

(** The file system without [k] and everything below it. *)
Definition without (k : list string) (m : gmap (list string) entry)
    : gmap (list string) entry :=
  filter (fun kv => ¬ k `prefix_of` kv.1) m.

(** [shutil.rmtree(p)]: removes the directory and everything below it, or
    raises; a removal that raises leaves (at least) the directory itself,
    and the model leaves everything. The root cannot be removed. *)
Definition rmtree (p : string) (w0 : world) : outcome unit * world :=
  let w := log (Rmtree p) w0 in
  let k := where_is w p in
  if String.eqb p EmptyString then (Raises (FileNotFoundError "No such file or directory"), w)
  else
    match k, entry_at w k with
    | _, None => (Raises (FileNotFoundError "No such file or directory"), w)
    | _, Some (File _) => (Raises (OtherError "Not a directory"), w)
    | [], Some Dir => (Raises (OtherError "Device or resource busy"), w)
    | _, Some Dir =>
        if holds_denied w k then (Raises (OtherError "Permission denied"), w)
        else (Returns (), set_fs (without k (fs w)) w)
    end.

(** [os.mkdir(p)] *)
Definition mkdir (p : string) (w0 : world) : outcome unit * world :=
  let w := log (Mkdir p) w0 in
  let k := where_is w p in
  if String.eqb p EmptyString then (Raises (FileNotFoundError "No such file or directory"), w)
  else
    match entry_at w k with
    | Some _ => (Raises (FileExistsError "File exists"), w)
    | None =>
        match entry_at w (removelast k) with
        | None => (Raises (FileNotFoundError "No such file or directory"), w)
        | Some (File _) => (Raises (OtherError "Not a directory"), w)
        | Some Dir =>
            if is_denied w k then (Raises (OtherError "Permission denied"), w)
            else (Returns (), set_fs (<[k := Dir]> (fs w)) w)
        end
    end.

(** *** The state store *)

(** [_save_state]: writes [active_repo_details] to [STATE_FILE]; a write
    that raises is logged, and nothing else happens. *)
Definition _save_state (w0 : world) : world :=
  let w := log OpenStateFile w0 in
  match state_file_writes w with
  | Written => set_state_file (Some (Json (active_repo_details w))) w
  | Refused => w
  | Torn => set_state_file (Some Unreadable) w
  end.

(** [_load_state]: takes the dict in [STATE_FILE] for
    [active_repo_details] when its path is set and is a directory. *)
Definition _load_state (w : world) : world :=
  match state_file w with
  | Some (Json loaded_details) =>
      if Str.truthy (path loaded_details)
         && os_path_isdir w (default EmptyString (path loaded_details))
      then set_details loaded_details w
      else w
  | Some Unreadable => w
  | None => w
  end.

(** What the module does when it is imported: the global is set to the
    empty dict, a missing [GITHUB_TOKEN] raises, and the state is loaded. *)
Definition startup (github_token : option string) (w : world) : outcome world :=
  let w1 := set_details no_details w in
  if negb (Str.truthy github_token)
  then Raises (OtherError "GITHUB_TOKEN environment variable is not set. PyGithub tools will not work.")
  else Returns (_load_state w1).

(** *** Child processes *)

(** What a child process does: it exits, it cannot be started because the
    executable (or the working directory) is missing, or starting it fails
    otherwise. [status_text] is what [str()] of the [CalledProcessError]
    for that exit reads. *)
Inductive proc_result :=
  | Exit (returncode : Z) (stdout stderr status_text : string)
  | SpawnFileNotFound (str_e : string)
  | SpawnFault (str_e : string).

Record completed := Completed {
  returncode : Z;
  stdout : string;
  stderr : string
}.

(** [subprocess.run(cmd, cwd=cwd, capture_output=True, text=True,
    check=True)] *)
Definition subprocess_run (cmd : list string) (cwd : option string)
    (r : proc_result) (w : world) : outcome completed * world :=
  let w := log (Subprocess cmd cwd) w in
  match r with
  | Exit rc out err txt =>
      if (rc =? 0)%Z then (Returns (Completed rc out err), w)
      else (Raises (CalledProcessError out err txt), w)
  | SpawnFileNotFound m => (Raises (FileNotFoundError m), w)
  | SpawnFault m => (Raises (OtherError m), w)
  end.

(** [e.stderr if e.stderr else str(e)] *)
Definition stderr_or_str (stderr str_e : string) : string :=
  if Str.truthy (Some stderr) then stderr else str_e.

(** *** Cloning *)

(** What a call of [clone_repository] meets outside the process. *)
Record clone_env := CloneEnv {
  tempdir : string;                          (* tempfile.gettempdir() *)
  names : list string;                       (* the random names tempfile draws *)
  git : proc_result;                         (* what git clone does *)
  checkout : list (list string * entry);     (* what a clone that succeeds
                                                writes below its target *)
  target_kept : bool                         (* a clone that fails leaves its
                                                target directory *)
}.

(** [tempfile.mkdtemp(prefix=prefix)]: the first name that is free. *)
Fixpoint mkdtemp_from (dir prefix : string) (candidates : list string)
    (w : world) : outcome string * world :=
  match candidates with
  | [] => (Raises (FileExistsError "No usable temporary directory name found"), w)
  | name :: rest =>
      let file := OsPath.join dir (prefix +:+ name) in
      match mkdir file w with
      | (Returns _, w') => (Returns file, w')
      | (Raises (FileExistsError _), w') => mkdtemp_from dir prefix rest w'
      | (Raises e, w') => (Raises e, w')
      end
  end.

Definition mkdtemp (env : clone_env) (prefix : string) (w : world)
    : outcome string * world :=
  mkdtemp_from (tempdir env) prefix (names env) w.

(** The entries [items], placed below [k]. *)
Definition graft (k : list string) (items : list (list string * entry))
    (m : gmap (list string) entry) : gmap (list string) entry :=
  foldr (fun item acc => <[k ++ item.1 := item.2]> acc) m items.

(** What [git clone repo_url target] leaves on the disk. *)
Definition git_clone_effect (env : clone_env) (target : string) (w : world) : world :=
  let k := where_is w target in
  match git env with
  | Exit rc _ _ _ =>
      if (rc =? 0)%Z then set_fs (graft k (checkout env) (fs w)) w
      else if target_kept env then w
      else set_fs (without k (fs w)) w
  | SpawnFileNotFound _ | SpawnFault _ => w
  end.

(** [git clone repo_url target], run as a child process. *)
Definition git_clone (env : clone_env) (repo_url target : string) (w : world)
    : outcome completed * world :=
  let '(r, w') := subprocess_run ["git"; "clone"; repo_url; target] None (git env) w in
  (r, git_clone_effect env target w').

(** [shutil.rmtree(p)] inside [try] ... [except Exception]: a removal
    that raises is a warning. *)
Definition try_rmtree (p : string) (w : world) : world :=
  (rmtree p w).2.

(** The first lines of [clone_repository]: the directory of the session
    that is replaced is removed, when there is one. *)
Definition cleanup_previous (w : world) : world :=
  match path (active_repo_details w) with
  | Some previous_repo_path =>
      if Str.truthy (Some previous_repo_path) && os_path_exists w previous_repo_path
      then try_rmtree previous_repo_path w
      else w
  | None => w
  end.

(** [if temp_dir and os.path.exists(temp_dir): try: shutil.rmtree(temp_dir)
    except ...] of the handlers. *)
Definition cleanup_temp (temp_dir : option string) (w : world) : world :=
  match temp_dir with
  | Some t =>
      if Str.truthy temp_dir && os_path_exists w t then try_rmtree t w else w
  | None => w
  end.

Definition git_not_found : string :=
  "Error: Git command not found. Please ensure Git is installed and in your PATH.".

(** The [except] clauses of [clone_repository]; [temp_dir] is the local
    variable as it is when the exception is raised. *)
Definition clone_except (repo_url : string) (temp_dir : option string)
    (e : exn) (w : world) : string * world :=
  match e with
  | CalledProcessError _ err str_e =>
      ("Error cloning repository " +:+ repo_url +:+ ": " +:+ stderr_or_str err str_e,
       cleanup_temp temp_dir w)
  | FileNotFoundError _ => (git_not_found, w)
  | FileExistsError str_e | OtherError str_e =>
      ("An unexpected error occurred during clone: " +:+ str_e,
       cleanup_temp temp_dir w)
  end.

(** The text [clone_repository] returns for a clone that succeeded. *)
Definition cloned_msg (repo_url temp_dir : string) (owner name : option string)
    : string :=
  "Repository " +:+ repo_url +:+ " cloned successfully to " +:+ temp_dir
  +:+ " and set as active. State saved."
  +:+ (if Str.truthy owner && Str.truthy name
       then " Parsed owner: '" +:+ default EmptyString owner +:+ "', name: '"
            +:+ default EmptyString name +:+ "'."
       else " Could not parse owner/name from URL for GitHub operations.").

(** [clone_repository] *)
Definition clone_repository (env : clone_env) (repo_url : string) (w : world)
    : string * world :=
  let w := cleanup_previous w in
  let w := _save_state (set_details no_details w) in
  match mkdtemp env "mcp_clone_" w with
  | (Raises e, w) => clone_except repo_url None e w
  | (Returns temp_dir, w) =>
      match git_clone env repo_url temp_dir w with
      | (Raises e, w) => clone_except repo_url (Some temp_dir) e w
      | (Returns result, w) =>
          if (returncode result =? 0)%Z then
            let '(owner, name) := _parse_repo_url repo_url in
            let w :=
              _save_state
                (set_details (Details (Some temp_dir) (Some repo_url) owner name) w) in
            (cloned_msg repo_url temp_dir owner name, w)
          else if Str.truthy (Some temp_dir) && os_path_exists w temp_dir then
            match rmtree temp_dir w with
            | (Raises e, w) => clone_except repo_url (Some temp_dir) e w
            | (Returns _, w) => ("Error cloning repository: " +:+ stderr result, w)
            end
          else ("Error cloning repository: " +:+ stderr result, w)
      end
  end.

(** *** The tools that need an active repository *)

Definition no_active : string :=
  "Error: No active repository. Please clone a repository first using 'clone_repository'.".

(** [create_git_branch] *)
Definition create_git_branch (r : proc_result) (branch_name : string)
    (base_branch : option string) (w : world) : string * world :=
  if negb (Str.truthy (path (active_repo_details w))) then (no_active, w)
  else
    let repo_path := default EmptyString (path (active_repo_details w)) in
    let cmd := ["git"; "checkout"; "-b"; branch_name]
               ++ (if Str.truthy base_branch
                   then [default EmptyString base_branch] else []) in
    let base := if Str.truthy base_branch
                then default EmptyString base_branch else "current HEAD" in
    match subprocess_run cmd (Some repo_path) r w with
    | (Returns result, w) =>
        if (returncode result =? 0)%Z then
          ("Branch '" +:+ branch_name
           +:+ "' created successfully and checked out from '" +:+ base
           +:+ "' in " +:+ repo_path +:+ ".", w)
        else ("Error creating branch '" +:+ branch_name +:+ "': " +:+ stderr result, w)
    | (Raises (CalledProcessError _ err str_e), w) =>
        ("Error creating branch '" +:+ branch_name +:+ "': "
         +:+ stderr_or_str err str_e, w)
    | (Raises (FileNotFoundError _), w) => (git_not_found, w)
    | (Raises e, w) => ("An unexpected error occurred: " +:+ str_of e, w)
    end.

Definition nothing_to_commit (repo_path : string) : string :=
  "No changes to commit in active repo (" +:+ repo_path +:+ "). Working tree clean.".

(** The [except] clauses of [git_commit_changes]. *)
Definition commit_except (repo_path : string) (e : exn) : string :=
  match e with
  | CalledProcessError out err str_e =>
      let output := if Str.truthy (Some out) then Str.strip out else EmptyString in
      let err_output := if Str.truthy (Some err) then Str.strip err else EmptyString in
      if Str.contains "nothing to commit" output
         || Str.contains "nothing to commit" err_output
         || Str.contains "no changes added to commit" output
         || Str.contains "no changes added to commit" err_output
      then nothing_to_commit repo_path
      else "Error during git operation in active repo (" +:+ repo_path +:+ "): "
           +:+ (if Str.truthy (Some err_output) then err_output
                else if Str.truthy (Some output) then output else str_e)
  | FileNotFoundError _ => git_not_found
  | FileExistsError str_e | OtherError str_e =>
      "An unexpected error occurred: " +:+ str_e
  end.

(** [git_commit_changes] *)
Definition git_commit_changes (add_r commit_r : proc_result)
    (commit_message : string) (w : world) : string * world :=
  if negb (Str.truthy (path (active_repo_details w))) then (no_active, w)
  else
    let repo_path := default EmptyString (path (active_repo_details w)) in
    match subprocess_run ["git"; "add"; "."] (Some repo_path) add_r w with
    | (Raises e, w) => (commit_except repo_path e, w)
    | (Returns add_result, w) =>
        if negb (returncode add_result =? 0)%Z then
          ("Error staging changes in " +:+ repo_path +:+ ": " +:+ stderr add_result, w)
        else
          match subprocess_run ["git"; "commit"; "-m"; commit_message]
                  (Some repo_path) commit_r w with
          | (Raises e, w) => (commit_except repo_path e, w)
          | (Returns commit_result, w) =>
              if (returncode commit_result =? 0)%Z then
                if Str.contains "nothing to commit, working tree clean"
                     (stdout commit_result)
                   || Str.contains "no changes added to commit" (stdout commit_result)
                then (nothing_to_commit repo_path, w)
                else
                  ("Changes committed successfully in active repo (" +:+ repo_path
                   +:+ ") with message: '" +:+ commit_message +:+ "'.", w)
              else ("Error committing changes: " +:+ stderr commit_result, w)
          end
    end.

(** [git_push_branch] *)
Definition git_push_branch (r : proc_result) (branch_name : string)
    (set_upstream : bool) (w : world) : string * world :=
  if negb (Str.truthy (path (active_repo_details w))) then (no_active, w)
  else
    let repo_path := default EmptyString (path (active_repo_details w)) in
    let cmd := ["git"; "push"]
               ++ (if set_upstream then ["-u"; "origin"; branch_name]
                   else ["origin"; branch_name]) in
    match subprocess_run cmd (Some repo_path) r w with
    | (Returns result, w) =>
        if (returncode result =? 0)%Z then
          ("Branch '" +:+ branch_name
           +:+ "' pushed to origin successfully from active repo (" +:+ repo_path
           +:+ ")."
           +:+ (if Str.truthy (Some (stdout result))
                then Str.nl +:+ "Output:" +:+ Str.nl +:+ Str.strip (stdout result)
                else EmptyString)
           +:+ (if Str.truthy (Some (stderr result))
                then Str.nl +:+ "Info:" +:+ Str.nl +:+ Str.strip (stderr result)
                else EmptyString), w)
        else ("Error pushing branch '" +:+ branch_name +:+ "': " +:+ stderr result, w)
    | (Raises (CalledProcessError out err str_e), w) =>
        ("Error pushing branch '" +:+ branch_name +:+ "' in active repo ("
         +:+ repo_path +:+ "): "
         +:+ (if Str.truthy (Some err) then err
              else if Str.truthy (Some out) then out else str_e), w)
    | (Raises (FileNotFoundError _), w) => (git_not_found, w)
    | (Raises e, w) => ("An unexpected error occurred: " +:+ str_of e, w)
    end.

(** What the forge answers to [g.get_repo(...)] and, on the repository it
    answers with, to [create_pull(...)]: the pull request, or an
    exception of the first or of the second call, with what the handler
    reads from it. *)
Record api_data := ApiData {
  message : option string;       (* e.data['message'], when that key is there *)
  errors : option string         (* e.data['errors'], formatted *)
}.

Inductive api_result :=
  | PullCreated (html_url : string)
  | GetRepoRaises (str_e : string) (data : option api_data) (status : option string)
  | CreatePullRaises (str_e : string) (data : option api_data) (status : option string).

Definition incomplete_identity : string :=
  "Error: Active repository details (owner/name) not found or incomplete. "
  +:+ "Ensure the repository was cloned successfully and owner/name could be parsed from the URL.".

(** The [except] clause of [create_github_pr]. *)
Definition pr_except (repo_identifier base_branch head_branch str_e : string)
    (data : option api_data) (status : option string) : string :=
  "Error creating GitHub PR for active repo " +:+ repo_identifier
  +:+ " ('" +:+ head_branch +:+ "' -> '" +:+ base_branch +:+ "'): " +:+ str_e
  +:+ match data ≫= message, status with
      | Some m, _ =>
          " - API Message: " +:+ m
          +:+ match data ≫= errors with
              | Some errs => " - Details: " +:+ errs
              | None => EmptyString
              end
      | None, Some st => " - Status: " +:+ st
      | None, None => EmptyString
      end.

(** [create_github_pr] *)
Definition create_github_pr (api : api_result)
    (title body base_branch head_branch : string) (w : world) : string * world :=
  let d := active_repo_details w in
  if negb (Str.truthy (owner d)) || negb (Str.truthy (name d)) then
    if negb (Str.truthy (path d)) then (no_active, w)
    else (incomplete_identity, w)
  else
    let repo_full_name :=
      default EmptyString (owner d) +:+ "/" +:+ default EmptyString (name d) in
    let w := log (GithubGetRepo repo_full_name) w in
    match api with
    | GetRepoRaises str_e data status =>
        (pr_except repo_full_name base_branch head_branch str_e data status, w)
    | PullCreated html_url =>
        let w := log (GithubCreatePull repo_full_name) w in
        ("Successfully created PR: " +:+ html_url, w)
    | CreatePullRaises str_e data status =>
        let w := log (GithubCreatePull repo_full_name) w in
        (pr_except repo_full_name base_branch head_branch str_e data status, w)
    end.

(** [open(p, 'r', encoding='utf-8').read()]: the text of the file, with
    the line ends as text mode reads them. *)
Definition open_read (p : string) (w0 : world) : outcome string * world :=
  let w := log (OpenRead p) w0 in
  if String.eqb p EmptyString then (Raises (FileNotFoundError "No such file or directory"), w)
  else
    match entry_at w (where_is w p) with
    | Some (File content) => (Returns (Str.universal_newlines content), w)
    | Some Dir => (Raises (OtherError "Is a directory"), w)
    | None => (Raises (FileNotFoundError "No such file or directory"), w)
    end.

(** [open(p, 'w', encoding='utf-8').write(content)] *)
Definition open_write (p content : string) (w0 : world) : outcome unit * world :=
  let w := log (OpenWrite p) w0 in
  let k := where_is w p in
  if String.eqb p EmptyString then (Raises (FileNotFoundError "No such file or directory"), w)
  else
    match entry_at w k, entry_at w (removelast k) with
    | Some Dir, _ => (Raises (OtherError "Is a directory"), w)
    | _, None => (Raises (FileNotFoundError "No such file or directory"), w)
    | _, Some (File _) => (Raises (OtherError "Not a directory"), w)
    | _, Some Dir =>
        if is_denied w k then (Raises (OtherError "Permission denied"), w)
        else (Returns (), set_fs (<[k := File content]> (fs w)) w)
    end.

(** The directories [k/c1], [k/c1/c2], ... are made where they are
    missing. *)
Fixpoint makedirs_below (k rest : list string) (w : world) : outcome unit * world :=
  match rest with
  | [] => (Returns (), w)
  | c :: rest' =>
      let k' := k ++ [c] in
      match entry_at w k' with
      | Some Dir => makedirs_below k' rest' w
      | Some (File _) =>
          (Raises (match rest' with
                   | [] => FileExistsError "File exists"
                   | _ => OtherError "Not a directory"
                   end), w)
      | None =>
          if is_denied w k' then (Raises (OtherError "Permission denied"), w)
          else makedirs_below k' rest' (set_fs (<[k' := Dir]> (fs w)) w)
      end
  end.

(** [os.makedirs(p, exist_ok=True)] *)
Definition makedirs (p : string) (w0 : world) : outcome unit * world :=
  let w := log (Makedirs p) w0 in
  if String.eqb p EmptyString then (Raises (FileNotFoundError "No such file or directory"), w)
  else makedirs_below [] (where_is w p) w.

(** [read_file_in_repo] *)
Definition read_file_in_repo (relative_file_path : string) (w : world)
    : string * world :=
  if negb (Str.truthy (path (active_repo_details w))) then (no_active, w)
  else
    let base_path := default EmptyString (path (active_repo_details w)) in
    let full_file_path := OsPath.join base_path relative_file_path in
    if negb (os_path_exists w full_file_path) then
      ("Error: File not found at " +:+ full_file_path, w)
    else if negb (os_path_isfile w full_file_path) then
      ("Error: Path exists but is not a file: " +:+ full_file_path, w)
    else
      match open_read full_file_path w with
      | (Returns content, w) => (content, w)
      | (Raises e, w) =>
          ("Error reading file " +:+ full_file_path +:+ " in active repo: "
           +:+ str_of e, w)
      end.

(** [write_file_in_repo] *)
Definition write_file_in_repo (relative_file_path content : string) (w : world)
    : string * world :=
  if negb (Str.truthy (path (active_repo_details w))) then (no_active, w)
  else
    let base_path := default EmptyString (path (active_repo_details w)) in
    let full_file_path := OsPath.join base_path relative_file_path in
    let parent_dir := OsPath.dirname full_file_path in
    let failed (e : exn) (w : world) :=
      ("Error writing file " +:+ OsPath.join base_path relative_file_path
       +:+ " in active repo: " +:+ str_of e, w) in
    match (if Str.truthy (Some parent_dir) then makedirs parent_dir w
           else (Returns (), w)) with
    | (Raises e, w) => failed e w
    | (Returns _, w) =>
        match open_write full_file_path content w with
        | (Raises e, w) => failed e w
        | (Returns _, w) =>
            ("Successfully wrote content to " +:+ full_file_path, w)
        end
    end.

(** The files below the directory at [k], each by its path from there;
    what [os.walk] and [os.path.relpath] give [list_files_in_repo]. *)
Definition files_below (w : world) (k : list string) : list string :=
  match entry_at w k with
  | Some Dir =>
      omap (fun kv : list string * entry =>
              match kv.2 with
              | File _ =>
                  if bool_decide (k `prefix_of` kv.1)
                  then Some (Str.join "/" (drop (length k) kv.1))
                  else None
              | Dir => None
              end)
           (map_to_list (fs w))
  | _ => []
  end.

(** [sorted(l)] on strings *)
Definition sorted (l : list string) : list string := merge_sort String.le l.

(** [list_files_in_repo] *)
Definition list_files_in_repo (w : world) : string * world :=
  if negb (Str.truthy (path (active_repo_details w))) then (no_active, w)
  else
    let repo_root_path := default EmptyString (path (active_repo_details w)) in
    let w := log (Walk repo_root_path) w in
    let file_list := files_below w (where_is w repo_root_path) in
    match file_list with
    | [] => ("No files found in the active repository.", w)
    | _ => ("Files in repository:" +:+ Str.nl +:+ Str.join Str.nl (sorted file_list), w)
    end.

(** *** The server as a transition system *)

(** A call of a tool that reads or sets the active session, with its
    arguments and with what the call meets outside the process. *)
Inductive tool_call :=
  | CloneRepository (env : clone_env) (repo_url : string)
  | CreateGitBranch (r : proc_result) (branch_name : string)
      (base_branch : option string)
  | GitCommitChanges (add_r commit_r : proc_result) (commit_message : string)
  | GitPushBranch (r : proc_result) (branch_name : string) (set_upstream : bool)
  | CreateGithubPr (api : api_result) (title body base_branch head_branch : string)
  | ReadFileInRepo (relative_file_path : string)
  | WriteFileInRepo (relative_file_path content : string)
  | ListFilesInRepo.

Definition invoke (c : tool_call) (w : world) : string * world :=
  match c with
  | CloneRepository env repo_url => clone_repository env repo_url w
  | CreateGitBranch r branch_name base_branch =>
      create_git_branch r branch_name base_branch w
  | GitCommitChanges add_r commit_r commit_message =>
      git_commit_changes add_r commit_r commit_message w
  | GitPushBranch r branch_name set_upstream =>
      git_push_branch r branch_name set_upstream w
  | CreateGithubPr api title body base_branch head_branch =>
      create_github_pr api title body base_branch head_branch w
  | ReadFileInRepo relative_file_path => read_file_in_repo relative_file_path w
  | WriteFileInRepo relative_file_path content =>
      write_file_in_repo relative_file_path content w
  | ListFilesInRepo => list_files_in_repo w
  end.

(** The tools that ask for an active repository. *)
Definition gated (c : tool_call) : bool :=
  match c with
  | CloneRepository _ _ => false
  | _ => true
  end.

(** The states of a running server: the module is imported on some disk,
    tools are called, and anything outside the process may change between
    the calls. *)
Inductive reachable : world -> Prop :=
  | reach_start github_token disk w :
      startup github_token disk = Returns w -> reachable w
  | reach_call c w :
      reachable w -> reachable (invoke c w).2
  | reach_outside w w' :
      reachable w ->
      active_repo_details w' = active_repo_details w ->
      reachable w'.

(** *** The tools that work on a path of the caller *)

(** [str(n)] for an [int], as an f-string formats it. *)
Definition str_of_int (n : Z) : string := pretty n.

(** The [except] clauses of these tools: the text for a
    [CalledProcessError] starts with [what], the one for any other
    exception with ["Error: "]. *)
Definition report_except (what : string) (e : exn) : string :=
  match e with
  | CalledProcessError _ err str_e => what +:+ stderr_or_str err str_e
  | FileNotFoundError str_e | FileExistsError str_e | OtherError str_e =>
      "Error: " +:+ str_e
  end.

(** [get_git_status] *)
Definition get_git_status (r : proc_result) (repo_path : option string) (w : world)
    : string * world :=
  match subprocess_run ["git"; "status"; "--porcelain"] repo_path r w with
  | (Returns result, w) =>
      if (returncode result =? 0)%Z then
        let status_output := Str.strip (stdout result) in
        if negb (Str.truthy (Some status_output))
        then ("Repository is clean - no changes detected.", w)
        else ("Git Status:" +:+ Str.nl +:+ status_output, w)
      else ("Error getting git status: " +:+ stderr result, w)
  | (Raises e, w) => (report_except "Error running git status: " e, w)
  end.

(** [list_branches] *)
Definition list_branches (r : proc_result) (repo_path : option string)
    (remote : bool) (w : world) : string * world :=
  let cmd := ["git"; "branch"; "-v"] ++ (if remote then ["-a"] else []) in
  match subprocess_run cmd repo_path r w with
  | (Returns result, w) =>
      if (returncode result =? 0)%Z then
        let branches := Str.strip (stdout result) in
        ("Branches:" +:+ Str.nl +:+ branches, w)
      else ("Error listing branches: " +:+ stderr result, w)
  | (Raises e, w) => (report_except "Error running git branch: " e, w)
  end.

(** The first lines of [create_pr_summary]: the head branch of the
    caller, or the branch that is checked out when the caller names
    none. *)
Definition current_branch (head_r : proc_result) (head_branch repo_path : option string)
    (w : world) : outcome string * world :=
  if negb (Str.truthy head_branch) then
    match subprocess_run ["git"; "rev-parse"; "--abbrev-ref"; "HEAD"]
            repo_path head_r w with
    | (Returns result, w) => (Returns (Str.strip (stdout result)), w)
    | (Raises e, w) => (Raises e, w)
    end
  else (Returns (default EmptyString head_branch), w).

(** [create_pr_summary] *)
Definition create_pr_summary (head_r diff_r : proc_result) (base_branch : string)
    (head_branch repo_path : option string) (w : world) : string * world :=
  match current_branch head_r head_branch repo_path w with
  | (Raises e, w) => (report_except "Error creating PR summary: " e, w)
  | (Returns head_branch, w) =>
      match subprocess_run
              ["git"; "diff"; base_branch +:+ "..." +:+ head_branch; "--stat"]
              repo_path diff_r w with
      | (Raises e, w) => (report_except "Error creating PR summary: " e, w)
      | (Returns result, w) =>
          if (returncode result =? 0)%Z then
            let diff_stat := Str.strip (stdout result) in
            if negb (Str.truthy (Some diff_stat))
            then ("No differences found between " +:+ base_branch +:+ " and "
                  +:+ head_branch, w)
            else ("PR Summary (" +:+ head_branch +:+ " -> " +:+ base_branch +:+ "):"
                  +:+ Str.nl +:+ Str.nl +:+ "Changes:" +:+ Str.nl +:+ diff_stat, w)
          else ("Error creating PR summary: " +:+ stderr result, w)
      end
  end.

(** [get_commit_history] *)
Definition get_commit_history (r : proc_result) (branch : option string)
    (limit : Z) (repo_path : option string) (w : world) : string * world :=
  let cmd := ["git"; "log"; "--max-count=" +:+ str_of_int limit; "--oneline"]
             ++ (if Str.truthy branch then [default EmptyString branch] else []) in
  match subprocess_run cmd repo_path r w with
  | (Returns result, w) =>
      let branch_info :=
        if Str.truthy branch
        then " for branch '" +:+ default EmptyString branch +:+ "'"
        else EmptyString in
      if (returncode result =? 0)%Z then
        let commits := Str.strip (stdout result) in
        if negb (Str.truthy (Some commits)) then ("No commits found", w)
        else ("Recent commits" +:+ branch_info +:+ ":" +:+ Str.nl +:+ commits, w)
      else ("Error getting commit history: " +:+ stderr result, w)
  | (Raises e, w) => (report_except "Error getting commit history: " e, w)
  end.

(** [get_git_diff] *)
Definition get_git_diff (r : proc_result) (target repo_path : option string)
    (w : world) : string * world :=
  let cmd := ["git"; "diff"]
             ++ (if Str.truthy target then [default EmptyString target] else []) in
  match subprocess_run cmd repo_path r w with
  | (Returns result, w) =>
      let diff_target :=
        if Str.truthy target then " against " +:+ default EmptyString target
        else " (working directory vs HEAD)" in
      if (returncode result =? 0)%Z then
        let diff_output := Str.strip (stdout result) in
        if negb (Str.truthy (Some diff_output))
        then ("No differences found" +:+ diff_target, w)
        else ("Git Diff" +:+ diff_target +:+ ":" +:+ Str.nl +:+ diff_output, w)
      else ("Error getting git diff: " +:+ stderr result, w)
  | (Raises e, w) => (report_except "Error running git diff: " e, w)
  end.

(** A call of one of these tools, with its arguments and with what git
    does. *)
Inductive path_call :=
  | GetGitStatus (r : proc_result) (repo_path : option string)
  | ListBranches (r : proc_result) (repo_path : option string) (remote : bool)
  | CreatePrSummary (head_r diff_r : proc_result) (base_branch : string)
      (head_branch repo_path : option string)
  | GetCommitHistory (r : proc_result) (branch : option string) (limit : Z)
      (repo_path : option string)
  | GetGitDiff (r : proc_result) (target repo_path : option string).

Definition invoke_path (c : path_call) (w : world) : string * world :=
  match c with
  | GetGitStatus r repo_path => get_git_status r repo_path w
  | ListBranches r repo_path remote => list_branches r repo_path remote w
  | CreatePrSummary head_r diff_r base_branch head_branch repo_path =>
      create_pr_summary head_r diff_r base_branch head_branch repo_path w
  | GetCommitHistory r branch limit repo_path =>
      get_commit_history r branch limit repo_path w
  | GetGitDiff r target repo_path => get_git_diff r target repo_path w
  end.

(** The path these tools are called with. *)
Definition repo_path_of (c : path_call) : option string :=
  match c with
  | GetGitStatus _ repo_path | ListBranches _ repo_path _
  | CreatePrSummary _ _ _ _ repo_path | GetCommitHistory _ _ _ repo_path
  | GetGitDiff _ _ repo_path => repo_path
  end.

End Server.

(** ** The vocabulary of the statements *)

Module Spec.
Import Server.

Definition is_rmtree (a : action) : Prop := match a with Rmtree _ => True | _ => False end.
Definition is_mkdir (a : action) : Prop := match a with Mkdir _ => True | _ => False end.
Definition is_subprocess (a : action) : Prop :=
  match a with Subprocess _ _ => True | _ => False end.

(** A step that leaves the session alone: the session in memory, the
    state file, the working directory and the permissions stay, and every
    call it makes is of a kind in [K] and sees that session. *)
Record steady (K : action -> Prop) (w w' : world) : Prop := Steady {
  steady_memory : active_repo_details w' = active_repo_details w;
  steady_file : state_file w' = state_file w;
  steady_writes : state_file_writes w' = state_file_writes w;
  steady_cwd : cwd w' = cwd w;
  steady_denied : denied w' = denied w;
  steady_trace :
    exists evs,
      trace w' = evs ++ trace w
      /\ Forall (fun ev => K (act ev)
                           /\ in_memory ev = active_repo_details w
                           /\ persisted ev = state_file w) evs
}.

(** The calls made from [w] to [w'], latest first. *)
Definition since (w w' : world) : list event :=
  take (length (trace w') - length (trace w)) (trace w').

(** From [w] to [w'] the trace grows by calls that satisfy [Q]. *)
Definition extends (Q : event -> Prop) (w w' : world) : Prop :=
  exists evs, trace w' = evs ++ trace w /\ Forall Q evs.

(** The state [clone_repository] is in when it enters its [try]. *)
Definition cleared (w : world) : world :=
  _save_state (set_details no_details (cleanup_previous w)).

(** What a call made while cloning may see: when a directory is made and
    when a child process is run, the session is empty in memory and the
    state file is [f]. *)
Definition clone_call_ok (f : option file_content) (ev : event) : Prop :=
  is_mkdir (act ev) \/ is_subprocess (act ev) ->
  in_memory ev = no_details /\ persisted ev = f.

(** From [w] to [w'] nothing changes outside the directory at [k]. *)
Definition touches_only (k : list string) (w w' : world) : Prop :=
  forall k', ¬ k `prefix_of` k' -> fs w' !! k' = fs w !! k'.

(** What [STATE_FILE] holds once the server in [w] has saved the session
    [d]: [d], when the file can be written. *)
Definition written (w : world) (d : details) : option file_content :=
  match state_file_writes w with
  | Written => Some (Json d)
  | Refused => state_file w
  | Torn => Some Unreadable
  end.

(** A session that has a path, or is empty. *)
Definition consistent (d : details) : Prop :=
  Str.truthy (path d) = true \/ d = no_details.

(** The path [p] names [root] or something below it, by its components
    (links are not followed). *)
Definition inside (w : world) (root p : string) : Prop :=
  where_is w root `prefix_of` where_is w p.

(** The files the calls [evs] opened. *)
Definition opened (evs : list event) : list string :=
  omap (fun ev => match act ev with
                  | OpenRead p | OpenWrite p => Some p
                  | _ => None
                  end) evs.

(** [name] is the path, from the directory at [k], of a file below it. *)
Definition is_file_below (w : world) (k : list string) (name : string) : Prop :=
  exists key content,
    fs w !! key = Some (File content)
    /\ k `prefix_of` key
    /\ name = Str.join "/" (drop (length k) key).

(** A text that reports a failure of [clone_repository]. *)
Definition is_failure_text (s : string) : bool :=
  Str.startswith s "Error"
  || Str.startswith s "An unexpected error occurred during clone: ".

(** The clone fails: no temporary directory can be made, git cannot be
    run, or git exits with an error. *)
Definition clone_fails (env : clone_env) (w : world) : bool :=
  match (mkdtemp env "mcp_clone_" (cleared w)).1, git env with
  | Returns _, Exit rc _ _ _ => negb (rc =? 0)%Z
  | _, _ => true
  end.

(** The child process ends with exit status 0. *)
Definition exits_zero (r : proc_result) : bool :=
  match r with
  | Exit rc _ _ _ => (rc =? 0)%Z
  | SpawnFileNotFound _ | SpawnFault _ => false
  end.


(** A text of white space only, the empty text included. *)
Definition is_blank (s : string) : bool := Str.all Str.is_space s.

(** A call of git as a child process in the directory [dir]. *)
Definition runs_git_in (dir : option string) (a : action) : Prop :=
  match a with
  | Subprocess (exe :: _) d => exe = "git" /\ d = dir
  | _ => False
  end.

(** The child processes among the calls [evs], each with its command and
    its working directory. *)
Definition subprocesses (evs : list event) : list (list string * option string) :=
  omap (fun ev => match act ev with
                  | Subprocess cmd d => Some (cmd, d)
                  | _ => None
                  end) evs.

(** The child process ends with exit status 0 and writes white space
    only, or nothing, to its standard output. *)
Definition blank_success (r : proc_result) : bool :=
  match r with
  | Exit rc out _ _ => (rc =? 0)%Z && is_blank out
  | SpawnFileNotFound _ | SpawnFault _ => false
  end.

(** What a clone that succeeds writes is below its target: the target
    itself stays the directory [mkdtemp] made. *)
Definition writes_below (env : clone_env) : Prop :=
  Forall (fun item : list string * entry => item.1 <> []) (checkout env).

(** A call that is neither the removal of a directory tree nor the write
    of [_save_state]. *)
Definition spares_session (a : action) : Prop :=
  match a with
  | Rmtree _ | OpenStateFile => False
  | _ => True
  end.

(** The tools that run git in the active repository. *)
Definition is_git_tool (c : tool_call) : bool :=
  match c with
  | CreateGitBranch _ _ _ | GitCommitChanges _ _ _ | GitPushBranch _ _ _ => true
  | _ => false
  end.





(** A clone of [repo_url] that succeeds, from any state and with any
    temporary directory, leaves the session with the owner [o] and the
    empty name, and [create_github_pr] on that session answers with the
    text for an incomplete identity and changes nothing. *)
Definition records_empty_name (repo_url o : string) : Prop :=
  forall env w t out err txt,
    (mkdtemp env "mcp_clone_" (cleared w)).1 = Returns t ->
    git env = Exit 0 out err txt ->
    active_repo_details (clone_repository env repo_url w).2
    = Details (Some t) (Some repo_url) (Some o) (Some "")
    /\ forall api title body base_branch head_branch,
         create_github_pr api title body base_branch head_branch
           (clone_repository env repo_url w).2
         = (incomplete_identity, (clone_repository env repo_url w).2).

(** What the non-capturing group of [pattern] matches: [http://host/] or
    [https://host/] with a host without ['/'], or [git@host:] with a
    host of word characters, dots and hyphens. *)
Definition url_head (w : string) : Prop :=
  (exists h, h <> "" /\ Str.mem "/" h = false
             /\ (w = "http://" +:+ h +:+ "/" \/ w = "https://" +:+ h +:+ "/"))
  \/ (exists h, h <> "" /\ Str.all (Re.in_class host_chars) h = true
                /\ w = "git@" +:+ h +:+ ":").

End Spec.

(** ** A server at work, for the examples *)

Module Scenario.
Import Server.

(** A clone of [https://github.com/a/b.git] from an earlier call. *)
Definition old_clone : string := "/tmp/mcp_clone_k3v9x0ab".

Definition old_session : details :=
  Details (Some old_clone) (Some "https://github.com/a/b.git") (Some "a") (Some "b").

Definition disk : gmap (list string) entry :=
  list_to_map
    [(["tmp"], Dir);
     (["tmp"; "mcp_clone_k3v9x0ab"], Dir);
     (["tmp"; "mcp_clone_k3v9x0ab"; "README.md"], File "# b");
     (["tmp"; "mcp_clone_k3v9x0ab"; "src"], Dir);
     (["tmp"; "mcp_clone_k3v9x0ab"; "src"; "main.py"], File "print(1)");
     (["etc"], Dir);
     (["etc"; "passwd"], File "root:x:0:0:root:/root:/bin/sh");
     (["srv"], Dir)].

(** The server with that session, started in [/srv]. *)
Definition running : world :=
  World old_session (Some (Json old_session)) Written disk ["srv"] [] [].

(** The same, started where the state file cannot be written. *)
Definition read_only : world :=
  World old_session (Some (Json old_session)) Refused disk ["srv"] [] [].

(** The same, with a file of the old clone that cannot be removed. *)
Definition locked : world :=
  World old_session (Some (Json old_session)) Written disk ["srv"]
        [["tmp"; "mcp_clone_k3v9x0ab"; "README.md"]] [].

(** The same, where what git writes below [.git] of the new clone cannot
    be removed. *)
Definition pack_locked : world :=
  World old_session (Some (Json old_session)) Written disk ["srv"]
        [["tmp"; "mcp_clone_p7q2m4zz"; ".git"; "objects"]] [].

(** A server that has no session. *)
Definition idle : world :=
  World no_details None Written disk ["srv"] [] [].

Definition new_url : string := "https://github.com/c/d.git".
Definition new_clone : string := "/tmp/mcp_clone_p7q2m4zz".

(** A clone that succeeds, one where git exits with an error, and one on a
    machine without git. *)
Definition git_works : clone_env :=
  CloneEnv "/tmp" ["p7q2m4zz"] (Exit 0 "" "Cloning into '/tmp/mcp_clone_p7q2m4zz'..." "")
           [(["README.md"], File "# d")] true.

Definition git_fails : clone_env :=
  CloneEnv "/tmp" ["p7q2m4zz"]
           (Exit 128 "" "fatal: repository not found"
                 "Command '['git', 'clone', ...]' returned non-zero exit status 128.")
           [] true.

Definition git_missing : clone_env :=
  CloneEnv "/tmp" ["p7q2m4zz"]
           (SpawnFileNotFound "[Errno 2] No such file or directory: 'git'") [] true.

(** The call of git a clone of [new_url] makes. *)
Definition git_clone_call : action :=
  Subprocess ["git"; "clone"; new_url; new_clone] None.

(** A machine with git on which the directory for temporary files is
    gone. *)
Definition no_tempdir : clone_env :=
  CloneEnv "/var/tmp" ["p7q2m4zz"] (Exit 0 "" "" "") [(["README.md"], File "# d")] true.

End Scenario.

(** * Facts *)

(** ** Strings *)

Module StrFacts.
Import Str.

Lemma str_app_cons a s t : String a s +:+ t = String a (s +:+ t).
Proof. reflexivity. Qed.

Lemma str_app_nil_l s : "" +:+ s = s.
Proof. reflexivity. Qed.

Lemma str_app_nil_r s : s +:+ "" = s.
Proof. induction s as [|c s IH]; [reflexivity|]. by rewrite str_app_cons, IH. Qed.

Lemma str_app_assoc s t u : (s +:+ t) +:+ u = s +:+ (t +:+ u).
Proof. induction s as [|c s IH]; [reflexivity|]. by rewrite !str_app_cons, IH. Qed.

Lemma str_length_app s t : length (s +:+ t) = length s + length t.
Proof. induction s as [|c s IH]; [reflexivity|]. rewrite str_app_cons. simpl. by rewrite IH. Qed.

Lemma strip_prefix_app p s : strip_prefix p (p +:+ s) = Some s.
Proof.
  induction p as [|c p IH]; [reflexivity|].
  rewrite str_app_cons. simpl. by rewrite Ascii.eqb_refl.
Qed.

Lemma strip_prefix_Some p s rest : strip_prefix p s = Some rest -> s = p +:+ rest.
Proof.
  revert s. induction p as [|c p IH]; intros s H.
  - simpl in H. by inversion H.
  - destruct s as [|b s]; [discriminate|]. simpl in H.
    destruct (Ascii.eqb c b) eqn:E; [|discriminate].
    apply Ascii.eqb_eq in E as ->. rewrite str_app_cons. f_equal. by apply IH.
Qed.

Lemma str_take_app_length s t : take (length s) (s +:+ t) = s.
Proof. induction s as [|c s IH]; [by destruct t|]. rewrite str_app_cons. simpl. by rewrite IH. Qed.

Lemma str_drop_app_length s t : drop (length s) (s +:+ t) = t.
Proof. induction s as [|c s IH]; [by destruct t|]. by rewrite str_app_cons. Qed.

Lemma endswith_app s suf : endswith (s +:+ suf) suf = true.
Proof.
  unfold endswith. rewrite str_length_app.
  replace (length s + length suf - length suf) with (length s) by lia.
  rewrite str_drop_app_length, String.eqb_refl, andb_true_r.
  apply Nat.leb_le. lia.
Qed.

Lemma drop_last_app s suf : drop_last (length suf) (s +:+ suf) = s.
Proof.
  unfold drop_last. rewrite str_length_app.
  replace (length s + length suf - length suf) with (length s) by lia.
  apply str_take_app_length.
Qed.

Lemma str_mem_app c s t : mem c (s +:+ t) = mem c s || mem c t.
Proof.
  induction s as [|a s IH]; [reflexivity|].
  rewrite str_app_cons. simpl. rewrite IH. by rewrite orb_assoc.
Qed.

Lemma final_segment_app s seg :
  mem "/" seg = false -> final_segment (s +:+ "/" +:+ seg) = seg.
Proof.
  intros Hseg. induction s as [|c s IH].
  - rewrite str_app_nil_l, str_app_cons, str_app_nil_l. simpl. by rewrite Hseg.
  - rewrite str_app_cons. simpl. rewrite str_mem_app, str_app_cons. simpl.
    by rewrite orb_true_r.
Qed.

Lemma str_take_drop n s : take n s +:+ drop n s = s.
Proof.
  revert s. induction n as [|n IH]; intros [|c s]; simpl; try done.
  by rewrite str_app_cons, IH.
Qed.

Lemma endswith_inv s suf :
  endswith s suf = true -> s = drop_last (length suf) s +:+ suf.
Proof.
  unfold endswith, drop_last. intros [_ H]%andb_true_iff.
  apply String.eqb_eq in H.
  transitivity (take (length s - length suf) s +:+ drop (length s - length suf) s);
    [by rewrite str_take_drop|by rewrite H].
Qed.

End StrFacts.

(** ** The matcher *)

Module ReFacts.
Import Str StrFacts Re.

Section Plus.
Context {R : Type}.
Implicit Types (p : ascii -> bool) (k : string -> string -> option R).

(** A run of class characters that nothing of the class follows is
    taken whole when the continuation accepts it. *)
Lemma plus_from_run p w rest k x :
  w <> "" ->
  all p w = true ->
  (rest = "" \/ exists c r, rest = String c r /\ p c = false) ->
  k w rest = Some x ->
  plus_from p (w +:+ rest) k = Some x.
Proof.
  intros Hne Hall Hrest. revert k.
  induction w as [|c w IH]; intros k Hk; [done|].
  simpl in Hall. apply andb_true_iff in Hall as [Hc Hw].
  rewrite str_app_cons. simpl. rewrite Hc.
  destruct w as [|c' w].
  - rewrite str_app_nil_l.
    assert (plus_from p rest (fun w0 r => k (String c w0) r) = None) as ->.
    { destruct Hrest as [->|(c0 & r & -> & Hc0)]; simpl; [done|by rewrite Hc0]. }
    done.
  - rewrite (IH ltac:(done) Hw (fun w0 r => k (String c w0) r)); done.
Qed.

(** Whatever [plus_from] answers comes from the continuation, called on
    a non-empty run of class characters; and the continuation refused
    every longer run. *)
Lemma plus_from_sound p s k x :
  plus_from p s k = Some x ->
  exists w rest,
    s = w +:+ rest /\ w <> "" /\ all p w = true /\ k w rest = Some x
    /\ plus_from p rest (fun w' r => k (w +:+ w') r) = None.
Proof.
  revert k. induction s as [|c s IH]; intros k H; [done|].
  simpl in H. destruct (p c) eqn:Hc; [|done].
  destruct (plus_from p s (fun w r => k (String c w) r)) as [y|] eqn:E.
  - inversion H; subst y. apply IH in E as (w & rest & -> & Hne & Hall & Hk & Hno).
    exists (String c w), rest. rewrite str_app_cons. simpl. rewrite Hc.
    repeat split; try done.
  - exists (String c ""), s. rewrite str_app_cons, str_app_nil_l. simpl. rewrite Hc.
    repeat split; try done.
Qed.

End Plus.

(** Whatever [run] answers comes from the continuation, called on a split
    of the subject. *)
Lemma run_sound {R} (r : regex) s gs (k : string -> string -> groups -> option R) x :
  run r s gs k = Some x ->
  exists w rest gs', s = w +:+ rest /\ k w rest gs' = Some x.
Proof.
  revert s gs k. induction r as [l|r IH|cl|r1 IH1 r2 IH2|r1 IH1 r2 IH2|n r IH|];
    intros s gs k H; simpl in H.
  - destruct (strip_prefix l s) as [rest|] eqn:E; [|done].
    apply strip_prefix_Some in E. eauto.
  - destruct (run r s gs k) eqn:E.
    + inversion H; subst. eauto.
    + exists "", s, gs. by rewrite str_app_nil_l.
  - apply plus_from_sound in H as (w & rest & -> & _ & _ & Hk & _). eauto.
  - apply IH1 in H as (w1 & s1 & gs1 & -> & H).
    apply IH2 in H as (w2 & s2 & gs2 & -> & H).
    exists (w1 +:+ w2), s2, gs2. by rewrite str_app_assoc.
  - destruct (run r1 s gs k) eqn:E.
    + inversion H; subst. eauto.
    + eauto.
  - apply IH in H as (w & rest & gs' & -> & H). eauto.
  - destruct (at_end s); [|done]. exists "", s, gs. by rewrite str_app_nil_l.
Qed.

Lemma re_search_sound r s gs :
  re_search r s = Some gs ->
  exists pre s', s = pre +:+ s' /\ re_match r s' = Some gs.
Proof.
  induction s as [|c s IH]; simpl; intros H.
  - destruct (re_match r "") eqn:E; [|done]. inversion H; subst.
    by exists "", "".
  - destruct (re_match r (String c s)) eqn:E.
    + inversion H; subst. by exists "", (String c s).
    + apply IH in H as (pre & s' & -> & H). by exists (String c pre), s'.
Qed.

Lemma re_search_here r s gs : re_match r s = Some gs -> re_search r s = Some gs.
Proof. intros H. destruct s; simpl; by rewrite H. Qed.

End ReFacts.

(** ** The URL parser *)

Module ParseFacts.
Import Str StrFacts Re ReFacts Server.

Lemma pattern_split : pattern = Cat head_re tail_re.
Proof. reflexivity. Qed.

Lemma in_not_slash c : in_class not_slash c = negb (Ascii.eqb "/" c).
Proof. unfold in_class, not_slash. simpl. by rewrite orb_false_r. Qed.

Lemma all_not_slash s : all (in_class not_slash) s = true <-> mem "/" s = false.
Proof.
  induction s as [|c s IH]; [done|].
  change (all (in_class not_slash) (String c s))
    with (in_class not_slash c && all (in_class not_slash) s).
  change (mem "/" (String c s)) with (Ascii.eqb c "/" || mem "/" s).
  rewrite andb_true_iff, orb_false_iff, IH, in_not_slash, negb_true_iff.
  by rewrite (Ascii.eqb_sym c).
Qed.

Lemma not_slash_slash : in_class not_slash "/" = false.
Proof. reflexivity. Qed.

(** The owner/name tail on a subject [O/S]. *)
Lemma tail_match {R} O S gs (k : string -> string -> groups -> option R) x :
  O <> "" -> mem "/" O = false ->
  S <> "" -> mem "/" S = false ->
  (forall w, k w "" (<[2 := S]> (<[1 := O]> gs)) = Some x) ->
  run tail_re (O +:+ "/" +:+ S) gs k = Some x.
Proof.
  intros HO HOs HS HSs Hk. unfold tail_re. cbn [run].
  apply plus_from_run; [done|by apply all_not_slash| |].
  { right. exists "/"%char, S. split; [done|apply not_slash_slash]. }
  rewrite strip_prefix_app.
  rewrite <- (str_app_nil_r S) at 1.
  apply plus_from_run; [done|by apply all_not_slash|by left|].
  cbn [at_end]. apply Hk.
Qed.

(** A match of the tail splits its subject at the only ['/'] in it, and
    the second group runs to the end of the subject. *)
Lemma tail_sound s gs gs' :
  run tail_re s gs (fun _ _ g => Some g) = Some gs' ->
  exists O S,
    s = O +:+ "/" +:+ S /\ O <> "" /\ mem "/" O = false
    /\ S <> "" /\ mem "/" S = false
    /\ gs' = <[2 := S]> (<[1 := O]> gs).
Proof.
  unfold tail_re. cbn [run]. intros H.
  apply plus_from_sound in H as (O & rest & -> & HO & HOall & H & _).
  destruct (strip_prefix "/" rest) as [rest'|] eqn:E; [|done].
  apply strip_prefix_Some in E as ->.
  apply plus_from_sound in H as (S & rest2 & -> & HS & HSall & H & Hno).
  destruct (at_end rest2) eqn:Hend; [|done]. inversion H; subst gs'; clear H.
  assert (rest2 = "") as ->.
  { destruct rest2 as [|c [|c' r]]; [done| |done].
    simpl in Hend. apply Ascii.eqb_eq in Hend as ->. by simpl in Hno. }
  exists O, S. rewrite str_app_nil_r. apply all_not_slash in HOall, HSall. done.
Qed.

(** What [_parse_repo_url] answers on a subject where [pattern] matches at
    the first character. *)
Lemma parse_of_match url gs :
  re_match pattern url = Some gs ->
  _parse_repo_url url = (gs !! 1, strip_git <$> gs !! 2).
Proof. intros H. unfold _parse_repo_url. by rewrite (re_search_here _ _ _ H). Qed.

Lemma first_Some {R} (a b : option R) y :
  a = Some y -> match a with Some x => Some x | None => b end = Some y.
Proof. by intros ->. Qed.

Lemma first_None {R} (a b : option R) :
  a = None -> match a with Some x => Some x | None => b end = b.
Proof. by intros ->. Qed.

(** The host of an http(s) URL, up to the ['/'] that ends it. *)
Lemma host_match {R} host rest gs (k : string -> string -> groups -> option R) x :
  host <> "" -> mem "/" host = false ->
  (forall w, k w rest gs = Some x) ->
  run (Cat (Plus not_slash) (Lit "/")) (host +:+ "/" +:+ rest) gs k = Some x.
Proof.
  intros Hh Hhs Hk. cbn [run].
  apply plus_from_run; [done|by apply all_not_slash| |].
  { right. exists "/"%char, rest. split; [done|apply not_slash_slash]. }
  rewrite strip_prefix_app. apply Hk.
Qed.

(** The head of [pattern] on [http://host/] and [https://host/]. *)
Lemma head_http {R} host rest (k : string -> string -> groups -> option R) x :
  host <> "" -> mem "/" host = false ->
  (forall w, k w rest ∅ = Some x) ->
  run head_re ("http" +:+ "://" +:+ host +:+ "/" +:+ rest) ∅ k = Some x.
Proof.
  intros Hh Hhs Hk. unfold head_re.
  change (run (Alt ?a ?b) ?s ?g ?k0)
    with (match run a s g k0 with Some y => Some y | None => run b s g k0 end).
  apply first_Some.
  change (run (Cat (Lit ?l) ?b) ?s ?g ?k0)
    with (match strip_prefix l s with
          | Some r => run b r g (fun w2 s2 gs2 => k0 (l +:+ w2) s2 gs2)
          | None => None
          end).
  rewrite strip_prefix_app.
  change (run (Cat (Opt ?a) ?b) ?s ?g ?k0)
    with (let k1 := fun w1 s1 gs1 =>
                      run b s1 gs1 (fun w2 s2 gs2 => k0 (w1 +:+ w2) s2 gs2) in
          match run a s g k1 with Some y => Some y | None => k1 "" s g end).
  cbv zeta. rewrite first_None by reflexivity.
  change (run (Cat (Lit ?l) ?b) ?s ?g ?k0)
    with (match strip_prefix l s with
          | Some r => run b r g (fun w2 s2 gs2 => k0 (l +:+ w2) s2 gs2)
          | None => None
          end).
  rewrite strip_prefix_app.
  apply host_match; [done..|]. intros w. apply Hk.
Qed.

Lemma head_https {R} host rest (k : string -> string -> groups -> option R) x :
  host <> "" -> mem "/" host = false ->
  (forall w, k w rest ∅ = Some x) ->
  run head_re ("https" +:+ "://" +:+ host +:+ "/" +:+ rest) ∅ k = Some x.
Proof.
  intros Hh Hhs Hk. unfold head_re.
  change ("https" +:+ ?r) with ("http" +:+ "s" +:+ r).
  change (run (Alt ?a ?b) ?s ?g ?k0)
    with (match run a s g k0 with Some y => Some y | None => run b s g k0 end).
  apply first_Some.
  change (run (Cat (Lit ?l) ?b) ?s ?g ?k0)
    with (match strip_prefix l s with
          | Some r => run b r g (fun w2 s2 gs2 => k0 (l +:+ w2) s2 gs2)
          | None => None
          end).
  rewrite strip_prefix_app.
  change (run (Cat (Opt ?a) ?b) ?s ?g ?k0)
    with (let k1 := fun w1 s1 gs1 =>
                      run b s1 gs1 (fun w2 s2 gs2 => k0 (w1 +:+ w2) s2 gs2) in
          match run a s g k1 with Some y => Some y | None => k1 "" s g end).
  cbv zeta. apply first_Some.
  change (run (Lit ?l) ?s ?g ?k0)
    with (match strip_prefix l s with
          | Some r => k0 l r g
          | None => None
          end).
  rewrite strip_prefix_app.
  change (run (Cat (Lit ?l) ?b) ?s ?g ?k0)
    with (match strip_prefix l s with
          | Some r => run b r g (fun w2 s2 gs2 => k0 (l +:+ w2) s2 gs2)
          | None => None
          end).
  rewrite strip_prefix_app.
  apply host_match; [done..|]. intros w. apply Hk.
Qed.

(** [scheme://host/O/S] with scheme [http] or [https]. *)
Lemma parse_http scheme host O S :
  scheme = "http" \/ scheme = "https" ->
  host <> "" -> mem "/" host = false ->
  O <> "" -> mem "/" O = false ->
  S <> "" -> mem "/" S = false ->
  _parse_repo_url (scheme +:+ "://" +:+ host +:+ "/" +:+ O +:+ "/" +:+ S)
  = (Some O, Some (strip_git S)).
Proof.
  intros Hscheme Hh Hhs HO HOs HS HSs.
  set (gs := <[2 := S]> (<[1 := O]> (∅ : groups))).
  rewrite (parse_of_match _ gs).
  { unfold gs. by rewrite lookup_insert_ne, lookup_insert_eq, lookup_insert_eq. }
  unfold re_match. rewrite pattern_split.
  change (run (Cat ?a ?b) ?s ?g ?k)
    with (run a s g (fun w1 s1 gs1 =>
            run b s1 gs1 (fun w2 s2 gs2 => k (w1 +:+ w2) s2 gs2))).
  destruct Hscheme as [-> | ->]; [apply head_http|apply head_https]; try done;
    intros w; by apply tail_match.
Qed.

Lemma in_host_chars_colon : in_class host_chars ":" = false.
Proof. reflexivity. Qed.

(** The head of [pattern] on [git@host:]. *)
Lemma head_git {R} host rest (k : string -> string -> groups -> option R) x :
  host <> "" -> all (in_class host_chars) host = true ->
  (forall w, k w rest ∅ = Some x) ->
  run head_re ("git@" +:+ host +:+ ":" +:+ rest) ∅ k = Some x.
Proof.
  intros Hh Hhs Hk. unfold head_re.
  change (run (Alt ?a ?b) ?s ?g ?k0)
    with (match run a s g k0 with Some y => Some y | None => run b s g k0 end).
  rewrite first_None by reflexivity.
  change (run (Cat (Lit ?l) ?b) ?s ?g ?k0)
    with (match strip_prefix l s with
          | Some r => run b r g (fun w2 s2 gs2 => k0 (l +:+ w2) s2 gs2)
          | None => None
          end).
  rewrite strip_prefix_app. cbn [run].
  apply plus_from_run; [done|done| |].
  { right. exists ":"%char, rest. split; [done|apply in_host_chars_colon]. }
  rewrite strip_prefix_app. apply Hk.
Qed.

(** [git@host:O/S] *)
Lemma parse_git host O S :
  host <> "" -> all (in_class host_chars) host = true ->
  O <> "" -> mem "/" O = false ->
  S <> "" -> mem "/" S = false ->
  _parse_repo_url ("git@" +:+ host +:+ ":" +:+ O +:+ "/" +:+ S)
  = (Some O, Some (strip_git S)).
Proof.
  intros Hh Hhs HO HOs HS HSs.
  set (gs := <[2 := S]> (<[1 := O]> (∅ : groups))).
  rewrite (parse_of_match _ gs).
  { unfold gs. by rewrite lookup_insert_ne, lookup_insert_eq, lookup_insert_eq. }
  unfold re_match. rewrite pattern_split.
  change (run (Cat ?a ?b) ?s ?g ?k)
    with (run a s g (fun w1 s1 gs1 =>
            run b s1 gs1 (fun w2 s2 gs2 => k (w1 +:+ w2) s2 gs2))).
  apply head_git; try done. intros w; by apply tail_match.
Qed.

(** Every match of [pattern] found by [re.search] ends in [O/S], two
    non-empty segments without a ['/'], and sets the groups to them. *)
Lemma search_pattern_inv url gs :
  re_search pattern url = Some gs ->
  exists pre O S,
    url = pre +:+ O +:+ "/" +:+ S
    /\ O <> "" /\ mem "/" O = false /\ S <> "" /\ mem "/" S = false
    /\ gs !! 1 = Some O /\ gs !! 2 = Some S.
Proof.
  intros H. apply re_search_sound in H as (pre & s' & -> & H).
  unfold re_match in H. rewrite pattern_split in H.
  change (run (Cat ?a ?b) ?s ?g ?k)
    with (run a s g (fun w1 s1 gs1 =>
            run b s1 gs1 (fun w2 s2 gs2 => k (w1 +:+ w2) s2 gs2))) in H.
  apply run_sound in H as (w1 & s1 & gs1 & -> & H).
  apply tail_sound in H as (O & S & -> & HO & HOs & HS & HSs & ->).
  exists (pre +:+ w1), O, S. rewrite str_app_assoc.
  rewrite lookup_insert_ne, !lookup_insert_eq by done. done.
Qed.

(** [_parse_repo_url] answers [(None, None)], or the last two segments of
    the URL, the final one without a trailing [.git]. *)
Lemma parse_inv url :
  _parse_repo_url url = (None, None)
  \/ exists pre O S,
       url = pre +:+ O +:+ "/" +:+ S
       /\ O <> "" /\ mem "/" O = false /\ S <> "" /\ mem "/" S = false
       /\ final_segment url = S
       /\ _parse_repo_url url = (Some O, Some (strip_git S)).
Proof.
  unfold _parse_repo_url. destruct (re_search pattern url) as [gs|] eqn:E; [|by left].
  right. apply search_pattern_inv in E as (pre & O & S & -> & HO & HOs & HS & HSs & H1 & H2).
  exists pre, O, S. unfold group. rewrite H1, H2. repeat split; try done.
  rewrite <- str_app_assoc. by apply final_segment_app.
Qed.

Lemma strip_git_suffix base : strip_git (base +:+ ".git") = base.
Proof.
  unfold strip_git. rewrite endswith_app.
  change 4 with (length ".git"). apply drop_last_app.
Qed.

Lemma host_chars_no_slash host :
  all (in_class host_chars) host = true -> mem "/" host = false.
Proof.
  induction host as [|c host IH]; [done|].
  change (all (in_class host_chars) (String c host))
    with (in_class host_chars c && all (in_class host_chars) host).
  change (mem "/" (String c host)) with (Ascii.eqb c "/" || mem "/" host).
  intros [Hc Hh]%andb_true_iff. rewrite (IH Hh), orb_false_r.
  destruct (Ascii.eqb_spec c "/") as [->|]; [|done]. done.
Qed.

Lemma strip_git_inv s :
  s = (if endswith s ".git" then strip_git s +:+ ".git" else strip_git s).
Proof.
  unfold strip_git. destruct (endswith s ".git") eqn:E; [|done].
  by apply endswith_inv in E.
Qed.

End ParseFacts.

(** ** Paths *)

Module PathFacts.
Import Str StrFacts OsPath.

Lemma split_nonempty sep s : split sep s <> [].
Proof. destruct s as [|c s]; simpl; [done|]. repeat case_match; done. Qed.

Lemma split_app_sep sep a b :
  split sep (a +:+ String sep b) = split sep a ++ split sep b.
Proof.
  induction a as [|c a IH].
  - rewrite str_app_nil_l. simpl. by rewrite Ascii.eqb_refl.
  - rewrite str_app_cons. simpl. rewrite IH.
    destruct (Ascii.eqb c sep); [done|].
    destruct (split sep a) as [|w ws] eqn:E; [by apply split_nonempty in E|done].
Qed.

Lemma enter_empty stack : enter stack "" = stack.
Proof. done. Qed.

(** Components without [..] only go down. *)
Lemma fold_enter_grows comps stack :
  ¬ In ".." comps -> exists extra, fold_left enter comps stack = extra ++ stack.
Proof.
  revert stack. induction comps as [|c comps IH]; intros stack Hno; simpl.
  - by exists [].
  - destruct (IH (enter stack c)) as (extra & ->); [by intros ?; apply Hno; right|].
    unfold enter. destruct (String.eqb c "" || String.eqb c ".")%bool.
    + by exists extra.
    + destruct (String.eqb_spec c "..") as [->|_]; [exfalso; apply Hno; by left|].
      exists (extra ++ [c]). by rewrite <- List.app_assoc.
Qed.

Lemma startswith_app p x : p <> "" -> startswith (p +:+ x) "/" = startswith p "/".
Proof.
  destruct p as [|c p]; [done|]. intros _. rewrite str_app_cons.
  unfold startswith. cbn [strip_prefix]. by destruct (Ascii.eqb "/" c).
Qed.

(** Without a leading ['/'] and without [..], the second argument of
    [os.path.join] stays below the first. *)
Lemma resolve_join_inside cwd P rel :
  P <> "" -> startswith rel "/" = false -> ¬ In ".." (split "/" rel) ->
  resolve cwd P `prefix_of` resolve cwd (join P rel).
Proof.
  intros HP Hrel Hno. unfold join. rewrite Hrel.
  apply String.eqb_neq in HP as HP'. rewrite HP'. simpl.
  destruct (endswith P "/") eqn:Hend.
  - apply endswith_inv in Hend. change (length "/") with 1 in Hend.
    set (A := drop_last 1 P) in *.
    unfold resolve. rewrite startswith_app by done.
    assert (split "/" (P +:+ rel) = split "/" A ++ split "/" rel) as ->.
    { rewrite Hend, str_app_assoc. apply split_app_sep. }
    assert (split "/" P = split "/" A ++ [""]) as ->.
    { rewrite Hend. apply (split_app_sep "/" A ""). }
    rewrite !fold_left_app. simpl. rewrite enter_empty.
    destruct (fold_enter_grows (split "/" rel)
                (fold_left enter (split "/" A)
                   (if startswith P "/" then [] else reverse cwd)) Hno) as (extra & ->).
    rewrite reverse_app. by apply prefix_app_r.
  - unfold resolve. rewrite startswith_app by done.
    change (P +:+ "/" +:+ rel) with (P +:+ String "/" rel).
    rewrite split_app_sep, fold_left_app.
    destruct (fold_enter_grows (split "/" rel)
                (fold_left enter (split "/" P)
                   (if startswith P "/" then [] else reverse cwd)) Hno) as (extra & ->).
    rewrite reverse_app. by apply prefix_app_r.
Qed.

End PathFacts.

(** ** The shape of the URLs the parser recognises *)

Module ShapeFacts.
Import Str StrFacts Re ReFacts Server Spec ParseFacts PathFacts.

Lemma split_free sep s : mem sep s = false -> split sep s = [s].
Proof.
  induction s as [|c s IH]; [done|]. cbn [mem split].
  intros [-> Hs]%orb_false_iff. by rewrite IH.
Qed.

Lemma join_split sep s : Str.join (String sep "") (split sep s) = s.
Proof.
  induction s as [|c s IH]; [done|]. cbn [split].
  destruct (Ascii.eqb_spec c sep) as [->|Hc].
  - destruct (split sep s) as [|p ps] eqn:E; [by apply split_nonempty in E|].
    by rewrite <- IH.
  - destruct (split sep s) as [|p ps] eqn:E; [by apply split_nonempty in E|].
    rewrite <- IH. by destruct ps.
Qed.

Lemma split_single sep s y : split sep s = [y] -> s = y.
Proof. intros H. by rewrite <- (join_split sep s), H. Qed.

(** Text without the separator, put after [x], goes to the last piece. *)
Lemma split_snoc_free sep x y :
  mem sep y = false ->
  exists l p, split sep x = l ++ [p] /\ split sep (x +:+ y) = l ++ [p +:+ y].
Proof.
  intros Hy. induction x as [|c x (l & p & E1 & E2)].
  - exists [], "". rewrite !str_app_nil_l. split; [done|by apply split_free].
  - rewrite str_app_cons. cbn [split]. rewrite E1, E2.
    destruct (Ascii.eqb c sep).
    + by exists ("" :: l), p.
    + destruct l as [|a l]; simpl.
      * by exists [], (String c p).
      * by exists (String c a :: l), p.
Qed.

Lemma str_app_inv_tail a b c : a +:+ c = b +:+ c -> a = b.
Proof.
  intros H. rewrite <- (drop_last_app a c), <- (drop_last_app b c). by rewrite H.
Qed.

Lemma str_app_inv_head a b c : c +:+ a = c +:+ b -> a = b.
Proof.
  induction c as [|x c IH]; [by rewrite !str_app_nil_l|].
  rewrite !str_app_cons. intros [= H]. by apply IH.
Qed.

Lemma host_chars_no_colon host :
  all (in_class host_chars) host = true -> mem ":" host = false.
Proof.
  induction host as [|c host IH]; [done|].
  change (all (in_class host_chars) (String c host))
    with (in_class host_chars c && all (in_class host_chars) host).
  change (mem ":" (String c host)) with (Ascii.eqb c ":" || mem ":" host).
  intros [Hc Hh]%andb_true_iff. rewrite (IH Hh), orb_false_r.
  destruct (Ascii.eqb_spec c ":") as [->|]; [|done]. done.
Qed.

(** What the head of [pattern] takes from the subject. *)
Lemma head_sound {R} s gs (k : string -> string -> groups -> option R) x :
  run head_re s gs k = Some x ->
  exists w rest gs', s = w +:+ rest /\ url_head w /\ k w rest gs' = Some x.
Proof.
  unfold head_re.
  change (run (Alt ?a ?b) ?s0 ?g ?k0)
    with (match run a s0 g k0 with Some y => Some y | None => run b s0 g k0 end).
  destruct (run (Cat (Lit "http") _) s gs k) as [y|] eqn:E.
  - intros [= ->]. revert E.
    change (run (Cat (Lit ?l) ?b) ?s0 ?g ?k0)
      with (match strip_prefix l s0 with
            | Some r => run b r g (fun w2 s2 gs2 => k0 (l +:+ w2) s2 gs2)
            | None => None
            end).
    destruct (strip_prefix "http" s) as [r1|] eqn:E1; [|done].
    apply strip_prefix_Some in E1 as ->.
    change (run (Cat (Opt ?a) ?b) ?s0 ?g ?k0)
      with (let k1 := fun w1 s1 gs1 =>
                        run b s1 gs1 (fun w2 s2 gs2 => k0 (w1 +:+ w2) s2 gs2) in
            match run a s0 g k1 with Some y => Some y | None => k1 "" s0 g end).
    cbv zeta.
    assert (forall r2 (k2 : string -> string -> groups -> option R),
              run (Cat (Lit "://") (Cat (Plus not_slash) (Lit "/"))) r2 gs k2 = Some x ->
              exists h rest,
                r2 = "://" +:+ h +:+ "/" +:+ rest /\ h <> "" /\ mem "/" h = false
                /\ k2 ("://" +:+ h +:+ "/") rest gs = Some x) as Hhost.
    { intros r2 k2.
      change (run (Cat (Lit ?l) ?b) ?s0 ?g ?k0)
        with (match strip_prefix l s0 with
              | Some r => run b r g (fun w2 s2 gs2 => k0 (l +:+ w2) s2 gs2)
              | None => None
              end).
      destruct (strip_prefix "://" r2) as [r3|] eqn:E3; [|done].
      apply strip_prefix_Some in E3 as ->. cbn [run]. intros H.
      apply plus_from_sound in H as (h & rest & -> & Hh & Hall & H & _).
      destruct (strip_prefix "/" rest) as [rest'|] eqn:E4; [|done].
      apply strip_prefix_Some in E4 as ->.
      exists h, rest'. apply all_not_slash in Hall. done. }
    destruct (run (Lit "s") r1 gs _) as [y|] eqn:E2.
    + intros [= ->]. revert E2.
      change (run (Lit ?l) ?s0 ?g ?k0)
        with (match strip_prefix l s0 with
              | Some r => k0 l r g
              | None => None
              end).
      destruct (strip_prefix "s" r1) as [r2|] eqn:E3; [|done].
      apply strip_prefix_Some in E3 as ->. intros H.
      apply Hhost in H as (h & rest & -> & Hh & Hhs & H).
      exists ("https://" +:+ h +:+ "/"), rest, gs.
      split; [by rewrite !str_app_assoc|]. split; [|exact H].
      left. exists h. split; [done|]. split; [done|]. by right.
    + intros H. apply Hhost in H as (h & rest & -> & Hh & Hhs & H).
      exists ("http://" +:+ h +:+ "/"), rest, gs.
      split; [by rewrite !str_app_assoc|]. split; [|exact H].
      left. exists h. split; [done|]. split; [done|]. by left.
  - clear E.
    change (run (Cat (Lit ?l) ?b) ?s0 ?g ?k0)
      with (match strip_prefix l s0 with
            | Some r => run b r g (fun w2 s2 gs2 => k0 (l +:+ w2) s2 gs2)
            | None => None
            end).
    destruct (strip_prefix "git@" s) as [r1|] eqn:E1; [|done].
    apply strip_prefix_Some in E1 as ->. cbn [run]. intros H.
    apply plus_from_sound in H as (h & rest & -> & Hh & Hall & H & _).
    destruct (strip_prefix ":" rest) as [rest'|] eqn:E4; [|done].
    apply strip_prefix_Some in E4 as ->.
    exists ("git@" +:+ h +:+ ":"), rest', gs.
    split; [by rewrite !str_app_assoc|]. split; [|exact H].
    right. by exists h.
Qed.

(** Every match of [pattern] is a head followed by [O/S], two non-empty
    segments without a ['/'], and sets the groups to them. *)
Lemma match_inv s gs :
  re_match pattern s = Some gs ->
  exists w O S,
    s = w +:+ O +:+ "/" +:+ S /\ url_head w
    /\ O <> "" /\ mem "/" O = false /\ S <> "" /\ mem "/" S = false
    /\ gs !! 1 = Some O /\ gs !! 2 = Some S.
Proof.
  unfold re_match. rewrite pattern_split.
  change (run (Cat ?a ?b) ?s0 ?g ?k)
    with (run a s0 g (fun w1 s1 gs1 =>
            run b s1 gs1 (fun w2 s2 gs2 => k (w1 +:+ w2) s2 gs2))).
  intros H. apply head_sound in H as (w & rest & gs1 & -> & Hw & H).
  apply tail_sound in H as (O & S & -> & HO & HOs & HS & HSs & ->).
  exists w, O, S. rewrite lookup_insert_ne, !lookup_insert_eq by done. done.
Qed.

Lemma search_inv url gs :
  re_search pattern url = Some gs ->
  exists pre w O S,
    url = pre +:+ w +:+ O +:+ "/" +:+ S /\ url_head w
    /\ O <> "" /\ mem "/" O = false /\ S <> "" /\ mem "/" S = false
    /\ gs !! 1 = Some O /\ gs !! 2 = Some S.
Proof.
  intros H. apply re_search_sound in H as (pre & s' & -> & H).
  apply match_inv in H as (w & O & S & -> & H). by exists pre, w, O, S.
Qed.

(** [re.search] finds a match no later than where there is one. *)
Lemma re_search_first r pre s gs0 :
  re_match r s = Some gs0 ->
  exists pre1 pre2 gs,
    pre = pre1 +:+ pre2
    /\ re_search r (pre +:+ s) = Some gs
    /\ re_match r (pre2 +:+ s) = Some gs.
Proof.
  intros H. induction pre as [|c pre (pre1 & pre2 & gs & -> & Hs & Hm)].
  - exists "", "", gs0. rewrite !str_app_nil_l. by rewrite (re_search_here _ _ _ H).
  - rewrite str_app_cons. cbn [re_search].
    destruct (re_match r (String c ((pre1 +:+ pre2) +:+ s))) as [gs'|] eqn:E.
    + exists "", (String c (pre1 +:+ pre2)), gs'. by rewrite str_app_nil_l.
    + exists (String c pre1), pre2, gs. by rewrite str_app_cons, Hs.
Qed.

Lemma match_http scheme host O S :
  scheme = "http" \/ scheme = "https" ->
  host <> "" -> mem "/" host = false ->
  O <> "" -> mem "/" O = false ->
  S <> "" -> mem "/" S = false ->
  re_match pattern (scheme +:+ "://" +:+ host +:+ "/" +:+ O +:+ "/" +:+ S)
  = Some (<[2 := S]> (<[1 := O]> ∅)).
Proof.
  intros Hscheme Hh Hhs HO HOs HS HSs.
  unfold re_match. rewrite pattern_split.
  change (run (Cat ?a ?b) ?s ?g ?k)
    with (run a s g (fun w1 s1 gs1 =>
            run b s1 gs1 (fun w2 s2 gs2 => k (w1 +:+ w2) s2 gs2))).
  destruct Hscheme as [-> | ->]; [apply head_http|apply head_https]; try done;
    intros w; by apply tail_match.
Qed.

Lemma match_git host O S :
  host <> "" -> all (in_class host_chars) host = true ->
  O <> "" -> mem "/" O = false ->
  S <> "" -> mem "/" S = false ->
  re_match pattern ("git@" +:+ host +:+ ":" +:+ O +:+ "/" +:+ S)
  = Some (<[2 := S]> (<[1 := O]> ∅)).
Proof.
  intros Hh Hhs HO HOs HS HSs.
  unfold re_match. rewrite pattern_split.
  change (run (Cat ?a ?b) ?s ?g ?k)
    with (run a s g (fun w1 s1 gs1 =>
            run b s1 gs1 (fun w2 s2 gs2 => k (w1 +:+ w2) s2 gs2))).
  apply head_git; try done. intros w; by apply tail_match.
Qed.

(** The pieces between the ['/'] of [a://h/O/S] and of [Y/S]. *)
Lemma split_scheme_url a h O S :
  mem "/" h = false -> mem "/" O = false -> mem "/" S = false ->
  split "/" (a +:+ "://" +:+ h +:+ "/" +:+ O +:+ "/" +:+ S)
  = split "/" (a +:+ ":") ++ [""; h; O; S].
Proof.
  intros Hh HO HS.
  replace (a +:+ "://" +:+ h +:+ "/" +:+ O +:+ "/" +:+ S)
    with ((a +:+ ":") +:+ String "/" (String "/" (h +:+ "/" +:+ O +:+ "/" +:+ S)))
    by (by rewrite str_app_assoc).
  rewrite split_app_sep. f_equal.
  change (split "/" (String "/" ?x)) with ("" :: split "/" x). f_equal.
  change (h +:+ "/" +:+ O +:+ "/" +:+ S) with (h +:+ String "/" (O +:+ String "/" S)).
  by rewrite !split_app_sep, !split_free.
Qed.

Lemma split_last_segment Y S :
  mem "/" S = false -> split "/" (Y +:+ "/" +:+ S) = split "/" Y ++ [S].
Proof.
  intros HS. change (Y +:+ "/" +:+ S) with (Y +:+ String "/" S).
  by rewrite split_app_sep, (split_free _ S).
Qed.

(** What the head of [pattern] holds: a ['/'] at its end or none at all,
    and [git@] when it holds none. *)
Lemma url_head_cases w :
  url_head w ->
  (exists scheme h, (scheme = "http" \/ scheme = "https")
                    /\ mem "/" h = false /\ w = scheme +:+ "://" +:+ h +:+ "/")
  \/ (exists h, mem "/" h = false /\ mem ":" h = false /\ w = "git@" +:+ h +:+ ":").
Proof.
  intros [(h & _ & Hh & [-> | ->])|(h & _ & Hh & ->)].
  - left. exists "http", h. split; [by left|done].
  - left. exists "https", h. split; [by right|done].
  - right. exists h. split; [by apply host_chars_no_slash|].
    split; [by apply host_chars_no_colon|done].
Qed.

Lemma split_length_pos sep s : 0 < List.length (split sep s).
Proof.
  pose proof (split_nonempty sep s). destruct (split sep s); [done|simpl; lia].
Qed.

(** A match of [pattern] on [x://host/O/S]: the groups are [O] and [S]. *)
Lemma scheme_url_groups x host O S gs :
  mem "/" host = false -> mem "/" O = false -> mem "/" S = false ->
  re_match pattern (x +:+ "://" +:+ host +:+ "/" +:+ O +:+ "/" +:+ S) = Some gs ->
  gs !! 1 = Some O /\ gs !! 2 = Some S.
Proof.
  intros Hh HO HS H.
  apply match_inv in H as (w & O' & S' & E & Hw & _ & HO' & _ & HS' & -> & ->).
  apply (f_equal (split "/")) in E.
  rewrite split_scheme_url in E by done.
  apply url_head_cases in Hw as [(sch & h & _ & Hhs & ->)|(h & Hhs & _ & ->)].
  - rewrite !str_app_assoc in E. rewrite split_scheme_url in E by done.
    apply app_inj_2 in E as [_ E]; [|done]. by injection E as _ -> ->.
  - rewrite <- !str_app_assoc in E.
    rewrite (str_app_assoc _ "/" S'), split_last_segment in E by done.
    rewrite (split_free _ (_ +:+ O')) in E by (by rewrite !str_mem_app, Hhs, HO').
    apply (f_equal List.length) in E. rewrite !length_app in E. simpl in E.
    pose proof (split_length_pos "/" (x +:+ ":")). lia.
Qed.

(** [x://host/O/S] is not recognised when [x] ends neither with [http]
    nor with [https] and [O] holds no ['@']. *)
Lemma scheme_url_unrecognised scheme host O S :
  mem "/" host = false -> mem "/" O = false -> mem "/" S = false ->
  endswith scheme "http" = false -> endswith scheme "https" = false ->
  mem "@" O = false ->
  re_search pattern (scheme +:+ "://" +:+ host +:+ "/" +:+ O +:+ "/" +:+ S) = None.
Proof.
  intros Hh HO HS Hhttp Hhttps Hat.
  destruct (re_search pattern _) as [gs|] eqn:H; [exfalso|done].
  apply search_inv in H as (pre & w & O' & S' & E & Hw & _ & HO' & _ & HS' & _).
  apply (f_equal (split "/")) in E.
  rewrite split_scheme_url in E by done.
  apply url_head_cases in Hw as [(sch & h & Hsch & Hhs & ->)|(h & Hhs & _ & ->)].
  - rewrite !str_app_assoc in E. rewrite <- (str_app_assoc pre sch) in E.
    rewrite split_scheme_url in E by done.
    apply app_inj_2 in E as [E _]; [|done].
    apply (f_equal (Str.join "/")) in E. rewrite !join_split in E.
    symmetry in E. apply str_app_inv_tail in E.
    assert (endswith scheme sch = true) as Hend by (rewrite <- E; apply endswith_app).
    destruct Hsch as [-> | ->]; congruence.
  - rewrite <- !str_app_assoc in E.
    rewrite (str_app_assoc _ "/" S'), split_last_segment in E by done.
    rewrite !str_app_assoc in E.
    destruct (split_snoc_free "/" pre ("git@" +:+ h +:+ ":" +:+ O'))
      as (l & p & _ & Hsplit); [by rewrite !str_mem_app, Hhs, HO'|].
    rewrite Hsplit, <- List.app_assoc in E.
    change [""; host; O; S] with ([""; host] ++ [O; S]) in E.
    rewrite List.app_assoc in E.
    apply app_inj_2 in E as [_ E]; [|done].
    injection E as E _. rewrite E, !str_mem_app in Hat.
    simpl in Hat. by rewrite !orb_true_r in Hat.
Qed.

(** A match of [pattern] on [xgit@host:O/S] where [x] holds neither
    ['/'] nor ['@']: the groups are [O] and [S]. *)
Lemma scp_url_groups pre2 host O S gs :
  mem "/" pre2 = false -> mem "@" pre2 = false ->
  all (in_class host_chars) host = true ->
  mem "/" O = false -> mem "/" S = false ->
  re_match pattern (pre2 +:+ "git@" +:+ host +:+ ":" +:+ O +:+ "/" +:+ S) = Some gs ->
  gs !! 1 = Some O /\ gs !! 2 = Some S.
Proof.
  intros Hpre Hpreat Hh HO HS H.
  pose proof (host_chars_no_slash _ Hh) as Hhs.
  pose proof (host_chars_no_colon _ Hh) as Hhc.
  apply match_inv in H as (w & O' & S' & E & Hw & _ & HO' & _ & HS' & -> & ->).
  assert (split "/" (pre2 +:+ "git@" +:+ host +:+ ":" +:+ O +:+ "/" +:+ S)
          = [pre2 +:+ "git@" +:+ host +:+ ":" +:+ O; S]) as Hl.
  { rewrite <- !str_app_assoc. rewrite (str_app_assoc _ "/" S), split_last_segment by done.
    rewrite split_free; [by rewrite !str_app_assoc|].
    by rewrite !str_mem_app, Hpre, Hhs, HO. }
  apply url_head_cases in Hw as [(sch & h & _ & Hhs' & ->)|(h & Hhs' & Hhc' & ->)].
  - apply (f_equal (split "/")) in E. rewrite Hl in E.
    rewrite !str_app_assoc in E. rewrite split_scheme_url in E by done.
    apply (f_equal List.length) in E. rewrite !length_app in E. simpl in E.
    pose proof (split_length_pos "/" (sch +:+ ":")). lia.
  - pose proof (f_equal (split "/") E) as E1. rewrite Hl in E1.
    rewrite <- !str_app_assoc in E1.
    rewrite (str_app_assoc _ "/" S'), split_last_segment in E1 by done.
    rewrite split_free in E1 by (by rewrite !str_mem_app, Hhs', HO').
    injection E1 as E1 <-. split; [|done]. f_equal. clear E Hl.
    rewrite !str_app_assoc in E1.
    pose proof (f_equal (split "@") E1) as E2.
    change (pre2 +:+ "git@" +:+ host +:+ ":" +:+ O)
      with (pre2 +:+ "git" +:+ String "@" (host +:+ ":" +:+ O)) in E2.
    change ("git@" +:+ h +:+ ":" +:+ O')
      with ("git" +:+ String "@" (h +:+ ":" +:+ O')) in E2.
    rewrite <- (str_app_assoc pre2 "git"), !split_app_sep in E2.
    rewrite (split_free "@" (pre2 +:+ "git")) in E2 by (by rewrite str_mem_app, Hpreat).
    injection E2 as E2 _.
    apply (str_app_inv_tail pre2 "" "git") in E2. subst pre2.
    rewrite str_app_nil_l in E1. apply (str_app_inv_head _ _ "git@") in E1.
    pose proof (f_equal (split ":") E1) as E3.
    change (host +:+ ":" +:+ O) with (host +:+ String ":" O) in E3.
    change (h +:+ ":" +:+ O') with (h +:+ String ":" O') in E3.
    rewrite !split_app_sep, (split_free ":" host), (split_free ":" h) in E3 by done.
    injection E3 as <- _.
    apply (str_app_inv_head _ _ host) in E1. by injection E1.
Qed.

(** [user@host:O/S] is not recognised when the user does not end with
    [git] and the user, the host and [O] hold neither ['/'] nor ['@']. *)
Lemma scp_url_unrecognised user host O S :
  mem "/" user = false -> mem "/" host = false ->
  mem "/" O = false -> mem "/" S = false ->
  mem "@" user = false -> mem "@" host = false -> mem "@" O = false ->
  endswith user "git" = false ->
  re_search pattern (user +:+ "@" +:+ host +:+ ":" +:+ O +:+ "/" +:+ S) = None.
Proof.
  intros Hu Hh HO HS Hua Hha HOa Hgit.
  destruct (re_search pattern _) as [gs|] eqn:H; [exfalso|done].
  apply search_inv in H as (pre & w & O' & S' & E & Hw & _ & HO' & _ & HS' & _).
  apply (f_equal (split "/")) in E.
  rewrite <- !str_app_assoc in E.
  rewrite (str_app_assoc _ "/" S), split_last_segment in E by done.
  apply url_head_cases in Hw as [(sch & h & _ & Hhs' & ->)|(h & Hhs' & Hhc' & ->)].
  - rewrite split_free in E by (by rewrite !str_mem_app, Hu, Hh, HO).
    rewrite !str_app_assoc in E. rewrite <- (str_app_assoc pre sch) in E.
    rewrite split_scheme_url in E by done.
    apply (f_equal List.length) in E. rewrite !length_app in E. simpl in E.
    pose proof (split_length_pos "/" ((pre +:+ sch) +:+ ":")). lia.
  - rewrite <- !str_app_assoc in E.
    rewrite (str_app_assoc _ "/" S'), split_last_segment in E by done.
    apply app_inj_2 in E as [E _]; [|done].
    apply (f_equal (Str.join "/")) in E. rewrite !join_split in E.
    rewrite !str_app_assoc in E.
    apply (f_equal (split "@")) in E.
    change (user +:+ "@" +:+ host +:+ ":" +:+ O)
      with (user +:+ String "@" (host +:+ ":" +:+ O)) in E.
    rewrite split_app_sep, (split_free "@" user) in E by done.
    rewrite (split_free "@" (host +:+ _)) in E by (by rewrite !str_mem_app, Hha, HOa).
    change (pre +:+ "git@" +:+ h +:+ ":" +:+ O')
      with (pre +:+ "git" +:+ String "@" (h +:+ ":" +:+ O')) in E.
    rewrite <- (str_app_assoc pre "git"), split_app_sep in E.
    pose proof (split_length_pos "@" (pre +:+ "git")) as L1.
    pose proof (split_length_pos "@" (h +:+ ":" +:+ O')) as L2.
    destruct (split "@" (pre +:+ "git")) as [|a [|b l1]] eqn:E1; simpl in L1; [lia| |].
    + injection E as E _. subst a. apply split_single in E1.
      assert (endswith user "git" = true) as Hend by (rewrite <- E1; apply endswith_app).
      congruence.
    + apply (f_equal List.length) in E. simpl in E. rewrite length_app in E. lia.
Qed.

(** *** What the parser returns for the two shapes *)

Lemma ends_with_scheme x :
  endswith x "http" || endswith x "https" = true ->
  exists pre scheme, (scheme = "http" \/ scheme = "https") /\ x = pre +:+ scheme.
Proof.
  intros [H|H]%orb_true_iff; apply endswith_inv in H; eauto.
Qed.

Lemma parse_of_groups url gs O S :
  re_search pattern url = Some gs -> gs !! 1 = Some O -> gs !! 2 = Some S ->
  _parse_repo_url url = (Some O, Some (strip_git S)).
Proof.
  intros H H1 H2. unfold _parse_repo_url, group. by rewrite H, H1, H2.
Qed.

(** [x://host/O/S] where [x] ends with [http] or [https]. *)
Lemma parse_scheme_ends x host O S :
  endswith x "http" || endswith x "https" = true ->
  host <> "" -> mem "/" host = false ->
  O <> "" -> mem "/" O = false ->
  S <> "" -> mem "/" S = false ->
  _parse_repo_url (x +:+ "://" +:+ host +:+ "/" +:+ O +:+ "/" +:+ S)
  = (Some O, Some (strip_git S)).
Proof.
  intros (pre & scheme & Hscheme & ->)%ends_with_scheme Hh Hhs HO HOs HS HSs.
  destruct (re_search_first pattern pre _ _
              (match_http scheme host O S Hscheme Hh Hhs HO HOs HS HSs))
    as (pre1 & pre2 & gs & _ & Hsearch & Hmatch).
  rewrite <- str_app_assoc in Hmatch.
  apply scheme_url_groups in Hmatch as [H1 H2]; [|done..].
  rewrite str_app_assoc. by apply (parse_of_groups _ gs).
Qed.

(** [x://host/O/S] where [x] ends with neither. *)
Lemma parse_scheme_other x host O S :
  endswith x "http" || endswith x "https" = false ->
  mem "/" host = false -> mem "/" O = false -> mem "/" S = false ->
  mem "@" O = false ->
  _parse_repo_url (x +:+ "://" +:+ host +:+ "/" +:+ O +:+ "/" +:+ S) = (None, None).
Proof.
  intros [H1 H2]%orb_false_iff Hh HO HS Hat. unfold _parse_repo_url.
  by rewrite scheme_url_unrecognised.
Qed.

(** [x@host:O/S] where [x] ends with [git] and holds neither ['/'] nor
    ['@']. *)
Lemma parse_user_ends x host O S :
  endswith x "git" = true -> mem "/" x = false -> mem "@" x = false ->
  host <> "" -> all (in_class host_chars) host = true ->
  O <> "" -> mem "/" O = false ->
  S <> "" -> mem "/" S = false ->
  _parse_repo_url (x +:+ "@" +:+ host +:+ ":" +:+ O +:+ "/" +:+ S)
  = (Some O, Some (strip_git S)).
Proof.
  intros Hx Hxs Hxa Hh Hhs HO HOs HS HSs. apply endswith_inv in Hx.
  set (pre := drop_last (length "git") x) in Hx.
  assert (mem "/" pre = false /\ mem "@" pre = false) as [Hps Hpa].
  { rewrite Hx, !str_mem_app in Hxs, Hxa.
    by apply orb_false_iff in Hxs as [-> _], Hxa as [-> _]. }
  rewrite Hx. clearbody pre. clear Hx Hxs Hxa.
  destruct (re_search_first pattern pre _ _ (match_git host O S Hh Hhs HO HOs HS HSs))
    as (pre1 & pre2 & gs & -> & Hsearch & Hmatch).
  rewrite !str_mem_app in Hps, Hpa.
  apply orb_false_iff in Hps as [_ Hps], Hpa as [_ Hpa].
  apply scp_url_groups in Hmatch as [H1 H2]; [|done..].
  rewrite (str_app_assoc (pre1 +:+ pre2) "git").
  exact (parse_of_groups _ gs O S Hsearch H1 H2).
Qed.

(** [x@host:O/S] where [x] does not end with [git]. *)
Lemma parse_user_other x host O S :
  endswith x "git" = false ->
  mem "/" x = false -> mem "/" host = false ->
  mem "/" O = false -> mem "/" S = false ->
  mem "@" x = false -> mem "@" host = false -> mem "@" O = false ->
  _parse_repo_url (x +:+ "@" +:+ host +:+ ":" +:+ O +:+ "/" +:+ S) = (None, None).
Proof.
  intros. unfold _parse_repo_url. by rewrite scp_url_unrecognised.
Qed.

End ShapeFacts.

(** ** The file system *)

Module FsFacts.
Import Server.

Implicit Types (m : gmap (list string) entry) (k : list string).

Lemma lookup_without_below m k k' :
  k `prefix_of` k' -> without k m !! k' = None.
Proof.
  intros Hp. unfold without. apply map_lookup_filter_None. right.
  intros e _ Hn. by apply Hn.
Qed.

Lemma lookup_without_other m k k' :
  ¬ k `prefix_of` k' -> without k m !! k' = m !! k'.
Proof.
  intros Hp. unfold without. destruct (m !! k') as [e|] eqn:E.
  - by apply map_lookup_filter_Some.
  - apply map_lookup_filter_None. by left.
Qed.

Lemma lookup_graft_other m k items k' :
  ¬ k `prefix_of` k' -> graft k items m !! k' = m !! k'.
Proof.
  intros Hp. unfold graft. induction items as [|[rel e] items IH]; simpl; [done|].
  rewrite lookup_insert_ne; [done|]. intros <-. apply Hp. by apply prefix_app_r.
Qed.

End FsFacts.

(** ** The session *)

Module SessionFacts.
Import Server Spec FsFacts.

Lemma steady_refl K w : steady K w w.
Proof. split; try done. by exists []. Qed.

Lemma steady_trans K w1 w2 w3 : steady K w1 w2 -> steady K w2 w3 -> steady K w1 w3.
Proof.
  intros [M1 F1 W1 C1 D1 (e1 & T1 & A1)] [M2 F2 W2 C2 D2 (e2 & T2 & A2)].
  split; try congruence.
  exists (e2 ++ e1). split; [by rewrite T2, T1, app_assoc|].
  apply Forall_app. split; [|done].
  eapply Forall_impl; [exact A2|]. intros ev (? & ? & ?). split_and!; congruence.
Qed.

Lemma steady_weaken (K K' : action -> Prop) w w' :
  (forall a, K a -> K' a) -> steady K w w' -> steady K' w w'.
Proof.
  intros HK [M F W C D (evs & T & A)]. split; try done.
  exists evs. split; [done|]. eapply Forall_impl; [exact A|].
  intros ev (? & ? & ?). auto.
Qed.

Lemma steady_log K a w : K a -> steady K w (log a w).
Proof.
  intros Ha. split; try done.
  exists [Event a (active_repo_details w) (state_file w)]. split; [done|].
  by repeat constructor.
Qed.

Lemma steady_set_fs K m w : steady K w (set_fs m w).
Proof. split; try done. by exists []. Qed.

Lemma rmtree_steady p w : steady is_rmtree w (rmtree p w).2.
Proof.
  unfold rmtree.
  assert (steady is_rmtree w (log (Rmtree p) w)) as H0 by by apply steady_log.
  repeat case_match; simpl; try done;
    (eapply steady_trans; [exact H0|apply steady_set_fs]).
Qed.

Lemma mkdir_steady p w : steady is_mkdir w (mkdir p w).2.
Proof.
  unfold mkdir.
  assert (steady is_mkdir w (log (Mkdir p) w)) as H0 by by apply steady_log.
  repeat case_match; simpl; try done;
    (eapply steady_trans; [exact H0|apply steady_set_fs]).
Qed.

Lemma subprocess_run_steady cmd dir r w :
  steady is_subprocess w (subprocess_run cmd dir r w).2.
Proof. unfold subprocess_run. repeat case_match; simpl; by apply steady_log. Qed.

Lemma git_clone_effect_steady K env target w :
  steady K w (git_clone_effect env target w).
Proof.
  unfold git_clone_effect.
  repeat case_match; try apply steady_refl; apply steady_set_fs.
Qed.

Lemma git_clone_steady env repo_url target w :
  steady is_subprocess w (git_clone env repo_url target w).2.
Proof.
  unfold git_clone.
  pose proof (subprocess_run_steady ["git"; "clone"; repo_url; target] None (git env) w) as H.
  destruct (subprocess_run _ _ _ _) as [r w']. simpl in *.
  eapply steady_trans; [exact H|apply git_clone_effect_steady].
Qed.

Lemma mkdtemp_from_steady dir prefix cands w :
  steady is_mkdir w (mkdtemp_from dir prefix cands w).2.
Proof.
  revert w. induction cands as [|name rest IH]; intros w; simpl; [apply steady_refl|].
  pose proof (mkdir_steady (OsPath.join dir (prefix +:+ name)) w) as H.
  destruct (mkdir _ w) as [[[]|e] w']; simpl in *; [done|].
  destruct e; simpl; try done.
  eapply steady_trans; [exact H|apply IH].
Qed.

Lemma try_rmtree_steady p w : steady is_rmtree w (try_rmtree p w).
Proof. apply rmtree_steady. Qed.

Lemma cleanup_previous_steady w : steady is_rmtree w (cleanup_previous w).
Proof.
  unfold cleanup_previous. repeat case_match; try apply steady_refl.
  apply try_rmtree_steady.
Qed.

Lemma cleanup_temp_steady t w : steady is_rmtree w (cleanup_temp t w).
Proof.
  unfold cleanup_temp. repeat case_match; try apply steady_refl.
  apply try_rmtree_steady.
Qed.

Lemma clone_except_steady repo_url t e w :
  steady is_rmtree w (clone_except repo_url t e w).2.
Proof.
  unfold clone_except. destruct e; simpl; try apply cleanup_temp_steady.
  apply steady_refl.
Qed.

Lemma extends_trans Q w1 w2 w3 : extends Q w1 w2 -> extends Q w2 w3 -> extends Q w1 w3.
Proof.
  intros (e1 & T1 & A1) (e2 & T2 & A2). exists (e2 ++ e1).
  split; [by rewrite T2, T1, app_assoc|]. by apply Forall_app.
Qed.

Lemma extends_since Q w w' : extends Q w w' -> Forall Q (since w w').
Proof.
  intros (evs & T & A). unfold since. rewrite T, length_app.
  replace (length evs + length (trace w) - length (trace w)) with (length evs) by lia.
  by rewrite take_app_length.
Qed.

Lemma steady_extends K Q w w' :
  steady K w w' ->
  (forall ev, K (act ev) -> in_memory ev = active_repo_details w ->
              persisted ev = state_file w -> Q ev) ->
  extends Q w w'.
Proof.
  intros [_ _ _ _ _ (evs & T & A)] HQ. exists evs. split; [done|].
  eapply Forall_impl; [exact A|]. intros ev (? & ? & ?). by apply HQ.
Qed.

Lemma extends_set_details Q d w w' :
  extends Q (set_details d w) w' -> extends Q w w'.
Proof. done. Qed.

Lemma save_state_extends (Q : event -> Prop) w :
  (forall m f, Q (Event OpenStateFile m f)) -> extends Q w (_save_state w).
Proof.
  intros HQ. unfold _save_state.
  exists [Event OpenStateFile (active_repo_details w) (state_file w)].
  split; [by case_match|]. by repeat constructor.
Qed.

Lemma save_state_memory w : active_repo_details (_save_state w) = active_repo_details w.
Proof. unfold _save_state. by case_match. Qed.

Lemma save_state_file w :
  state_file (_save_state w) = written w (active_repo_details w).
Proof. unfold _save_state, written. simpl. by case_match. Qed.

Lemma save_state_fs w : fs (_save_state w) = fs w.
Proof. unfold _save_state. by case_match. Qed.

Lemma save_state_cwd w : cwd (_save_state w) = cwd w.
Proof. unfold _save_state. by case_match. Qed.

Lemma save_state_denied w : denied (_save_state w) = denied w.
Proof. unfold _save_state. by case_match. Qed.

Lemma save_state_writes w : state_file_writes (_save_state w) = state_file_writes w.
Proof. unfold _save_state. by case_match. Qed.

Lemma cleared_memory w : active_repo_details (cleared w) = no_details.
Proof. unfold cleared. by rewrite save_state_memory. Qed.

Lemma cleared_file w : state_file (cleared w) = written w no_details.
Proof.
  unfold cleared. rewrite save_state_file. unfold written. simpl.
  destruct (cleanup_previous_steady w) as [_ -> -> _ _ _]. done.
Qed.

Lemma cleared_extends f w : extends (clone_call_ok f) w (cleared w).
Proof.
  unfold cleared. eapply extends_trans.
  - eapply steady_extends; [apply cleanup_previous_steady|].
    intros ev Hk _ _ [Hm|Hs]; destruct (act ev); done.
  - eapply extends_set_details, save_state_extends. intros m f' [[]|[]].
Qed.

Lemma clone_repository_unfold env repo_url w :
  clone_repository env repo_url w =
  match mkdtemp env "mcp_clone_" (cleared w) with
  | (Raises e, w) => clone_except repo_url None e w
  | (Returns temp_dir, w) =>
      match git_clone env repo_url temp_dir w with
      | (Raises e, w) => clone_except repo_url (Some temp_dir) e w
      | (Returns result, w) =>
          if (returncode result =? 0)%Z then
            let '(owner, name) := _parse_repo_url repo_url in
            let w :=
              _save_state
                (set_details (Details (Some temp_dir) (Some repo_url) owner name) w) in
            (cloned_msg repo_url temp_dir owner name, w)
          else if Str.truthy (Some temp_dir) && os_path_exists w temp_dir then
            match rmtree temp_dir w with
            | (Raises e, w) => clone_except repo_url (Some temp_dir) e w
            | (Returns _, w) => ("Error cloning repository: " +:+ stderr result, w)
            end
          else ("Error cloning repository: " +:+ stderr result, w)
      end
  end.
Proof. reflexivity. Qed.

(** Every call a clone makes to create a directory or to run a child
    process sees the session reset. *)
Lemma clone_trace env repo_url w :
  extends (clone_call_ok (written w no_details)) w (clone_repository env repo_url w).2.
Proof.
  set (f := written w no_details).
  assert (forall K w', steady K (cleared w) w' -> extends (clone_call_ok f) (cleared w) w')
    as Hsteady.
  { intros K w' H. eapply steady_extends; [exact H|].
    intros ev _ Hm Hf _. by rewrite Hm, Hf, cleared_memory, cleared_file. }
  eapply extends_trans; [apply cleared_extends|].
  rewrite clone_repository_unfold. unfold mkdtemp.
  pose proof (mkdtemp_from_steady (tempdir env) "mcp_clone_" (names env) (cleared w)) as H1.
  destruct (mkdtemp_from _ _ _ _) as [[t|e] w3]; simpl in H1.
  2:{ eapply (Hsteady (fun _ => True)), steady_trans;
        [eapply steady_weaken; [|exact H1]; done|].
      eapply steady_weaken; [|apply clone_except_steady]; done. }
  pose proof (git_clone_steady env repo_url t w3) as H2.
  destruct (git_clone _ _ _ _) as [[result|e] w4]; simpl in H2.
  2:{ eapply (Hsteady (fun _ => True)), steady_trans;
        [eapply steady_weaken; [|exact H1]; done|].
      eapply steady_trans; [eapply steady_weaken; [|exact H2]; done|].
      eapply steady_weaken; [|apply clone_except_steady]; done. }
  assert (steady (fun _ => True) (cleared w) w4) as H4.
  { eapply steady_trans; eapply steady_weaken; [|exact H1| |exact H2]; done. }
  destruct (returncode result =? 0)%Z.
  - destruct (_parse_repo_url repo_url) as [o n]. simpl.
    eapply extends_trans; [by eapply Hsteady|].
    eapply extends_set_details, save_state_extends. intros m f' [[]|[]].
  - destruct (Str.truthy (Some t) && os_path_exists w4 t); [|by eapply Hsteady].
    pose proof (rmtree_steady t w4) as H5.
    destruct (rmtree t w4) as [[[]|e] w5]; simpl in H5.
    + eapply (Hsteady (fun _ => True)), steady_trans; [exact H4|].
      eapply steady_weaken; [|exact H5]; done.
    + eapply (Hsteady (fun _ => True)), steady_trans; [exact H4|].
      eapply steady_trans; [eapply steady_weaken; [|exact H5]; done|].
      eapply steady_weaken; [|apply clone_except_steady]; done.
Qed.

(** *** What cloning does to the file system *)

Lemma touches_only_trans k w1 w2 w3 :
  touches_only k w1 w2 -> touches_only k w2 w3 -> touches_only k w1 w3.
Proof. intros H1 H2 k' Hk. by rewrite H2, H1. Qed.

Lemma touches_only_same_fs k w w' : fs w' = fs w -> touches_only k w w'.
Proof. intros H k' _. by rewrite H. Qed.

Lemma where_is_cwd w w' p : cwd w' = cwd w -> where_is w' p = where_is w p.
Proof. unfold where_is. by intros ->. Qed.

Lemma entry_at_fs w w' k : fs w' = fs w -> entry_at w' k = entry_at w k.
Proof. unfold entry_at. by intros ->. Qed.

Lemma rmtree_spec p w :
  match (rmtree p w).1 with
  | Returns _ =>
      p <> "" /\ where_is w p <> [] /\ entry_at w (where_is w p) = Some Dir
      /\ holds_denied w (where_is w p) = false
      /\ fs (rmtree p w).2 = without (where_is w p) (fs w)
  | Raises _ => fs (rmtree p w).2 = fs w
  end.
Proof.
  unfold rmtree. destruct (String.eqb_spec p ""); [done|].
  change (where_is (log (Rmtree p) w) p) with (where_is w p).
  change (entry_at (log (Rmtree p) w) (where_is w p)) with (entry_at w (where_is w p)).
  change (holds_denied (log (Rmtree p) w)) with (holds_denied w).
  destruct (where_is w p) as [|c k] eqn:Ek; [done|].
  simpl. destruct (fs w !! (c :: k)) as [[|?]|] eqn:Ee; simpl; try done.
  destruct (holds_denied w (c :: k)) eqn:Ed; simpl; done.
Qed.

Lemma rmtree_touches p w : touches_only (where_is w p) w (rmtree p w).2.
Proof.
  pose proof (rmtree_spec p w) as H.
  destruct (rmtree p w).1.
  - destruct H as (_ & _ & _ & _ & Hf). intros k' Hk.
    rewrite Hf. by apply lookup_without_other.
  - by apply touches_only_same_fs.
Qed.

Lemma mkdir_spec p w :
  match (mkdir p w).1 with
  | Returns _ =>
      p <> "" /\ where_is w p <> [] /\ entry_at w (where_is w p) = None
      /\ fs (mkdir p w).2 = <[where_is w p := Dir]> (fs w)
  | Raises _ => fs (mkdir p w).2 = fs w
  end.
Proof.
  unfold mkdir. destruct (String.eqb_spec p ""); [done|].
  change (where_is (log (Mkdir p) w) p) with (where_is w p).
  change (entry_at (log (Mkdir p) w)) with (entry_at w).
  change (is_denied (log (Mkdir p) w)) with (is_denied w).
  destruct (entry_at w (where_is w p)) as [?|] eqn:Ee; [done|].
  destruct (entry_at w (removelast _)) as [[|?]|]; try done.
  destruct (is_denied w _); [done|]. simpl. split_and!; try done.
  intros Hk. by rewrite Hk in Ee.
Qed.

Lemma mkdtemp_from_spec dir prefix cands w :
  match (mkdtemp_from dir prefix cands w).1 with
  | Returns t =>
      exists name,
        name ∈ cands /\ t = OsPath.join dir (prefix +:+ name)
        /\ t <> "" /\ where_is w t <> [] /\ entry_at w (where_is w t) = None
        /\ fs (mkdtemp_from dir prefix cands w).2 = <[where_is w t := Dir]> (fs w)
  | Raises _ => fs (mkdtemp_from dir prefix cands w).2 = fs w
  end.
Proof.
  revert w. induction cands as [|name rest IH]; intros w; simpl; [done|].
  pose proof (mkdir_spec (OsPath.join dir (prefix +:+ name)) w) as H.
  pose proof (mkdir_steady (OsPath.join dir (prefix +:+ name)) w) as Hs.
  destruct (mkdir _ w) as [[[]|e] w1]; simpl in *.
  - destruct H as (? & ? & ? & ?). exists name. split_and!; try done. by left.
  - specialize (IH w1).
    assert (forall q, where_is w1 q = where_is w q) as Hw
      by (intros; apply where_is_cwd, (steady_cwd _ _ _ Hs)).
    destruct e; simpl; try done.
    destruct (mkdtemp_from dir prefix rest w1) as [[t|e'] w2]; simpl in *.
    + destruct IH as (n & Hn & -> & Hne & Hk & He & Hf). exists n.
      rewrite Hw in Hk, He, Hf. rewrite (entry_at_fs _ _ _ H) in He.
      split_and!; try done; [by right|by rewrite Hf, H].
    + by rewrite IH.
Qed.

Lemma git_clone_touches env repo_url t w :
  touches_only (where_is w t) w (git_clone env repo_url t w).2.
Proof.
  unfold git_clone.
  pose proof (subprocess_run_steady ["git"; "clone"; repo_url; t] None (git env) w) as Hs.
  assert (fs (subprocess_run ["git"; "clone"; repo_url; t] None (git env) w).2 = fs w)
    as Hf by (unfold subprocess_run; by repeat case_match).
  destruct (subprocess_run _ _ _ _) as [r w1]. simpl in *.
  unfold git_clone_effect. rewrite (where_is_cwd w w1 t (steady_cwd _ _ _ Hs)).
  intros k' Hk. repeat case_match; simpl; rewrite ?Hf; try done.
  - by rewrite lookup_graft_other.
  - by rewrite lookup_without_other.
Qed.

Lemma cleanup_temp_touches t w :
  touches_only (where_is w t) w (cleanup_temp (Some t) w).
Proof.
  unfold cleanup_temp. case_match; [apply rmtree_touches|done].
Qed.

Lemma clone_except_touches repo_url t e w :
  touches_only (where_is w t) w (clone_except repo_url (Some t) e w).2.
Proof. destruct e; simpl; try apply cleanup_temp_touches; done. Qed.

Lemma clone_except_None_fs repo_url e w :
  fs (clone_except repo_url None e w).2 = fs w.
Proof. by destruct e. Qed.

Lemma cleared_cwd w : cwd (cleared w) = cwd w.
Proof.
  unfold cleared. rewrite save_state_cwd. simpl.
  apply (steady_cwd _ _ _ (cleanup_previous_steady w)).
Qed.

Lemma cleared_writes w : state_file_writes (cleared w) = state_file_writes w.
Proof.
  unfold cleared. rewrite save_state_writes. simpl.
  apply (steady_writes _ _ _ (cleanup_previous_steady w)).
Qed.

Lemma cleared_fs w : fs (cleared w) = fs (cleanup_previous w).
Proof. unfold cleared. by rewrite save_state_fs. Qed.

Lemma touches_only_insert k e w w' :
  fs w' = <[k := e]> (fs w) -> touches_only k w w'.
Proof.
  intros H k' Hk. rewrite H, lookup_insert_ne; [done|]. by intros <-.
Qed.

(** The ways a call of [clone_repository] ends: with the session as it
    was cleared, or, after a clone that succeeded, with a new session
    that is saved. Outside the temporary directory the files are as they
    were when the session was cleared. *)
Lemma clone_cases env repo_url w :
  let r := clone_repository env repo_url w in
  match (mkdtemp env "mcp_clone_" (cleared w)).1 with
  | Raises _ => steady (fun _ => True) (cleared w) r.2 /\ fs r.2 = fs (cleared w)
  | Returns t =>
      (steady (fun _ => True) (cleared w) r.2
       /\ touches_only (where_is w t) (cleared w) r.2)
      \/ (exists w4 o n,
            steady (fun _ => True) (cleared w) w4
            /\ touches_only (where_is w t) (cleared w) w4
            /\ _parse_repo_url repo_url = (o, n)
            /\ r = (cloned_msg repo_url t o n,
                    _save_state
                      (set_details (Details (Some t) (Some repo_url) o n) w4)))
  end.
Proof.
  intros r. subst r. rewrite clone_repository_unfold. unfold mkdtemp.
  pose proof (mkdtemp_from_steady (tempdir env) "mcp_clone_" (names env) (cleared w)) as H1.
  pose proof (mkdtemp_from_spec (tempdir env) "mcp_clone_" (names env) (cleared w)) as S1.
  destruct (mkdtemp_from _ _ _ _) as [[t|e] w3]; simpl in H1, S1; simpl fst.
  2:{ split.
      - eapply steady_trans; [eapply steady_weaken; [|exact H1]; done|].
        eapply steady_weaken; [|apply clone_except_steady]; done.
      - by rewrite clone_except_None_fs. }
  destruct S1 as (name & _ & _ & _ & _ & _ & Hf3).
  rewrite (where_is_cwd w (cleared w)) in Hf3 by apply cleared_cwd.
  assert (touches_only (where_is w t) (cleared w) w3) as T3
    by by eapply touches_only_insert.
  assert (forall w', cwd w' = cwd w -> where_is w' t = where_is w t) as Hw
    by (intros; by apply where_is_cwd).
  assert (cwd w3 = cwd w) as C3
    by (rewrite (steady_cwd _ _ _ H1); apply cleared_cwd).
  pose proof (git_clone_steady env repo_url t w3) as H2.
  pose proof (git_clone_touches env repo_url t w3) as T2. rewrite (Hw _ C3) in T2.
  destruct (git_clone _ _ _ _) as [[result|e] w4]; simpl in H2, T2.
  2:{ left. pose proof (clone_except_touches repo_url t e w4) as T5.
      rewrite Hw in T5 by (rewrite (steady_cwd _ _ _ H2); exact C3).
      split.
      - eapply steady_trans; [eapply steady_weaken; [|exact H1]; done|].
        eapply steady_trans; [eapply steady_weaken; [|exact H2]; done|].
        eapply steady_weaken; [|apply clone_except_steady]; done.
      - eauto using touches_only_trans. }
  assert (steady (fun _ => True) (cleared w) w4) as H4.
  { eapply steady_trans; eapply steady_weaken; [|exact H1| |exact H2]; done. }
  assert (touches_only (where_is w t) (cleared w) w4) as T4
    by eauto using touches_only_trans.
  assert (cwd w4 = cwd w) as C4
    by (rewrite (steady_cwd _ _ _ H2); exact C3).
  destruct (returncode result =? 0)%Z.
  - right. destruct (_parse_repo_url repo_url) as [o n]. by exists w4, o, n.
  - left. destruct (Str.truthy (Some t) && os_path_exists w4 t); [|done].
    pose proof (rmtree_steady t w4) as H5.
    pose proof (rmtree_touches t w4) as T5. rewrite (Hw _ C4) in T5.
    destruct (rmtree t w4) as [[[]|e] w5]; simpl in H5, T5.
    + split; [|eauto using touches_only_trans].
      eapply steady_trans; [exact H4|]. eapply steady_weaken; [|exact H5]; done.
    + pose proof (clone_except_touches repo_url t e w5) as T6.
      rewrite Hw in T6 by (rewrite (steady_cwd _ _ _ H5); exact C4).
      split; [|eauto using touches_only_trans].
      eapply steady_trans; [exact H4|].
      eapply steady_trans; [eapply steady_weaken; [|exact H5]; done|].
      eapply steady_weaken; [|apply clone_except_steady]; done.
Qed.

Lemma join_nonempty a b : b <> "" -> OsPath.join a b <> "".
Proof.
  intros Hb. unfold OsPath.join. repeat case_match; try done.
  - destruct a; [done|]. discriminate.
  - destruct a; discriminate.
Qed.

(** The session in memory after a call of [clone_repository]: empty, or
    the one of the clone that succeeded. *)
Lemma clone_memory env repo_url w :
  let r := clone_repository env repo_url w in
  active_repo_details r.2 = no_details
  \/ exists t name,
       name ∈ names env
       /\ t = OsPath.join (tempdir env) ("mcp_clone_" +:+ name)
       /\ active_repo_details r.2
          = Details (Some t) (Some repo_url)
                    (_parse_repo_url repo_url).1 (_parse_repo_url repo_url).2.
Proof.
  intros r. pose proof (clone_cases env repo_url w) as H. fold r in H.
  pose proof (mkdtemp_from_spec (tempdir env) "mcp_clone_" (names env) (cleared w)) as S1.
  fold (mkdtemp env "mcp_clone_" (cleared w)) in S1.
  destruct (mkdtemp env "mcp_clone_" (cleared w)).1 as [t|e].
  - destruct H as [[H _]|(w4 & o & n & H4 & _ & Hp & Hr)].
    + left. by rewrite (steady_memory _ _ _ H), cleared_memory.
    + right. destruct S1 as (name & Hn & Ht & _). exists t, name.
      rewrite Hr, Hp. simpl. by rewrite save_state_memory.
  - left. destruct H as [H _]. by rewrite (steady_memory _ _ _ H), cleared_memory.
Qed.

(** The state file after a call of [clone_repository]: the session in
    memory when the file can be written, and what it was when not. *)
Lemma clone_file env repo_url w :
  let r := clone_repository env repo_url w in
  state_file r.2 = written w (active_repo_details r.2).
Proof.
  intros r. pose proof (clone_cases env repo_url w) as H. fold r in H.
  assert (forall w', steady (fun _ => True) (cleared w) w' ->
            state_file w' = written w (active_repo_details w')) as Hfail.
  { intros w' Hs. rewrite (steady_file _ _ _ Hs), (steady_memory _ _ _ Hs).
    by rewrite cleared_file, cleared_memory. }
  simpl in H.
  destruct (mkdtemp env "mcp_clone_" (cleared w)).1 as [t|e]; [|apply Hfail, H].
  destruct H as [[H _]|(w4 & o & n & H4 & _ & Hp & Hr)]; [by apply Hfail|].
  rewrite Hr. simpl. rewrite save_state_file, save_state_memory. simpl.
  unfold written. simpl.
  rewrite (steady_writes _ _ _ H4), cleared_writes.
  rewrite (steady_file _ _ _ H4), cleared_file. unfold written.
  by destruct (state_file_writes w).
Qed.

Lemma clone_cwd env repo_url w : cwd (clone_repository env repo_url w).2 = cwd w.
Proof.
  pose proof (clone_cases env repo_url w) as H. simpl in H.
  destruct (mkdtemp env "mcp_clone_" (cleared w)).1 as [t|e].
  - destruct H as [[H _]|(w4 & o & n & H4 & _ & Hp & Hr)].
    + by rewrite (steady_cwd _ _ _ H), cleared_cwd.
    + rewrite Hr. simpl. rewrite save_state_cwd. simpl.
      by rewrite (steady_cwd _ _ _ H4), cleared_cwd.
  - destruct H as [H _]. by rewrite (steady_cwd _ _ _ H), cleared_cwd.
Qed.

(** A place that is neither a temporary directory a clone may make nor
    below one holds after the call what it held when the session was
    cleared. *)
Lemma clone_elsewhere env repo_url w k :
  (forall name, name ∈ names env ->
     ¬ where_is w (OsPath.join (tempdir env) ("mcp_clone_" +:+ name)) `prefix_of` k) ->
  fs (clone_repository env repo_url w).2 !! k = fs (cleanup_previous w) !! k.
Proof.
  intros Hk. pose proof (clone_cases env repo_url w) as H. simpl in H.
  pose proof (mkdtemp_from_spec (tempdir env) "mcp_clone_" (names env) (cleared w)) as S1.
  fold (mkdtemp env "mcp_clone_" (cleared w)) in S1.
  rewrite <- cleared_fs.
  destruct (mkdtemp env "mcp_clone_" (cleared w)).1 as [t|e].
  - destruct S1 as (name & Hn & -> & _). specialize (Hk name Hn).
    destruct H as [[_ H]|(w4 & o & n & _ & H4 & Hp & Hr)].
    + by apply H.
    + rewrite Hr. simpl. rewrite save_state_fs. simpl. by apply H4.
  - destruct H as [_ H]. by rewrite H.
Qed.

(** *** The tools that do not set the session *)

Lemma makedirs_below_memory k rest w :
  active_repo_details (makedirs_below k rest w).2 = active_repo_details w.
Proof.
  revert k w. induction rest as [|c rest IH]; intros k w; simpl; [done|].
  repeat case_match; simpl; try done; by rewrite IH.
Qed.

Lemma makedirs_memory p w :
  active_repo_details (makedirs p w).2 = active_repo_details w.
Proof.
  unfold makedirs. case_match; [done|]. by rewrite makedirs_below_memory.
Qed.

Lemma open_write_memory p content w :
  active_repo_details (open_write p content w).2 = active_repo_details w.
Proof. unfold open_write. by repeat case_match. Qed.

Lemma invoke_gated_memory c w :
  gated c = true -> active_repo_details (invoke c w).2 = active_repo_details w.
Proof.
  destruct c; simpl; [done|..]; intros _.
  - unfold create_git_branch, subprocess_run.
    repeat (case_match; simplify_eq/=); done.
  - unfold git_commit_changes, subprocess_run.
    repeat (case_match; simplify_eq/=); done.
  - unfold git_push_branch, subprocess_run.
    repeat (case_match; simplify_eq/=); done.
  - unfold create_github_pr. repeat (case_match; simplify_eq/=); done.
  - unfold read_file_in_repo, open_read. repeat (case_match; simplify_eq/=); done.
  - unfold write_file_in_repo.
    destruct (negb (Str.truthy (path (active_repo_details w)))); [done|].
    set (parent := OsPath.dirname _).
    destruct (Str.truthy (Some parent)).
    + pose proof (makedirs_memory parent w) as Hm.
      destruct (makedirs parent w) as [[[]|e] w1]; simpl in *; [|done].
      pose proof (open_write_memory
                    (OsPath.join (default "" (path (active_repo_details w)))
                                 relative_file_path) content w1) as Ho.
      destruct (open_write _ _ w1) as [[[]|e] w2]; simpl in *; congruence.
    + pose proof (open_write_memory
                    (OsPath.join (default "" (path (active_repo_details w)))
                                 relative_file_path) content w) as Ho.
      destruct (open_write _ _ w) as [[[]|e] w2]; simpl in *; congruence.
  - unfold list_files_in_repo. repeat (case_match; simplify_eq/=); done.
Qed.

Lemma load_state_consistent w :
  consistent (active_repo_details w) -> consistent (active_repo_details (_load_state w)).
Proof.
  intros H. unfold _load_state. repeat case_match; try done.
  left. simpl. by destruct (Str.truthy (path _)).
Qed.

Lemma clone_consistent env repo_url w :
  consistent (active_repo_details (clone_repository env repo_url w).2).
Proof.
  destruct (clone_memory env repo_url w) as [->|(t & name & _ & -> & ->)]; [by right|].
  left. simpl. apply negb_true_iff, String.eqb_neq, join_nonempty. discriminate.
Qed.

(** The session of a running server has a path or is empty. *)
Lemma reachable_consistent w : reachable w -> consistent (active_repo_details w).
Proof.
  induction 1 as [tok disk w Hs|c w Hr IH|w w' Hr IH Hm].
  - unfold startup in Hs. destruct (negb (Str.truthy tok)); [done|].
    injection Hs as <-. apply load_state_consistent. by right.
  - destruct (gated c) eqn:Hg.
    + by rewrite invoke_gated_memory.
    + destruct c; try done. apply clone_consistent.
  - by rewrite Hm.
Qed.

(** *** The files the file tools open *)

Lemma since_eq w w' evs : trace w' = evs ++ trace w -> since w w' = evs.
Proof.
  intros T. unfold since. rewrite T, length_app.
  replace (length evs + length (trace w) - length (trace w)) with (length evs) by lia.
  by rewrite take_app_length.
Qed.

Lemma makedirs_below_trace k rest w : trace (makedirs_below k rest w).2 = trace w.
Proof.
  revert k w. induction rest as [|c rest IH]; intros k w; simpl; [done|].
  repeat case_match; simpl; try done; by rewrite IH.
Qed.

Lemma read_file_opened rel w :
  opened (since w (read_file_in_repo rel w).2) = []
  \/ opened (since w (read_file_in_repo rel w).2)
     = [OsPath.join (default "" (path (active_repo_details w))) rel].
Proof.
  unfold read_file_in_repo.
  destruct (negb (Str.truthy (path (active_repo_details w))));
    [left; simpl; by rewrite (since_eq w w [])|].
  destruct (negb (os_path_exists w _)); [left; simpl; by rewrite (since_eq w w [])|].
  destruct (negb (os_path_isfile w _)); [left; simpl; by rewrite (since_eq w w [])|].
  right. set (full := OsPath.join _ rel).
  assert (trace (open_read full w).2
          = [Event (OpenRead full) (active_repo_details w) (state_file w)] ++ trace w) as T
    by (unfold open_read; by repeat case_match).
  destruct (open_read full w) as [[content|e] w1]; simpl in *;
    by rewrite (since_eq w w1 [Event (OpenRead full) (active_repo_details w)
                                 (state_file w)] T).
Qed.

Lemma write_file_opened rel content w :
  opened (since w (write_file_in_repo rel content w).2) = []
  \/ opened (since w (write_file_in_repo rel content w).2)
     = [OsPath.join (default "" (path (active_repo_details w))) rel].
Proof.
  unfold write_file_in_repo.
  destruct (negb (Str.truthy (path (active_repo_details w))));
    [left; simpl; by rewrite (since_eq w w [])|].
  set (full := OsPath.join _ rel). set (parent := OsPath.dirname full).
  assert (forall w1 evs,
            trace w1 = evs ++ trace w -> opened evs = [] ->
            opened (since w match open_write full content w1 with
                            | (Raises e, w2) =>
                                ("Error writing file " +:+ full +:+ " in active repo: "
                                 +:+ str_of e, w2)
                            | (Returns _, w2) =>
                                ("Successfully wrote content to " +:+ full, w2)
                            end.2) = [full]) as Hopen.
  { intros w1 evs T Hevs.
    assert (trace (open_write full content w1).2
            = (Event (OpenWrite full) (active_repo_details w1) (state_file w1) :: evs)
              ++ trace w) as T'
      by (unfold open_write; repeat case_match; simpl; by rewrite T).
    destruct (open_write full content w1) as [[[]|e] w2]; simpl in *;
      rewrite (since_eq w w2 (Event (OpenWrite full) (active_repo_details w1)
                                (state_file w1) :: evs) T'); simpl; by rewrite Hevs. }
  destruct (Str.truthy (Some parent)).
  - assert (trace (makedirs parent w).2
            = [Event (Makedirs parent) (active_repo_details w) (state_file w)] ++ trace w)
      as T.
    { unfold makedirs. case_match; [done|]. by rewrite makedirs_below_trace. }
    destruct (makedirs parent w) as [[[]|e] w1]; simpl in *.
    + right. by apply (Hopen w1 [Event (Makedirs parent) (active_repo_details w)
                                   (state_file w)] T).
    + left. by rewrite (since_eq w w1 [Event (Makedirs parent) (active_repo_details w)
                                        (state_file w)] T).
  - right. by apply (Hopen w []).
Qed.

Lemma files_below_are_files w k : Forall (is_file_below w k) (files_below w k).
Proof.
  unfold files_below. destruct (entry_at w k) as [[|?]|]; try by constructor.
  apply Forall_forall. intros nm Hin.
  apply list_elem_of_omap in Hin as ([key e] & Hkv & Hsome). simpl in Hsome.
  apply elem_of_map_to_list in Hkv.
  destruct e as [|content]; [done|]. case_bool_decide; [|done].
  injection Hsome as <-. by exists key, content.
Qed.

(** *** A clone that succeeds *)

Lemma lookup_graft_root m k items :
  Forall (fun item : list string * entry => item.1 <> []) items ->
  graft k items m !! k = m !! k.
Proof.
  unfold graft. induction 1 as [|[rel e] items Hrel _ IH]; simpl; [done|].
  rewrite lookup_insert_ne; [done|]. simpl in Hrel. intros Hk. apply Hrel.
  apply (app_inv_head k). by rewrite app_nil_r.
Qed.

(** A clone for which a temporary directory [t] is made and git ends
    with exit status 0. *)
Lemma clone_success env repo_url w t out err txt :
  (mkdtemp env "mcp_clone_" (cleared w)).1 = Returns t ->
  git env = Exit 0 out err txt ->
  exists w4,
    clone_repository env repo_url w
    = (cloned_msg repo_url t (_parse_repo_url repo_url).1 (_parse_repo_url repo_url).2,
       _save_state
         (set_details (Details (Some t) (Some repo_url) (_parse_repo_url repo_url).1
                               (_parse_repo_url repo_url).2) w4))
    /\ steady (fun _ => True) (cleared w) w4
    /\ t <> "" /\ where_is w t <> []
    /\ entry_at (cleared w) (where_is w t) = None
    /\ fs w4 = graft (where_is w t) (checkout env)
                 (<[where_is w t := Dir]> (fs (cleared w))).
Proof.
  intros Hmk Hgit. rewrite clone_repository_unfold.
  pose proof (mkdtemp_from_spec (tempdir env) "mcp_clone_" (names env) (cleared w)) as S1.
  pose proof (mkdtemp_from_steady (tempdir env) "mcp_clone_" (names env) (cleared w)) as H1.
  fold (mkdtemp env "mcp_clone_" (cleared w)) in S1, H1.
  destruct (mkdtemp env "mcp_clone_" (cleared w)) as [r1 w3]. simpl in Hmk. subst r1.
  simpl in S1, H1. destruct S1 as (nm & _ & _ & Hne & Hk & He & Hf).
  rewrite (where_is_cwd w (cleared w) t (cleared_cwd w)) in Hk, He, Hf.
  pose proof (git_clone_steady env repo_url t w3) as H2.
  unfold git_clone, subprocess_run in *. rewrite Hgit in *. simpl in *.
  unfold git_clone_effect in *. rewrite Hgit in *. simpl in *.
  destruct (_parse_repo_url repo_url) as [o n]. simpl.
  eexists. split; [reflexivity|]. split_and!; try done.
  - eapply steady_trans; eapply steady_weaken; [|exact H1| |exact H2]; done.
  - simpl. change (where_is (log ?a w3) t) with (where_is w3 t).
    rewrite (where_is_cwd (cleared w) w3 t (steady_cwd _ _ _ H1)).
    rewrite (where_is_cwd w (cleared w) t (cleared_cwd w)). by rewrite Hf.
Qed.

(** After a clone that succeeds for a URL parsed as an owner and the empty
    name, the session holds both and [create_github_pr] stops at its
    first test. *)
Lemma empty_name_recorded repo_url o :
  o <> "" -> _parse_repo_url repo_url = (Some o, Some "") ->
  records_empty_name repo_url o.
Proof.
  intros Ho E env w t out err txt Hmk Hgit.
  destruct (clone_success env repo_url w t out err txt Hmk Hgit)
    as (w4 & Hc & _ & Hne & _).
  assert (active_repo_details (clone_repository env repo_url w).2
          = Details (Some t) (Some repo_url) (Some o) (Some "")) as Hd.
  { rewrite Hc. simpl. by rewrite save_state_memory, E. }
  split; [done|]. intros api title body base_branch head_branch.
  unfold create_github_pr. rewrite Hd. simpl.
  apply String.eqb_neq in Ho as ->. by apply String.eqb_neq in Hne as ->.
Qed.

End SessionFacts.

(** * The claims *)

Import Str OsPath Re Server Spec Scenario.
Import StrFacts ReFacts ParseFacts PathFacts ShapeFacts FsFacts SessionFacts.

(** ** Cloning *)

(** C1, amended. In every call of [clone_repository], when the temporary
    directory is made and when git is run, the session in memory is
    empty, and the state file holds what saving the empty session leaves
    in it: the empty record when the file can be written, what it held
    before the call when the write is refused, and a text that cannot be
    loaded when the write is cut short. *)
Theorem clone_resets_before_cloning env repo_url w ev :
  In ev (since w (clone_repository env repo_url w).2) ->
  is_mkdir (act ev) \/ is_subprocess (act ev) ->
  in_memory ev = no_details
  /\ persisted ev = written w no_details.
Proof.
  intros Hin Hk.
  pose proof (extends_since _ _ _ (clone_trace env repo_url w)) as H.
  rewrite Forall_forall in H. apply H; [|done]. by apply list_elem_of_In.
Qed.

Lemma clone_resets_before_cloning_witness :
  In (Event git_clone_call no_details (Some (Json no_details)))
     (since running (clone_repository git_works new_url running).2)
  /\ (is_mkdir git_clone_call \/ is_subprocess git_clone_call)
  /\ in_memory (Event git_clone_call no_details (Some (Json no_details))) = no_details
  /\ persisted (Event git_clone_call no_details (Some (Json no_details)))
     = Some (Json no_details).
Proof.
  assert (In (Event git_clone_call no_details (Some (Json no_details)))
             (since running (clone_repository git_works new_url running).2)) as Hin.
  { vm_compute. right. left. reflexivity. }
  assert (is_mkdir git_clone_call \/ is_subprocess git_clone_call) as Hk.
  { right. exact I. }
  split; [exact Hin|]. split; [exact Hk|].
  exact (clone_resets_before_cloning git_works new_url running _ Hin Hk).
Defined.

(** C1 as it is stated fails where the state file cannot be written: git
    is run while the file still holds the session that is replaced. *)
Lemma clone_read_only_keeps_old_record :
  In (Event git_clone_call no_details (Some (Json old_session)))
     (since read_only (clone_repository git_works new_url read_only).2)
  /\ path old_session = Some old_clone.
Proof. split; [|reflexivity]. vm_compute. right. left. reflexivity. Qed.

(** X1. The slip: on a machine without git the temporary directory made for
    the clone is still there when [clone_repository] returns, for the
    handler of [FileNotFoundError] does not remove it. *)
Theorem clone_without_git_keeps_temp_dir env repo_url w t str_e :
  (mkdtemp env "mcp_clone_" (cleared w)).1 = Returns t ->
  git env = SpawnFileNotFound str_e ->
  (clone_repository env repo_url w).1 = git_not_found
  /\ active_repo_details (clone_repository env repo_url w).2 = no_details
  /\ os_path_exists (clone_repository env repo_url w).2 t = true.
Proof.
  intros Hmk Hgit. rewrite clone_repository_unfold.
  pose proof (mkdtemp_from_spec (tempdir env) "mcp_clone_" (names env) (cleared w)) as S1.
  pose proof (mkdtemp_from_steady (tempdir env) "mcp_clone_" (names env) (cleared w)) as H1.
  fold (mkdtemp env "mcp_clone_" (cleared w)) in S1, H1.
  destruct (mkdtemp env "mcp_clone_" (cleared w)) as [r1 w3]. simpl in Hmk. subst r1.
  simpl in S1, H1. destruct S1 as (name & _ & _ & Hne & Hk & _ & Hf).
  unfold git_clone, subprocess_run. rewrite Hgit. simpl.
  unfold git_clone_effect. rewrite Hgit.
  split; [done|]. split.
  - simpl. by rewrite (steady_memory _ _ _ H1), cleared_memory.
  - unfold os_path_exists.
    change (where_is (log ?a w3) t) with (where_is w3 t).
    rewrite (where_is_cwd (cleared w) w3 t (steady_cwd _ _ _ H1)).
    apply String.eqb_neq in Hne as ->.
    destruct (where_is (cleared w) t) as [|c k] eqn:E; [done|]. simpl.
    by rewrite Hf, lookup_insert_eq.
Qed.

Example clone_without_git_in_scenario :
  (clone_repository git_missing new_url running).1 = git_not_found
  /\ os_path_exists (clone_repository git_missing new_url running).2 new_clone = true.
Proof. vm_compute. done. Qed.

(** The other handlers do remove it: after a clone that git ends with an
    error or that cannot be started for another reason, the temporary
    directory is gone, when nothing in it is protected. *)
Lemma clone_failure_removes_temp_dir env repo_url w t :
  (mkdtemp env "mcp_clone_" (cleared w)).1 = Returns t ->
  match git env with
  | Exit rc _ _ _ => rc <> 0%Z
  | SpawnFault _ => True
  | SpawnFileNotFound _ => False
  end ->
  holds_denied w (where_is w t) = false ->
  os_path_exists (clone_repository env repo_url w).2 t = false.
Proof.
  intros Hmk Hgit Hden. rewrite clone_repository_unfold.
  pose proof (mkdtemp_from_spec (tempdir env) "mcp_clone_" (names env) (cleared w)) as S1.
  pose proof (mkdtemp_from_steady (tempdir env) "mcp_clone_" (names env) (cleared w)) as H1.
  fold (mkdtemp env "mcp_clone_" (cleared w)) in S1, H1.
  destruct (mkdtemp env "mcp_clone_" (cleared w)) as [r1 w3]. simpl in Hmk. subst r1.
  simpl in S1, H1. destruct S1 as (name & _ & _ & Hne & Hk & _ & Hf).
  assert (cwd w3 = cwd w) as C3 by (by rewrite (steady_cwd _ _ _ H1), cleared_cwd).
  assert (denied w3 = denied w) as D3.
  { rewrite (steady_denied _ _ _ H1). unfold cleared.
    rewrite save_state_denied. simpl.
    apply (steady_denied _ _ _ (cleanup_previous_steady w)). }
  rewrite (where_is_cwd w (cleared w) t (cleared_cwd w)) in Hk, Hf.
  assert (forall w4,
            cwd w4 = cwd w -> denied w4 = denied w ->
            entry_at w4 (where_is w t) = Some Dir \/ entry_at w4 (where_is w t) = None ->
            os_path_exists (cleanup_temp (Some t) w4) t = false) as Hclean.
  { intros w4 C4 D4 He. unfold cleanup_temp. simpl.
    destruct (negb (String.eqb t "") && os_path_exists w4 t) eqn:Ex.
    2:{ apply andb_false_iff in Ex as [Ex|Ex]; [|done].
        apply String.eqb_neq in Hne. by rewrite Hne in Ex. }
    unfold try_rmtree. pose proof (rmtree_spec t w4) as S5.
    pose proof (rmtree_steady t w4) as H5.
    assert (os_path_exists (rmtree t w4).2 t
            = negb (String.eqb t "")
              && match fs (rmtree t w4).2 !! where_is w t with
                 | Some _ => true | None => false end) as ->.
    { unfold os_path_exists. rewrite (where_is_cwd w4 _ t (steady_cwd _ _ _ H5)).
      rewrite (where_is_cwd w w4 t C4). by destruct (where_is w t). }
    rewrite (where_is_cwd w w4 t C4) in S5.
    destruct (rmtree t w4).1 eqn:E5.
    - destruct S5 as (_ & _ & _ & _ & ->).
      rewrite lookup_without_below by done. by rewrite andb_false_r.
    - exfalso. clear S5. unfold rmtree in E5.
      apply String.eqb_neq in Hne. rewrite Hne in E5.
      change (where_is (log ?a w4) t) with (where_is w4 t) in E5.
      rewrite (where_is_cwd w w4 t C4) in E5.
      change (entry_at (log ?a w4)) with (entry_at w4) in E5.
      change (holds_denied (log ?a w4)) with (holds_denied w4) in E5.
      assert (holds_denied w4 (where_is w t) = false) as Hd4
        by (unfold holds_denied in *; by rewrite D4).
      rewrite Hd4 in E5.
      apply andb_true_iff in Ex as [_ Ex]. unfold os_path_exists in Ex.
      rewrite Hne, (where_is_cwd w w4 t C4) in Ex. simpl in Ex.
      destruct He as [He|He]; [|by rewrite He in Ex].
      destruct (where_is w t) as [|c k]; [done|]. by rewrite He in E5. }
  assert (entry_at w3 (where_is w t) = Some Dir) as He3.
  { destruct (where_is w t) as [|c k]; [done|]. simpl. by rewrite Hf, lookup_insert_eq. }
  unfold git_clone, subprocess_run, git_clone_effect.
  destruct (git env) as [rc out err txt|m|m]; [|done|].
  - apply Z.eqb_neq in Hgit. rewrite Hgit. simpl.
    change (where_is (log ?a w3) t) with (where_is w3 t).
    rewrite (where_is_cwd w w3 t C3).
    destruct (target_kept env); apply Hclean; try done; [by left|right].
    destruct (where_is w t) as [|c k]; [done|]. by apply lookup_without_below.
  - simpl. apply Hclean; try done. by left.
Qed.

Lemma clone_fails_unfold env repo_url w :
  clone_fails env w = true ->
  exists temp_dir e w4,
    steady (fun _ => True) (cleared w) w4
    /\ clone_repository env repo_url w = clone_except repo_url temp_dir e w4.
Proof.
  unfold clone_fails. intros Hfail. rewrite clone_repository_unfold. unfold mkdtemp in *.
  pose proof (mkdtemp_from_steady (tempdir env) "mcp_clone_" (names env) (cleared w)) as H1.
  destruct (mkdtemp_from _ _ _ _) as [[t|e] w3]; simpl in H1, Hfail.
  2:{ exists None, e, w3. split; [|done]. eapply steady_weaken; [|exact H1]; done. }
  pose proof (git_clone_steady env repo_url t w3) as H2.
  assert (exists e w4, git_clone env repo_url t w3 = (Raises e, w4)) as (e & w4 & E).
  { unfold git_clone, subprocess_run.
    destruct (git env) as [rc out err txt|m|m]; simpl; eauto.
    apply negb_true_iff in Hfail. rewrite Hfail. eauto. }
  rewrite E in H2 |- *. simpl in H2. exists (Some t), e, w4. split; [|done].
  eapply steady_trans; eapply steady_weaken; [|exact H1| |exact H2]; done.
Qed.

Lemma clone_except_failure_text repo_url temp_dir e w :
  is_failure_text (clone_except repo_url temp_dir e w).1 = true.
Proof.
  unfold is_failure_text, startswith. destruct e; simpl fst.
  - change ("Error cloning repository " +:+ ?x)
      with ("Error" +:+ (" cloning repository " +:+ x)).
    by rewrite strip_prefix_app.
  - reflexivity.
  - rewrite (strip_prefix_app "An unexpected error occurred during clone: ").
    apply orb_true_r.
  - rewrite (strip_prefix_app "An unexpected error occurred during clone: ").
    apply orb_true_r.
Qed.

(** C2, amended. A call of [clone_repository] whose clone fails returns a
    failure text and leaves the session empty in memory; the state file
    holds what saving the empty session leaves in it, the empty record
    when the file can be written; and when git exits
    with an error or cannot be started for a reason other than a missing
    executable, the temporary directory of the call is gone unless
    something in it cannot be removed. *)
Theorem failed_clone_clears_session env repo_url w :
  clone_fails env w = true ->
  is_failure_text (clone_repository env repo_url w).1 = true
  /\ active_repo_details (clone_repository env repo_url w).2 = no_details
  /\ state_file (clone_repository env repo_url w).2
     = written w no_details
  /\ match (mkdtemp env "mcp_clone_" (cleared w)).1, git env with
     | Returns t, Exit _ _ _ _ | Returns t, SpawnFault _ =>
         holds_denied w (where_is w t) = true
         \/ os_path_exists (clone_repository env repo_url w).2 t = false
     | _, _ => True
     end.
Proof.
  intros Hfail.
  destruct (clone_fails_unfold env repo_url w Hfail) as (tmp & e & w4 & H4 & E).
  assert (steady (fun _ => True) (cleared w) (clone_repository env repo_url w).2) as H.
  { rewrite E. eapply steady_trans; [exact H4|].
    eapply steady_weaken; [|apply clone_except_steady]; done. }
  split; [rewrite E; apply clone_except_failure_text|].
  split; [by rewrite (steady_memory _ _ _ H), cleared_memory|].
  split; [by rewrite (steady_file _ _ _ H), cleared_file|].
  unfold clone_fails in Hfail.
  destruct (mkdtemp env "mcp_clone_" (cleared w)).1 as [t|] eqn:Hmk; [|done].
  destruct (git env) as [rc out err txt|m|m] eqn:Hgit; [|done|].
  - destruct (holds_denied w (where_is w t)) eqn:Hd; [by left|right].
    apply clone_failure_removes_temp_dir; try done. rewrite Hgit.
    apply negb_true_iff in Hfail. by apply Z.eqb_neq.
  - destruct (holds_denied w (where_is w t)) eqn:Hd; [by left|right].
    apply clone_failure_removes_temp_dir; try done. by rewrite Hgit.
Qed.

Lemma failed_clone_clears_session_witness :
  clone_fails git_fails running = true
  /\ is_failure_text (clone_repository git_fails new_url running).1 = true
  /\ active_repo_details (clone_repository git_fails new_url running).2 = no_details
  /\ state_file (clone_repository git_fails new_url running).2
     = written running no_details
  /\ match (mkdtemp git_fails "mcp_clone_" (cleared running)).1, git git_fails with
     | Returns t, Exit _ _ _ _ | Returns t, SpawnFault _ =>
         holds_denied running (where_is running t) = true
         \/ os_path_exists (clone_repository git_fails new_url running).2 t = false
     | _, _ => True
     end.
Proof.
  assert (clone_fails git_fails running = true) as Hfail by (vm_compute; reflexivity).
  split; [exact Hfail|].
  exact (failed_clone_clears_session git_fails new_url running Hfail).
Defined.

(** C2 as it is stated fails where the state file cannot be written, and
    where something below the temporary directory cannot be removed: the
    failed write and the failed removal are logged, and the call goes on. *)
Lemma failed_clone_best_effort :
  clone_fails git_fails read_only = true
  /\ state_file (clone_repository git_fails new_url read_only).2
     = Some (Json old_session)
  /\ clone_fails git_fails pack_locked = true
  /\ os_path_exists (clone_repository git_fails new_url pack_locked).2 new_clone = true.
Proof. vm_compute. done. Qed.

(** C3, amended. When the session names a directory [D] and no temporary
    directory the call may make is [D] or holds [D], then after
    [clone_repository], whether the clone succeeds or fails, [D] is not
    on the disk unless its removal raised, and the session in memory does
    not name [D]; the state file holds what saving that session leaves in
    it, the session itself when the file can be written. *)
Theorem clone_removes_previous env repo_url w D :
  path (active_repo_details w) = Some D ->
  (forall name, In name (names env) ->
     ¬ where_is w (OsPath.join (tempdir env) ("mcp_clone_" +:+ name))
       `prefix_of` where_is w D) ->
  (os_path_exists (clone_repository env repo_url w).2 D = false
   \/ exists e, (rmtree D w).1 = Raises e)
  /\ path (active_repo_details (clone_repository env repo_url w).2) <> Some D
  /\ state_file (clone_repository env repo_url w).2
     = written w (active_repo_details (clone_repository env repo_url w).2).
Proof.
  intros Hpath Hnames.
  assert (forall name, name ∈ names env ->
            ¬ where_is w (OsPath.join (tempdir env) ("mcp_clone_" +:+ name))
              `prefix_of` where_is w D) as Hnames'.
  { intros name Hin. by apply Hnames, list_elem_of_In. }
  split; [|split; [|apply clone_file]].
  - pose proof (rmtree_spec D w) as S.
    destruct (rmtree D w).1 as [[]|e] eqn:Hrm; [left|right; by exists e].
    destruct S as (Hne & Hk & He & _ & Hf).
    unfold os_path_exists.
    rewrite (where_is_cwd w _ D (clone_cwd env repo_url w)).
    assert (forall w', entry_at w' (where_is w D) = fs w' !! where_is w D) as ->
      by (intros; by destruct (where_is w D)).
    rewrite (clone_elsewhere env repo_url w (where_is w D) Hnames').
    assert (cleanup_previous w = (rmtree D w).2) as ->.
    { unfold cleanup_previous. rewrite Hpath. unfold os_path_exists.
      rewrite He. simpl. by apply String.eqb_neq in Hne as ->. }
    rewrite Hf, lookup_without_below by done. apply andb_false_r.
  - destruct (clone_memory env repo_url w) as [->|(t & name & Hn & Ht & ->)]; [done|].
    simpl. intros [= HD]. apply (Hnames' name Hn). by rewrite <- Ht, HD.
Qed.

Lemma clone_removes_previous_witness :
  path (active_repo_details running) = Some old_clone
  /\ (os_path_exists (clone_repository git_works new_url running).2 old_clone = false
      \/ exists e, (rmtree old_clone running).1 = Raises e)
  /\ path (active_repo_details (clone_repository git_works new_url running).2)
     <> Some old_clone
  /\ state_file (clone_repository git_works new_url running).2
     = written running (active_repo_details (clone_repository git_works new_url running).2).
Proof.
  assert (forall name, In name (names git_works) ->
     ¬ where_is running (OsPath.join (tempdir git_works) ("mcp_clone_" +:+ name))
       `prefix_of` where_is running old_clone) as Hnames.
  { intros name [<-|[]]. vm_compute. intros [k Hk]. discriminate Hk. }
  split; [reflexivity|].
  exact (clone_removes_previous git_works new_url running old_clone eq_refl Hnames).
Defined.

(** C3 as it is stated fails where the removal of [D] raises: the
    exception is a warning, the clone goes on, and [D] stays. *)
Lemma clone_locked_previous_stays :
  path (active_repo_details locked) = Some old_clone
  /\ os_path_isdir locked old_clone = true
  /\ os_path_exists (clone_repository git_works new_url locked).2 old_clone = true
  /\ os_path_exists (clone_repository git_fails new_url locked).2 old_clone = true.
Proof. vm_compute. done. Qed.

(** ** The state store *)

(** C7. A session with a path that is saved (the state file is written),
    and loaded when the server starts again, is the session in memory
    when its path is a directory then, and the empty session otherwise. *)
Theorem save_then_load d p w disk github_token :
  path d = Some p ->
  state_file_writes w = Written ->
  state_file disk = state_file (_save_state (set_details d w)) ->
  Str.truthy github_token = true ->
  exists w',
    startup github_token disk = Returns w'
    /\ active_repo_details w' = (if os_path_isdir disk p then d else no_details).
Proof.
  intros Hp Hw Hdisk Htok. unfold startup. rewrite Htok. simpl.
  eexists. split; [reflexivity|].
  rewrite save_state_file in Hdisk. unfold written in Hdisk. simpl in Hdisk.
  rewrite Hw in Hdisk.
  unfold _load_state. simpl. rewrite Hdisk, Hp. simpl.
  change (os_path_isdir (set_details no_details disk) p) with (os_path_isdir disk p).
  destruct (String.eqb_spec p "") as [->|Hne]; simpl; [done|].
  by destruct (os_path_isdir disk p).
Qed.

Lemma save_then_load_witness :
  path old_session = Some old_clone
  /\ state_file_writes idle = Written
  /\ Str.truthy (Some "ghp_token") = true
  /\ exists w',
       startup (Some "ghp_token") (_save_state (set_details old_session idle))
       = Returns w'
       /\ active_repo_details w'
          = (if os_path_isdir (_save_state (set_details old_session idle)) old_clone
             then old_session else no_details).
Proof.
  split; [reflexivity|]. split; [reflexivity|]. split; [reflexivity|].
  exact (save_then_load old_session old_clone idle
           (_save_state (set_details old_session idle)) (Some "ghp_token")
           eq_refl eq_refl eq_refl eq_refl).
Defined.

(** ** The URL parser *)

(** C4, amended. Take a URL [x://host/O/N.git] or [x://host/O/N] with a
    host and segments [O] and [N] that are not empty and hold no ['/'].
    When [x] ends with [http] or [https], the parser returns [(O, N)] for
    the first and, for the second, [O] and [N] less one trailing [.git],
    which is [N] unless [N] ends in [.git]. When [x] ends with neither
    and [O] holds no ['@'], the parser returns [(None, None)] for both. *)
Theorem parse_scheme_url scheme host O N :
  host <> "" -> mem "/" host = false ->
  O <> "" -> mem "/" O = false ->
  N <> "" -> mem "/" N = false ->
  (endswith scheme "http" || endswith scheme "https" = true ->
   _parse_repo_url (scheme +:+ "://" +:+ host +:+ "/" +:+ O +:+ "/" +:+ N +:+ ".git")
   = (Some O, Some N)
   /\ _parse_repo_url (scheme +:+ "://" +:+ host +:+ "/" +:+ O +:+ "/" +:+ N)
      = (Some O, Some (if endswith N ".git" then drop_last 4 N else N)))
  /\ (endswith scheme "http" || endswith scheme "https" = false ->
      mem "@" O = false ->
      _parse_repo_url (scheme +:+ "://" +:+ host +:+ "/" +:+ O +:+ "/" +:+ N +:+ ".git")
      = (None, None)
      /\ _parse_repo_url (scheme +:+ "://" +:+ host +:+ "/" +:+ O +:+ "/" +:+ N)
         = (None, None)).
Proof.
  intros Hh Hhs HO HOs HN HNs.
  assert (N +:+ ".git" <> "") as HN' by (by destruct N).
  assert (mem "/" (N +:+ ".git") = false) as HNs' by (by rewrite str_mem_app, HNs).
  split.
  - intros Hx. split.
    + by rewrite parse_scheme_ends, strip_git_suffix.
    + by apply parse_scheme_ends.
  - intros Hx Hat. split; by apply parse_scheme_other.
Qed.

Lemma parse_scheme_url_witness :
  (endswith "git+https" "http" || endswith "git+https" "https" = true
   /\ _parse_repo_url ("git+https" +:+ "://" +:+ "github.com" +:+ "/" +:+ "testowner"
                       +:+ "/" +:+ "testrepo" +:+ ".git")
      = (Some "testowner", Some "testrepo")
   /\ _parse_repo_url ("git+https" +:+ "://" +:+ "github.com" +:+ "/" +:+ "testowner"
                       +:+ "/" +:+ "testrepo")
      = (Some "testowner",
         Some (if endswith "testrepo" ".git" then drop_last 4 "testrepo" else "testrepo")))
  /\ (endswith "ssh" "http" || endswith "ssh" "https" = false
      /\ mem "@" "testowner" = false
      /\ _parse_repo_url ("ssh" +:+ "://" +:+ "github.com" +:+ "/" +:+ "testowner"
                          +:+ "/" +:+ "testrepo" +:+ ".git")
         = (None, None)
      /\ _parse_repo_url ("ssh" +:+ "://" +:+ "github.com" +:+ "/" +:+ "testowner"
                          +:+ "/" +:+ "testrepo")
         = (None, None)).
Proof.
  split.
  - split; [reflexivity|].
    apply (parse_scheme_url "git+https" "github.com" "testowner" "testrepo");
      [discriminate|reflexivity|discriminate|reflexivity|discriminate|reflexivity
      |reflexivity].
  - split; [reflexivity|]. split; [reflexivity|].
    apply (parse_scheme_url "ssh" "github.com" "testowner" "testrepo");
      [discriminate|reflexivity|discriminate|reflexivity|discriminate|reflexivity
      |reflexivity|reflexivity].
Defined.

(** C4 as it is stated fails for the schemes other than [http] and
    [https]; this URL is one the test suite expects to be refused. *)
Lemma parse_ftp_url_refused :
  _parse_repo_url ("ftp" +:+ "://" +:+ "github.com" +:+ "/" +:+ "owner" +:+ "/"
                   +:+ "repo" +:+ ".git")
  = (None, None).
Proof. vm_compute. reflexivity. Qed.

(** C5, amended. Take a URL [x@host:O/N.git] or [x@host:O/N] with a user
    [x] that holds neither ['/'] nor ['@'], a host that is not empty and
    segments [O] and [N] that are not empty and hold no ['/']. When [x]
    ends with [git] and the host is made of word characters, dots and
    hyphens, the parser returns [(O, N)] for the first and, for the
    second, what it returns for [https://host/O/N]: [O] and [N] less one
    trailing [.git]. When [x] does not end with [git] and the host and
    [O] hold neither ['/'] nor ['@'], the parser returns [(None, None)]
    for both. *)
Theorem parse_scp_url user host O N :
  mem "/" user = false -> mem "@" user = false ->
  host <> "" ->
  O <> "" -> mem "/" O = false ->
  N <> "" -> mem "/" N = false ->
  (endswith user "git" = true ->
   all (in_class host_chars) host = true ->
   _parse_repo_url (user +:+ "@" +:+ host +:+ ":" +:+ O +:+ "/" +:+ N +:+ ".git")
   = (Some O, Some N)
   /\ _parse_repo_url (user +:+ "@" +:+ host +:+ ":" +:+ O +:+ "/" +:+ N)
      = (Some O, Some (if endswith N ".git" then drop_last 4 N else N))
   /\ _parse_repo_url (user +:+ "@" +:+ host +:+ ":" +:+ O +:+ "/" +:+ N)
      = _parse_repo_url ("https" +:+ "://" +:+ host +:+ "/" +:+ O +:+ "/" +:+ N))
  /\ (endswith user "git" = false ->
      mem "/" host = false -> mem "@" host = false -> mem "@" O = false ->
      _parse_repo_url (user +:+ "@" +:+ host +:+ ":" +:+ O +:+ "/" +:+ N +:+ ".git")
      = (None, None)
      /\ _parse_repo_url (user +:+ "@" +:+ host +:+ ":" +:+ O +:+ "/" +:+ N)
         = (None, None)).
Proof.
  intros Hus Hua Hh HO HOs HN HNs.
  assert (N +:+ ".git" <> "") as HN' by (by destruct N).
  assert (mem "/" (N +:+ ".git") = false) as HNs' by (by rewrite str_mem_app, HNs).
  split.
  - intros Hx Hhc. split; [|split].
    + by rewrite parse_user_ends, strip_git_suffix.
    + by apply parse_user_ends.
    + rewrite parse_user_ends, parse_scheme_ends; try done.
      by apply host_chars_no_slash.
  - intros Hx Hhs Hha HOa. split; by apply parse_user_other.
Qed.

Lemma parse_scp_url_witness :
  (endswith "mygit" "git" = true
   /\ all (in_class host_chars) "github.com" = true
   /\ _parse_repo_url ("mygit" +:+ "@" +:+ "github.com" +:+ ":" +:+ "sshowner" +:+ "/"
                       +:+ "sshrepo" +:+ ".git")
      = (Some "sshowner", Some "sshrepo")
   /\ _parse_repo_url ("mygit" +:+ "@" +:+ "github.com" +:+ ":" +:+ "sshowner" +:+ "/"
                       +:+ "sshrepo")
      = (Some "sshowner",
         Some (if endswith "sshrepo" ".git" then drop_last 4 "sshrepo" else "sshrepo"))
   /\ _parse_repo_url ("mygit" +:+ "@" +:+ "github.com" +:+ ":" +:+ "sshowner" +:+ "/"
                       +:+ "sshrepo")
      = _parse_repo_url ("https" +:+ "://" +:+ "github.com" +:+ "/" +:+ "sshowner"
                         +:+ "/" +:+ "sshrepo"))
  /\ (endswith "alice" "git" = false
      /\ _parse_repo_url ("alice" +:+ "@" +:+ "github.com" +:+ ":" +:+ "sshowner" +:+ "/"
                          +:+ "sshrepo" +:+ ".git")
         = (None, None)
      /\ _parse_repo_url ("alice" +:+ "@" +:+ "github.com" +:+ ":" +:+ "sshowner" +:+ "/"
                          +:+ "sshrepo")
         = (None, None)).
Proof.
  split.
  - split; [reflexivity|]. split; [reflexivity|].
    apply (parse_scp_url "mygit" "github.com" "sshowner" "sshrepo");
      [reflexivity|reflexivity|discriminate|discriminate|reflexivity|discriminate
      |reflexivity|reflexivity|reflexivity].
  - split; [reflexivity|].
    apply (parse_scp_url "alice" "github.com" "sshowner" "sshrepo");
      [reflexivity|reflexivity|discriminate|discriminate|reflexivity|discriminate
      |reflexivity|reflexivity|reflexivity|reflexivity|reflexivity].
Defined.

(** C5 as it is stated fails for a user that does not end with [git], and
    for a host outside the word characters, dots and hyphens. *)
Lemma parse_other_user_refused :
  _parse_repo_url ("alice" +:+ "@" +:+ "github.com" +:+ ":" +:+ "owner" +:+ "/"
                   +:+ "repo" +:+ ".git")
  = (None, None)
  /\ _parse_repo_url ("git" +:+ "@" +:+ "[::1]" +:+ ":" +:+ "owner" +:+ "/"
                      +:+ "repo" +:+ ".git")
     = (None, None).
Proof. split; vm_compute; reflexivity. Qed.

(** C6. When the parser recognises a URL, the name it returns is the
    final segment of the URL, less [.git] when the segment ends in it:
    the other dots of the segment stay. *)
Theorem parse_keeps_dots repo_url o n :
  _parse_repo_url repo_url = (Some o, Some n) ->
  final_segment repo_url
  = (if endswith (final_segment repo_url) ".git" then n +:+ ".git" else n).
Proof.
  intros H. destruct (parse_inv repo_url) as [E|(pre & O & S & _ & _ & _ & _ & _ & -> & E)];
    [congruence|].
  rewrite E in H. injection H as _ <-. apply strip_git_inv.
Qed.

Lemma parse_keeps_dots_witness :
  _parse_repo_url "https://github.com/testowner/my.repo.name.git"
  = (Some "testowner", Some "my.repo.name")
  /\ final_segment "https://github.com/testowner/my.repo.name.git"
     = (if endswith (final_segment "https://github.com/testowner/my.repo.name.git") ".git"
        then "my.repo.name" +:+ ".git" else "my.repo.name").
Proof.
  assert (_parse_repo_url "https://github.com/testowner/my.repo.name.git"
          = (Some "testowner", Some "my.repo.name")) as H by (vm_compute; reflexivity).
  split; [exact H|].
  exact (parse_keeps_dots _ _ _ H).
Defined.

(** ** The gate *)

(** C8. In a running server whose session has no path, each of the tools
    [create_git_branch], [git_commit_changes], [git_push_branch],
    [create_github_pr], [read_file_in_repo], [write_file_in_repo] and
    [list_files_in_repo] returns the text [no_active] and leaves the
    server as it is. *)
Theorem gated_tools_need_session c w :
  reachable w ->
  gated c = true ->
  path (active_repo_details w) = None ->
  invoke c w = (no_active, w).
Proof.
  intros Hr Hg Hp.
  destruct (reachable_consistent w Hr) as [Ht|Hd]; [by rewrite Hp in Ht|].
  destruct c; simpl; try done.
  - unfold create_git_branch. by rewrite Hd.
  - unfold git_commit_changes. by rewrite Hd.
  - unfold git_push_branch. by rewrite Hd.
  - unfold create_github_pr. by rewrite Hd.
  - unfold read_file_in_repo. by rewrite Hd.
  - unfold write_file_in_repo. by rewrite Hd.
  - unfold list_files_in_repo. by rewrite Hd.
Qed.

Lemma gated_tools_need_session_witness :
  reachable idle
  /\ gated (CreateGithubPr (PullCreated "https://github.com/a/b/pull/1")
              "title" "body" "main" "feature") = true
  /\ path (active_repo_details idle) = None
  /\ invoke (CreateGithubPr (PullCreated "https://github.com/a/b/pull/1")
               "title" "body" "main" "feature") idle
     = (no_active, idle).
Proof.
  assert (reachable idle) as Hr
    by exact (reach_start (Some "ghp_token") idle idle eq_refl).
  split; [exact Hr|]. split; [reflexivity|]. split; [reflexivity|].
  exact (gated_tools_need_session
           (CreateGithubPr (PullCreated "https://github.com/a/b/pull/1")
              "title" "body" "main" "feature") idle Hr eq_refl eq_refl).
Defined.

(** C10, amended. Take a URL whose final segment is [.git]. When it is
    [x://host/O/.git] with [x] ending with [http] or [https], or
    [x@host:O/.git] with [x] ending with [git] and holding neither ['/']
    nor ['@'] and a host of word characters, dots and hyphens, the
    parser returns the owner [O] and the empty name. Whatever the URL,
    the parser returns [(None, None)] or an owner that is not empty with
    the empty name. And with the owner it returns, a clone of the URL
    that succeeds records that owner and the empty name, and
    [create_github_pr] then answers with the text for an incomplete
    identity and changes nothing. *)
Theorem dot_git_name_is_empty repo_url :
  final_segment repo_url = ".git" ->
  (forall x host O,
     repo_url = x +:+ "://" +:+ host +:+ "/" +:+ O +:+ "/" +:+ ".git" ->
     endswith x "http" || endswith x "https" = true ->
     host <> "" -> mem "/" host = false ->
     O <> "" -> mem "/" O = false ->
     _parse_repo_url repo_url = (Some O, Some "")
     /\ records_empty_name repo_url O)
  /\ (forall x host O,
        repo_url = x +:+ "@" +:+ host +:+ ":" +:+ O +:+ "/" +:+ ".git" ->
        endswith x "git" = true -> mem "/" x = false -> mem "@" x = false ->
        host <> "" -> all (in_class host_chars) host = true ->
        O <> "" -> mem "/" O = false ->
        _parse_repo_url repo_url = (Some O, Some "")
        /\ records_empty_name repo_url O)
  /\ (_parse_repo_url repo_url = (None, None)
      \/ exists o, o <> ""
                   /\ _parse_repo_url repo_url = (Some o, Some "")
                   /\ records_empty_name repo_url o).
Proof.
  intros Hseg. split; [|split].
  - intros x host O E Hx Hh Hhs HO HOs.
    assert (_parse_repo_url repo_url = (Some O, Some "")) as Hp
      by (rewrite E; by apply parse_scheme_ends).
    split; [done|]. by apply empty_name_recorded.
  - intros x host O E Hx Hxs Hxa Hh Hhc HO HOs.
    assert (_parse_repo_url repo_url = (Some O, Some "")) as Hp
      by (rewrite E; by apply parse_user_ends).
    split; [done|]. by apply empty_name_recorded.
  - destruct (parse_inv repo_url) as [E|(pre & O & S & _ & HO & _ & _ & _ & HS & E)];
      [by left|].
    rewrite Hseg in HS. subst S. change (strip_git ".git") with "" in E.
    right. exists O. split; [done|]. split; [done|]. by apply empty_name_recorded.
Qed.

Lemma dot_git_name_is_empty_witness :
  final_segment "https://github.com/owner/.git" = ".git"
  /\ _parse_repo_url "https://github.com/owner/.git" = (Some "owner", Some "")
  /\ records_empty_name "https://github.com/owner/.git" "owner".
Proof.
  split; [reflexivity|].
  apply (proj1 (dot_git_name_is_empty "https://github.com/owner/.git" eq_refl)
           "https" "github.com" "owner");
    [reflexivity|reflexivity|discriminate|reflexivity|discriminate|reflexivity].
Defined.

(** C10 as it is stated fails for the URLs that the parser does not
    recognise: these end in the segment [.git] and give [(None, None)]. *)
Lemma dot_git_unrecognised :
  final_segment "ftp://host/owner/.git" = ".git"
  /\ _parse_repo_url "ftp://host/owner/.git" = (None, None)
  /\ final_segment "https://host/.git" = ".git"
  /\ _parse_repo_url "https://host/.git" = (None, None).
Proof. repeat split; vm_compute; reflexivity. Qed.

(** ** The file tools *)

(** The part of the containment that the code does give: for a session
    with path [P] and a [relative_file_path] that does not start with
    ['/'] and has no component [..], the file that [read_file_in_repo]
    and [write_file_in_repo] open is [os.path.join(P, relative_file_path)],
    below [P]; and every name that [list_files_in_repo] lists is the path
    from [P] of a file below [P]. *)
Theorem file_tools_stay_inside w P relative_file_path content :
  path (active_repo_details w) = Some P ->
  startswith relative_file_path "/" = false ->
  ¬ In ".." (split "/" relative_file_path) ->
  Forall (inside w P) (opened (since w (read_file_in_repo relative_file_path w).2))
  /\ Forall (inside w P)
       (opened (since w (write_file_in_repo relative_file_path content w).2))
  /\ Forall (is_file_below w (where_is w P)) (files_below w (where_is w P))
  /\ ((list_files_in_repo w).1 = no_active
      \/ (list_files_in_repo w).1
         = match files_below w (where_is w P) with
           | [] => "No files found in the active repository."
           | l => "Files in repository:" +:+ nl +:+ Str.join nl (sorted l)
           end).
Proof.
  intros HP Hrel Hno.
  assert (P <> "" -> inside w P (OsPath.join P relative_file_path)) as Hin
    by (intros; by apply resolve_join_inside).
  assert (forall l, (l = [] \/ l = [OsPath.join P relative_file_path]) ->
                    (l <> [] -> P <> "") -> Forall (inside w P) l) as Hall.
  { intros l [->| ->] Hne; [constructor|]. repeat constructor. by apply Hin, Hne. }
  assert (Str.truthy (Some P) = false \/ P <> "") as HPne.
  { simpl. destruct (String.eqb_spec P ""); [by left|by right]. }
  split; [|split; [|split; [apply files_below_are_files|]]].
  - apply Hall.
    + pose proof (read_file_opened relative_file_path w) as H. by rewrite HP in H.
    + destruct HPne as [Hf|]; [|done]. intros Hne. exfalso. apply Hne.
      unfold read_file_in_repo. rewrite HP, Hf. simpl. by rewrite (since_eq w w []).
  - apply Hall.
    + pose proof (write_file_opened relative_file_path content w) as H.
      by rewrite HP in H.
    + destruct HPne as [Hf|]; [|done]. intros Hne. exfalso. apply Hne.
      unfold write_file_in_repo. rewrite HP, Hf. simpl. by rewrite (since_eq w w []).
  - unfold list_files_in_repo. rewrite HP.
    destruct (Str.truthy (Some P)); simpl; [right|by left].
    change (where_is (log (Walk P) w) P) with (where_is w P).
    assert (files_below (log (Walk P) w) (where_is w P) = files_below w (where_is w P))
      as -> by done.
    by destruct (files_below w (where_is w P)).
Qed.

Lemma file_tools_stay_inside_witness :
  path (active_repo_details running) = Some old_clone
  /\ startswith "src/main.py" "/" = false
  /\ ¬ In ".." (split "/" "src/main.py")
  /\ Forall (inside running old_clone)
       (opened (since running (read_file_in_repo "src/main.py" running).2))
  /\ Forall (inside running old_clone)
       (opened (since running (write_file_in_repo "src/main.py" "print(2)" running).2))
  /\ Forall (is_file_below running (where_is running old_clone))
       (files_below running (where_is running old_clone))
  /\ ((list_files_in_repo running).1 = no_active
      \/ (list_files_in_repo running).1
         = match files_below running (where_is running old_clone) with
           | [] => "No files found in the active repository."
           | l => "Files in repository:" +:+ nl +:+ Str.join nl (sorted l)
           end).
Proof.
  assert (¬ In ".." (split "/" "src/main.py")) as Hno.
  { vm_compute. intros [H|[H|[]]]; discriminate H. }
  split; [reflexivity|]. split; [reflexivity|]. split; [exact Hno|].
  exact (file_tools_stay_inside running old_clone "src/main.py" "print(2)"
           eq_refl eq_refl Hno).
Defined.

(** C9. The docstrings of [read_file_in_repo] and [write_file_in_repo]
    speak of a file in the active repository, at a path relative to its
    root, but the functions open [os.path.join(P, relative_file_path)]
    as it is: with the session at [old_clone], the paths [/etc/passwd]
    and [../../etc/passwd] read the password file of the machine, and
    [/etc/motd] is written, all outside [old_clone]. *)
Lemma file_tools_escape :
  path (active_repo_details running) = Some old_clone
  /\ (read_file_in_repo "/etc/passwd" running).1 = "root:x:0:0:root:/root:/bin/sh"
  /\ (read_file_in_repo "../../etc/passwd" running).1 = "root:x:0:0:root:/root:/bin/sh"
  /\ fs (write_file_in_repo "/etc/motd" "hello" running).2 !! ["etc"; "motd"]
     = Some (File "hello")
  /\ opened (since running (read_file_in_repo "/etc/passwd" running).2) = ["/etc/passwd"]
  /\ ¬ inside running old_clone "/etc/passwd".
Proof.
  split; [reflexivity|]. split; [vm_compute; reflexivity|].
  split; [vm_compute; reflexivity|]. split; [vm_compute; reflexivity|].
  split; [vm_compute; reflexivity|].
  vm_compute. intros [k Hk]. discriminate Hk.
Qed.

(** What the tools answer in the scenario. *)
Example list_files_running :
  (list_files_in_repo running).1
  = "Files in repository:" +:+ nl +:+ "README.md" +:+ nl +:+ "src/main.py".
Proof. vm_compute. reflexivity. Qed.

Example clone_then_parse :
  active_repo_details (clone_repository git_works new_url running).2
  = Details (Some new_clone) (Some new_url) (Some "c") (Some "d").
Proof. vm_compute. reflexivity. Qed.

Example clone_dot_git_records_empty_name :
  active_repo_details
    (clone_repository git_works "https://github.com/owner/.git" idle).2
  = Details (Some new_clone) (Some "https://github.com/owner/.git")
            (Some "owner") (Some "").
Proof. vm_compute. reflexivity. Qed.

Example clone_removes_old_clone :
  os_path_exists (clone_repository git_works new_url running).2 old_clone = false
  /\ os_path_exists (clone_repository git_fails new_url running).2 old_clone = false
  /\ state_file (clone_repository git_fails new_url running).2 = Some (Json no_details).
Proof. vm_compute. done. Qed.

Example clone_failure_cleans_up :
  os_path_exists (clone_repository git_fails new_url running).2 new_clone = false
  /\ os_path_exists (clone_repository git_missing new_url running).2 new_clone = true.
Proof. vm_compute. done. Qed.

(** The cases of the test suite. *)
Example parse_https_git :
  _parse_repo_url "https://github.com/testowner/testrepo.git"
  = (Some "testowner", Some "testrepo").
Proof. vm_compute. reflexivity. Qed.

Example parse_ssh :
  _parse_repo_url "git@github.com:sshowner/sshrepo.git"
  = (Some "sshowner", Some "sshrepo").
Proof. vm_compute. reflexivity. Qed.

Example parse_dots :
  _parse_repo_url "https://github.com/testowner/my.repo.name.git"
  = (Some "testowner", Some "my.repo.name").
Proof. vm_compute. reflexivity. Qed.

Example parse_ftp :
  _parse_repo_url "ftp://github.com/owner/repo.git" = (None, None).
Proof. vm_compute. reflexivity. Qed.

Example parse_invalid :
  map _parse_repo_url
    ["https://github.com/owneronly"; "JustARandomString";
     "https/github.com/owner/repo.git"; "https://github.com/";
     "git@github.com"; "git@github.com:"; "git@github.com:/"]
  = replicate 7 (None, None).
Proof. vm_compute. reflexivity. Qed.

(** * Further properties *)

(** ** White space *)

Module BlankFacts.
Import Str StrFacts Spec.

Lemma lstrip_blank s : all is_space (lstrip s) = all is_space s.
Proof.
  induction s as [|c s IH]; [done|]. cbn [lstrip].
  destruct (is_space c) eqn:E; [|done]. cbn [all]. by rewrite E.
Qed.

Lemma rstrip_space_blank s : rstrip_space s = "" <-> all is_space s = true.
Proof.
  induction s as [|c s IH]; [done|]. cbn [rstrip_space all].
  destruct (rstrip_space s) as [|a r] eqn:E.
  - destruct (is_space c); simpl; [tauto|]. split; [done|]. intros [=].
  - split; [done|]. intros [_ H]%andb_true_iff. by apply IH in H.
Qed.

(** [s.strip()] is empty exactly when [s] is white space only. *)
Lemma strip_blank s : String.eqb (strip s) "" = is_blank s.
Proof.
  unfold strip, is_blank. rewrite <- lstrip_blank.
  destruct (String.eqb_spec (rstrip_space (lstrip s)) "") as [H|H].
  - symmetry. by apply rstrip_space_blank.
  - destruct (all is_space (lstrip s)) eqn:E; [|done].
    by apply rstrip_space_blank in E.
Qed.

End BlankFacts.

Import BlankFacts.

(** ** The tools that work on a path of the caller *)



Lemma since_one w w' e : trace w' = e :: trace w -> since w w' = [e].
Proof. intros T. by apply (since_eq w w' [e]). Qed.

Lemma since_two w w' e1 e2 : trace w' = e2 :: e1 :: trace w -> since w w' = [e2; e1].
Proof. intros T. by apply (since_eq w w' [e2; e1]). Qed.

(** X3. Each of these tools runs git, and nothing else, in the directory the
    caller names; every call it makes sees the session untouched. *)
Theorem path_tools_only_run_git c w :
  since w (invoke_path c w).2 <> []
  /\ Forall (fun ev => runs_git_in (repo_path_of c) (act ev)
                       /\ in_memory ev = active_repo_details w
                       /\ persisted ev = state_file w)
            (since w (invoke_path c w).2).
Proof.
  destruct c; simpl;
    unfold get_git_status, list_branches, create_pr_summary, current_branch,
      get_commit_history, get_git_diff, subprocess_run;
    repeat (case_match; simplify_eq/=);
    first [ erewrite since_one by reflexivity
          | erewrite since_two by reflexivity ];
    (split; [done|]); repeat constructor.
Qed.


Lemma head_differs s t : take 1 s <> take 1 t -> s <> t.
Proof. congruence. Qed.

Lemma truthy_strip s : truthy (Some (strip s)) = negb (is_blank s).
Proof. simpl. by rewrite strip_blank. Qed.

(** X5. An output of white space only counts as no output: [get_git_status]
    answers that the repository is clean, [get_commit_history] that there
    are no commits and [get_git_diff] that there are no differences
    exactly when git ends with exit status 0 and such an output. *)
Theorem blank_output_is_nothing r repo_path branch limit target w :
  ((get_git_status r repo_path w).1 = "Repository is clean - no changes detected."
   <-> blank_success r = true)
  /\ ((get_commit_history r branch limit repo_path w).1 = "No commits found"
      <-> blank_success r = true)
  /\ ((get_git_diff r target repo_path w).1
      = "No differences found"
        +:+ (if truthy target then " against " +:+ default "" target
             else " (working directory vs HEAD)")
      <-> blank_success r = true).
Proof.
  unfold get_git_status, get_commit_history, get_git_diff, subprocess_run,
    report_except, blank_success.
  destruct r as [rc out err txt|m|m]; simpl fst.
  - destruct (rc =? 0)%Z eqn:Hrc; simpl.
    + rewrite Hrc. change (negb (negb (strip out =? "")%string))
        with (negb (truthy (Some (strip out)))).
      rewrite truthy_strip, negb_involutive.
      destruct (is_blank out); simpl; [done|].
      split_and!; (split; [|done]); intros H; exfalso; revert H;
        apply head_differs; destruct (truthy target), (truthy branch); by vm_compute.
    + split_and!; (split; [|done]); intros H; exfalso; revert H;
        apply head_differs; destruct (truthy target); by vm_compute.
  - split_and!; (split; [|done]); intros H; exfalso; revert H;
      apply head_differs; destruct (truthy target); by vm_compute.
  - split_and!; (split; [|done]); intros H; exfalso; revert H;
      apply head_differs; destruct (truthy target); by vm_compute.
Qed.

(** X6. [create_pr_summary] compares [base_branch...head_branch]; when the
    caller names no head branch, or the empty one, it first asks git for
    the branch that is checked out and compares with that, and it does
    not compare at all when git cannot tell. *)
Theorem pr_summary_uses_current_branch head_r diff_r base_branch head_branch
    repo_path w :
  subprocesses
    (since w (create_pr_summary head_r diff_r base_branch head_branch repo_path w).2)
  = if truthy head_branch
    then [(["git"; "diff"; base_branch +:+ "..." +:+ default "" head_branch; "--stat"],
           repo_path)]
    else
      match head_r with
      | Exit rc out _ _ =>
          if (rc =? 0)%Z
          then [(["git"; "diff"; base_branch +:+ "..." +:+ strip out; "--stat"],
                 repo_path);
                (["git"; "rev-parse"; "--abbrev-ref"; "HEAD"], repo_path)]
          else [(["git"; "rev-parse"; "--abbrev-ref"; "HEAD"], repo_path)]
      | SpawnFileNotFound _ | SpawnFault _ =>
          [(["git"; "rev-parse"; "--abbrev-ref"; "HEAD"], repo_path)]
      end.
Proof.
  unfold create_pr_summary, current_branch, subprocess_run.
  destruct (truthy head_branch); simpl;
    repeat (case_match; simplify_eq/=);
    first [ erewrite since_one by reflexivity
          | erewrite since_two by reflexivity ]; reflexivity.
Qed.

(** ** The URL parser *)

Lemma mem_take c n s : mem c s = false -> mem c (take n s) = false.
Proof.
  revert s. induction n as [|n IH]; intros [|a s]; simpl; try done.
  intros [-> H]%orb_false_iff. by rewrite IH.
Qed.

(** X7. The parser answers with an owner and a name, or with neither: the
    owner is not empty, neither holds a ['/'], and the URL ends with
    [owner/name] or with [owner/name.git]. *)
Theorem parse_all_or_nothing repo_url :
  _parse_repo_url repo_url = (None, None)
  \/ exists pre o n,
       _parse_repo_url repo_url = (Some o, Some n)
       /\ o <> "" /\ mem "/" o = false /\ mem "/" n = false
       /\ (repo_url = pre +:+ o +:+ "/" +:+ n
           \/ repo_url = pre +:+ o +:+ "/" +:+ n +:+ ".git").
Proof.
  destruct (parse_inv repo_url) as [E|(pre & O & S & -> & HO & HOs & HS & HSs & _ & E)];
    [by left|right].
  exists pre, O, (strip_git S). split_and!; try done.
  - unfold strip_git. destruct (endswith S ".git"); [|done]. by apply mem_take.
  - pose proof (strip_git_inv S) as HS'.
    destruct (endswith S ".git"); [right|left]; by rewrite <- HS'.
Qed.

Lemma re_search_later r pre s gs :
  re_search r s = Some gs -> exists gs', re_search r (pre +:+ s) = Some gs'.
Proof.
  intros H. induction pre as [|c pre IH]; [by exists gs|].
  rewrite str_app_cons. cbn [re_search].
  destruct (re_match r (String c (pre +:+ s))) as [gs'|]; [by exists gs'|exact IH].
Qed.

(** X8. The parser does not ask that the URL starts where its pattern
    starts: with any text before a URL that it recognises, it still
    answers with an owner and with the same name. *)
Theorem parse_ignores_leading_text pre repo_url o n :
  _parse_repo_url repo_url = (Some o, Some n) ->
  exists o', _parse_repo_url (pre +:+ repo_url) = (Some o', Some n).
Proof.
  intros H.
  destruct (parse_inv repo_url) as [E|(p0 & O & S & Hurl & _ & _ & _ & HSs & _ & E)];
    [congruence|].
  rewrite E in H. injection H as _ <-.
  assert (_parse_repo_url (pre +:+ repo_url) <> (None, None)) as Hrec.
  { unfold _parse_repo_url in E |- *.
    destruct (re_search pattern repo_url) as [gs|] eqn:Hs; [|done].
    destruct (re_search_later pattern pre repo_url gs Hs) as (gs' & Hs').
    rewrite Hs'.
    destruct (search_pattern_inv _ _ Hs') as (? & ? & ? & _ & _ & _ & _ & _ & H1 & _).
    unfold group. by rewrite H1. }
  destruct (parse_inv (pre +:+ repo_url))
    as [E'|(p1 & O' & S' & _ & _ & _ & _ & _ & Hseg & E')]; [done|].
  exists O'. rewrite E'. do 3 f_equal. rewrite <- Hseg, Hurl.
  replace (pre +:+ p0 +:+ O +:+ "/" +:+ S) with ((pre +:+ p0 +:+ O) +:+ "/" +:+ S)
    by (by rewrite !str_app_assoc).
  by apply final_segment_app.
Qed.

Lemma parse_ignores_leading_text_witness :
  _parse_repo_url "https://github.com/testowner/testrepo.git"
  = (Some "testowner", Some "testrepo")
  /\ exists o',
       _parse_repo_url ("see " +:+ "https://github.com/testowner/testrepo.git")
       = (Some o', Some "testrepo").
Proof.
  assert (_parse_repo_url "https://github.com/testowner/testrepo.git"
          = (Some "testowner", Some "testrepo")) as H by (vm_compute; reflexivity).
  split; [exact H|].
  exact (parse_ignores_leading_text "see " _ _ _ H).
Defined.

(** X9. A URL that ends with ['/'] is not recognised. *)
Theorem parse_refuses_trailing_slash repo_url :
  endswith repo_url "/" = true ->
  _parse_repo_url repo_url = (None, None).
Proof.
  intros Hend.
  destruct (parse_inv repo_url) as [E|(pre & O & S & _ & _ & _ & HS & _ & Hseg & _)];
    [done|exfalso].
  apply endswith_inv in Hend. rewrite Hend in Hseg.
  rewrite (final_segment_app _ "" eq_refl) in Hseg. by subst S.
Qed.

Lemma parse_refuses_trailing_slash_witness :
  endswith "https://github.com/owner/repo/" "/" = true
  /\ _parse_repo_url "https://github.com/owner/repo/" = (None, None).
Proof.
  split; [reflexivity|].
  exact (parse_refuses_trailing_slash "https://github.com/owner/repo/" eq_refl).
Defined.

(** ** Cloning *)

Lemma clone_success_dir env repo_url w t out err txt :
  (mkdtemp env "mcp_clone_" (cleared w)).1 = Returns t ->
  git env = Exit 0 out err txt ->
  writes_below env ->
  os_path_isdir (clone_repository env repo_url w).2 t = true.
Proof.
  intros Hmk Hgit Hbelow.
  destruct (clone_success env repo_url w t out err txt Hmk Hgit)
    as (w4 & E & H4 & Hne & Hk & He & Hf).
  unfold os_path_isdir.
  rewrite (where_is_cwd w _ t (clone_cwd env repo_url w)).
  apply String.eqb_neq in Hne as ->. simpl.
  destruct (where_is w t) as [|c k] eqn:Ek; [done|]. simpl.
  rewrite E. simpl. rewrite save_state_fs. simpl.
  by rewrite Hf, lookup_graft_root, lookup_insert_eq.
Qed.

(** X10. When a temporary directory [t] is made and git ends with exit status
    0, [clone_repository] says so and the session is [t], the URL as it
    was given, and the owner and the name the parser reads from it;
    nothing was at [t] when the session was cleared, and [t] is a
    directory when the call returns. *)
Theorem clone_success_sets_session env repo_url w t out err txt :
  (mkdtemp env "mcp_clone_" (cleared w)).1 = Returns t ->
  git env = Exit 0 out err txt ->
  writes_below env ->
  (clone_repository env repo_url w).1
  = cloned_msg repo_url t (_parse_repo_url repo_url).1 (_parse_repo_url repo_url).2
  /\ active_repo_details (clone_repository env repo_url w).2
     = Details (Some t) (Some repo_url)
               (_parse_repo_url repo_url).1 (_parse_repo_url repo_url).2
  /\ os_path_exists (cleared w) t = false
  /\ os_path_isdir (clone_repository env repo_url w).2 t = true.
Proof.
  intros Hmk Hgit Hbelow.
  destruct (clone_success env repo_url w t out err txt Hmk Hgit)
    as (w4 & E & H4 & Hne & Hk & He & Hf).
  split_and!.
  - by rewrite E.
  - rewrite E. simpl. by rewrite save_state_memory.
  - unfold os_path_exists.
    rewrite (where_is_cwd w (cleared w) t (cleared_cwd w)), He. apply andb_false_r.
  - by eapply clone_success_dir.
Qed.

Lemma clone_success_sets_session_witness :
  (mkdtemp git_works "mcp_clone_" (cleared running)).1 = Returns new_clone
  /\ writes_below git_works
  /\ (clone_repository git_works new_url running).1
     = cloned_msg new_url new_clone (_parse_repo_url new_url).1 (_parse_repo_url new_url).2
  /\ active_repo_details (clone_repository git_works new_url running).2
     = Details (Some new_clone) (Some new_url)
               (_parse_repo_url new_url).1 (_parse_repo_url new_url).2
  /\ os_path_exists (cleared running) new_clone = false
  /\ os_path_isdir (clone_repository git_works new_url running).2 new_clone = true.
Proof.
  assert ((mkdtemp git_works "mcp_clone_" (cleared running)).1 = Returns new_clone)
    as Hmk by (vm_compute; reflexivity).
  assert (writes_below git_works) as Hbelow by (repeat constructor; discriminate).
  split; [exact Hmk|]. split; [exact Hbelow|].
  exact (clone_success_sets_session git_works new_url running new_clone _ _ _
           Hmk eq_refl Hbelow).
Defined.

Lemma clone_failed_memory env repo_url w :
  clone_fails env w = true ->
  active_repo_details (clone_repository env repo_url w).2 = no_details.
Proof.
  intros Hfail.
  destruct (clone_fails_unfold env repo_url w Hfail) as (tmp & e & w4 & H4 & E).
  rewrite E.
  rewrite (steady_memory _ _ _ (clone_except_steady repo_url tmp e w4)).
  by rewrite (steady_memory _ _ _ H4), cleared_memory.
Qed.

(** X11. A server that is started again after a call of [clone_repository]
    has the session the call left in memory: that of the clone when it
    succeeded, none when it failed; this where the state file can be
    written. *)
Theorem clone_survives_restart env repo_url w github_token :
  state_file_writes w = Written ->
  truthy github_token = true ->
  writes_below env ->
  exists w',
    startup github_token (clone_repository env repo_url w).2 = Returns w'
    /\ active_repo_details w' = active_repo_details (clone_repository env repo_url w).2.
Proof.
  intros Hw Htok Hbelow. unfold startup. rewrite Htok. simpl.
  eexists. split; [reflexivity|].
  pose proof (clone_file env repo_url w) as Hfile. simpl in Hfile.
  unfold written in Hfile. rewrite Hw in Hfile.
  unfold _load_state. simpl. rewrite Hfile.
  destruct (clone_fails env w) eqn:Hfail.
  - by rewrite (clone_failed_memory env repo_url w Hfail).
  - unfold clone_fails in Hfail.
    destruct (mkdtemp env "mcp_clone_" (cleared w)).1 as [t|] eqn:Hmk; [|done].
    destruct (git env) as [rc out err txt|m|m] eqn:Hgit; [|done|done].
    apply negb_false_iff, Z.eqb_eq in Hfail. subst rc.
    pose proof (clone_success_dir env repo_url w t out err txt Hmk Hgit Hbelow) as Hdir.
    destruct (clone_success env repo_url w t out err txt Hmk Hgit)
      as (w4 & E & H4 & Hne & _).
    assert (active_repo_details (clone_repository env repo_url w).2
            = Details (Some t) (Some repo_url)
                      (_parse_repo_url repo_url).1 (_parse_repo_url repo_url).2) as Hm
      by (rewrite E; simpl; by rewrite save_state_memory).
    rewrite Hm. simpl.
    change (os_path_isdir (set_details no_details ?x) t) with (os_path_isdir x t).
    rewrite Hdir. by apply String.eqb_neq in Hne as ->.
Qed.

Lemma clone_survives_restart_witness :
  state_file_writes running = Written
  /\ truthy (Some "ghp_token") = true
  /\ writes_below git_works
  /\ exists w',
       startup (Some "ghp_token") (clone_repository git_works new_url running).2
       = Returns w'
       /\ active_repo_details w'
          = active_repo_details (clone_repository git_works new_url running).2.
Proof.
  assert (writes_below git_works) as Hbelow by (repeat constructor; discriminate).
  split; [reflexivity|]. split; [reflexivity|]. split; [exact Hbelow|].
  exact (clone_survives_restart git_works new_url running (Some "ghp_token")
           eq_refl eq_refl Hbelow).
Defined.

(** X12. When git ends with another exit status than 0, [clone_repository]
    answers with what git wrote to its standard error, or with the text
    of the exception when git wrote nothing there, whatever becomes of
    the temporary directory. *)
Theorem clone_reports_git_error env repo_url w t rc out err txt :
  (mkdtemp env "mcp_clone_" (cleared w)).1 = Returns t ->
  git env = Exit rc out err txt -> rc <> 0%Z ->
  (clone_repository env repo_url w).1
  = "Error cloning repository " +:+ repo_url +:+ ": "
    +:+ (if negb (String.eqb err "") then err else txt).
Proof.
  intros Hmk Hgit Hrc. rewrite clone_repository_unfold.
  destruct (mkdtemp env "mcp_clone_" (cleared w)) as [r1 w3]. simpl in Hmk. subst r1.
  unfold git_clone, subprocess_run. rewrite Hgit.
  apply Z.eqb_neq in Hrc. rewrite Hrc. reflexivity.
Qed.

Lemma clone_reports_git_error_witness :
  (mkdtemp git_fails "mcp_clone_" (cleared running)).1 = Returns new_clone
  /\ (clone_repository git_fails new_url running).1
     = "Error cloning repository " +:+ new_url +:+ ": "
       +:+ (if negb (String.eqb "fatal: repository not found" "")
            then "fatal: repository not found"
            else "Command '['git', 'clone', ...]' returned non-zero exit status 128.").
Proof.
  assert ((mkdtemp git_fails "mcp_clone_" (cleared running)).1 = Returns new_clone)
    as Hmk by (vm_compute; reflexivity).
  split; [exact Hmk|].
  exact (clone_reports_git_error git_fails new_url running new_clone 128 _ _ _
           Hmk eq_refl ltac:(discriminate)).
Defined.

(** X13. When the temporary directory cannot be made because the directory
    it is to be made in is not there, [clone_repository] answers that
    the git command was not found: the handler of [FileNotFoundError]
    takes the exception of [tempfile.mkdtemp] for one of git. *)
Theorem clone_blames_git_for_missing_tempdir env repo_url w str_e :
  (mkdtemp env "mcp_clone_" (cleared w)).1 = Raises (FileNotFoundError str_e) ->
  (clone_repository env repo_url w).1 = git_not_found
  /\ active_repo_details (clone_repository env repo_url w).2 = no_details
  /\ fs (clone_repository env repo_url w).2 = fs (cleared w).
Proof.
  intros Hmk. rewrite clone_repository_unfold.
  pose proof (mkdtemp_from_spec (tempdir env) "mcp_clone_" (names env) (cleared w)) as S1.
  pose proof (mkdtemp_from_steady (tempdir env) "mcp_clone_" (names env) (cleared w)) as H1.
  fold (mkdtemp env "mcp_clone_" (cleared w)) in S1, H1.
  destruct (mkdtemp env "mcp_clone_" (cleared w)) as [r1 w3]. simpl in Hmk. subst r1.
  simpl in *. split; [done|]. split; [|done].
  by rewrite (steady_memory _ _ _ H1), cleared_memory.
Qed.

Lemma clone_blames_git_for_missing_tempdir_witness :
  (mkdtemp no_tempdir "mcp_clone_" (cleared running)).1
  = Raises (FileNotFoundError "No such file or directory")
  /\ exits_zero (git no_tempdir) = true
  /\ (clone_repository no_tempdir new_url running).1 = git_not_found
  /\ active_repo_details (clone_repository no_tempdir new_url running).2 = no_details
  /\ fs (clone_repository no_tempdir new_url running).2 = fs (cleared running).
Proof.
  assert ((mkdtemp no_tempdir "mcp_clone_" (cleared running)).1
          = Raises (FileNotFoundError "No such file or directory")) as Hmk
    by (vm_compute; reflexivity).
  split; [exact Hmk|]. split; [reflexivity|].
  exact (clone_blames_git_for_missing_tempdir no_tempdir new_url running _ Hmk).
Defined.

Lemma subprocesses_app evs1 evs2 :
  subprocesses (evs1 ++ evs2) = subprocesses evs1 ++ subprocesses evs2.
Proof. apply omap_app. Qed.

Lemma subprocesses_none evs :
  Forall (fun ev => ¬ is_subprocess (act ev)) evs -> subprocesses evs = [].
Proof.
  induction 1 as [|ev evs Hev _ IH]; [done|].
  assert (subprocesses (ev :: evs)
          = match act ev with
            | Subprocess cmd d => (cmd, d) :: subprocesses evs
            | _ => subprocesses evs
            end) as -> by (unfold subprocesses; simpl; by destruct (act ev)).
  rewrite IH. by destruct (act ev).
Qed.

Lemma steady_quiet K w w' :
  steady K w w' -> (forall a, K a -> ¬ is_subprocess a) ->
  extends (fun ev => ¬ is_subprocess (act ev)) w w'.
Proof. intros H HK. eapply steady_extends; [exact H|]. intros ev Hk _ _. by apply HK. Qed.

Lemma rmtree_quiet a : is_rmtree a -> ¬ is_subprocess a.
Proof. destruct a; simpl; tauto. Qed.

Lemma mkdir_quiet a : is_mkdir a -> ¬ is_subprocess a.
Proof. destruct a; simpl; tauto. Qed.

Lemma cleared_quiet w : extends (fun ev => ¬ is_subprocess (act ev)) w (cleared w).
Proof.
  unfold cleared. eapply extends_trans.
  - eapply steady_quiet; [apply cleanup_previous_steady|apply rmtree_quiet].
  - eapply extends_set_details, save_state_extends. intros m f H. exact H.
Qed.

Lemma git_clone_trace env repo_url t w :
  trace (git_clone env repo_url t w).2
  = [Event (Subprocess ["git"; "clone"; repo_url; t] None)
           (active_repo_details w) (state_file w)] ++ trace w.
Proof.
  unfold git_clone, subprocess_run, git_clone_effect.
  destruct (git env) as [rc ? ? ?|?|?]; simpl; [|done..].
  destruct (rc =? 0)%Z; simpl; [done|]. by destruct (target_kept env).
Qed.

(** X14. A call of [clone_repository] runs one child process when a temporary
    directory [t] could be made, and none when not: git, with the
    arguments [clone], the URL as it was given, and [t]. *)
Theorem clone_runs_git_once env repo_url w :
  subprocesses (since w (clone_repository env repo_url w).2)
  = match (mkdtemp env "mcp_clone_" (cleared w)).1 with
    | Returns t => [(["git"; "clone"; repo_url; t], None)]
    | Raises _ => []
    end.
Proof.
  set (Q := fun ev => ¬ is_subprocess (act ev)).
  destruct (cleared_quiet w) as (e1 & T1 & Q1). fold Q in Q1.
  rewrite clone_repository_unfold. unfold mkdtemp.
  pose proof (steady_quiet _ _ _
                (mkdtemp_from_steady (tempdir env) "mcp_clone_" (names env) (cleared w))
                mkdir_quiet) as (e2 & T2 & Q2). fold Q in Q2.
  assert (forall tmp e w', extends Q w' (clone_except repo_url tmp e w').2) as Hexc.
  { intros. eapply steady_quiet; [apply clone_except_steady|apply rmtree_quiet]. }
  destruct (mkdtemp_from _ _ _ _) as [[t|e] w3]; simpl in T2; simpl fst.
  2:{ destruct (Hexc None e w3) as (e3 & T3 & Q3).
      rewrite (since_eq w _ (e3 ++ e2 ++ e1)) by (by rewrite T3, T2, T1, <- !List.app_assoc).
      by rewrite !subprocesses_app, (subprocesses_none e3), (subprocesses_none e2),
        (subprocesses_none e1). }
  pose proof (git_clone_trace env repo_url t w3) as T4.
  set (sub := Event (Subprocess ["git"; "clone"; repo_url; t] None)
                    (active_repo_details w3) (state_file w3)) in T4.
  assert (forall w', extends Q (git_clone env repo_url t w3).2 w' ->
            subprocesses (since w w') = [(["git"; "clone"; repo_url; t], None)]) as Hend.
  { intros w' (e3 & T3 & Q3).
    rewrite (since_eq w _ (e3 ++ [sub] ++ e2 ++ e1))
      by (by rewrite T3, T4, T2, T1, <- !List.app_assoc).
    by rewrite !subprocesses_app, (subprocesses_none e3), (subprocesses_none e2),
      (subprocesses_none e1). }
  destruct (git_clone env repo_url t w3) as [[result|e] w4]; simpl in Hend;
    [|by apply Hend, Hexc].
  destruct (returncode result =? 0)%Z.
  - destruct (_parse_repo_url repo_url) as [o n]. apply Hend.
    eapply extends_set_details, save_state_extends. intros m f H. exact H.
  - destruct (truthy (Some t) && os_path_exists w4 t); [|apply Hend; by exists []].
    pose proof (steady_quiet _ _ _ (rmtree_steady t w4) rmtree_quiet) as H5.
    destruct (rmtree t w4) as [[[]|e] w5]; simpl in H5; apply Hend; [done|].
    eapply extends_trans; [exact H5|apply Hexc].
Qed.

Lemma cleanup_previous_elsewhere w k :
  (forall D, path (active_repo_details w) = Some D -> ¬ where_is w D `prefix_of` k) ->
  fs (cleanup_previous w) !! k = fs w !! k.
Proof.
  intros Hk. unfold cleanup_previous.
  destruct (path (active_repo_details w)) as [D|]; [|done].
  destruct (truthy (Some D) && os_path_exists w D); [|done].
  apply rmtree_touches. by apply Hk.
Qed.

(** X15. A call of [clone_repository] changes nothing on the disk but the
    directory of the session it replaces, the temporary directories it
    may make, and [STATE_FILE], which it writes: every other place holds
    after the call what it held before. *)
Theorem clone_leaves_rest_of_disk env repo_url w k :
  (forall D, path (active_repo_details w) = Some D -> ¬ where_is w D `prefix_of` k) ->
  (forall name, In name (names env) ->
     ¬ where_is w (OsPath.join (tempdir env) ("mcp_clone_" +:+ name)) `prefix_of` k) ->
  k <> where_is w STATE_FILE ->
  fs (clone_repository env repo_url w).2 !! k = fs w !! k.
Proof.
  intros HD Hnames _. rewrite clone_elsewhere.
  - by apply cleanup_previous_elsewhere.
  - intros nm Hin. by apply Hnames, list_elem_of_In.
Qed.

Lemma clone_leaves_rest_of_disk_witness :
  ["etc"; "passwd"] <> where_is running STATE_FILE
  /\ fs (clone_repository git_works new_url running).2 !! ["etc"; "passwd"]
     = fs running !! ["etc"; "passwd"].
Proof.
  assert (["etc"; "passwd"] <> where_is running STATE_FILE) as Hstate
    by (vm_compute; discriminate).
  split; [exact Hstate|].
  apply (clone_leaves_rest_of_disk git_works new_url running ["etc"; "passwd"]).
  - intros D [= <-]. vm_compute. intros [k Hk]. discriminate Hk.
  - intros nm [<-|[]]. vm_compute. intros [k Hk]. discriminate Hk.
  - exact Hstate.
Defined.

Lemma clone_without_git_keeps_temp_dir_witness :
  (mkdtemp git_missing "mcp_clone_" (cleared running)).1 = Returns new_clone
  /\ (clone_repository git_missing new_url running).1 = git_not_found
  /\ active_repo_details (clone_repository git_missing new_url running).2 = no_details
  /\ os_path_exists (clone_repository git_missing new_url running).2 new_clone = true.
Proof.
  assert ((mkdtemp git_missing "mcp_clone_" (cleared running)).1 = Returns new_clone)
    as Hmk by (vm_compute; reflexivity).
  split; [exact Hmk|].
  exact (clone_without_git_keeps_temp_dir git_missing new_url running new_clone _
           Hmk eq_refl).
Defined.

(** ** The state store *)

(** X16. The module is imported exactly when [GITHUB_TOKEN] is set and not
    empty. The import leaves the disk and the state file as they are; the
    session it starts with is empty, or it is the whole record of the
    state file, and then the path of that record is a directory; a record
    whose path is a directory is always taken. *)
Theorem startup_loads_record_or_nothing github_token disk :
  match startup github_token disk with
  | Raises _ => truthy github_token = false
  | Returns w' =>
      truthy github_token = true
      /\ state_file w' = state_file disk /\ fs w' = fs disk
      /\ (active_repo_details w' = no_details
          \/ exists p,
               state_file disk = Some (Json (active_repo_details w'))
               /\ path (active_repo_details w') = Some p
               /\ os_path_isdir disk p = true)
      /\ (forall d p,
            state_file disk = Some (Json d) -> path d = Some p ->
            os_path_isdir disk p = true -> active_repo_details w' = d)
  end.
Proof.
  unfold startup. destruct (truthy github_token); simpl; [|done].
  unfold _load_state. simpl.
  destruct (state_file disk) as [[d|]|] eqn:Hf; simpl;
    [|split_and!; try done; by left..].
  destruct (path d) as [p|] eqn:Hp; simpl.
  - change (os_path_isdir (set_details no_details disk) p) with (os_path_isdir disk p).
    destruct (negb (String.eqb p "") && os_path_isdir disk p) eqn:Hdir; simpl.
    + apply andb_true_iff in Hdir as [_ Hdir].
      split_and!; try done; [right; by exists p|]. by intros d' p' [= <-].
    + split_and!; try done; [by left|]. intros d' p' [= <-] Hp' Hdir'.
      rewrite Hp in Hp'. injection Hp' as <-. rewrite Hdir', andb_true_r in Hdir.
      unfold os_path_isdir in Hdir'. apply andb_true_iff in Hdir' as [Hne _]. congruence.
  - split_and!; try done; [by left|]. intros d' p' [= <-] Hp'. congruence.
Qed.

(** ** The tools that need an active repository *)

Lemma makedirs_below_steady K k rest w : steady K w (makedirs_below k rest w).2.
Proof.
  revert k w. induction rest as [|c rest IH]; intros k w; simpl; [apply steady_refl|].
  repeat case_match; simpl; try apply steady_refl; try apply IH.
  eapply steady_trans; [apply steady_set_fs|apply IH].
Qed.

Lemma makedirs_steady (K : action -> Prop) p w :
  K (Makedirs p) -> steady K w (makedirs p w).2.
Proof.
  intros HK. unfold makedirs.
  case_match; simpl; [by apply steady_log|].
  eapply steady_trans; [by apply steady_log|apply makedirs_below_steady].
Qed.

Lemma open_write_steady (K : action -> Prop) p content w :
  K (OpenWrite p) -> steady K w (open_write p content w).2.
Proof.
  intros HK. unfold open_write.
  repeat case_match; simpl; try (by apply steady_log);
    (eapply steady_trans; [by apply steady_log|apply steady_set_fs]).
Qed.

Lemma open_read_steady (K : action -> Prop) p w :
  K (OpenRead p) -> steady K w (open_read p w).2.
Proof. intros HK. unfold open_read. repeat case_match; simpl; by apply steady_log. Qed.

Lemma subprocess_spares a : is_subprocess a -> spares_session a.
Proof. by destruct a. Qed.

Lemma invoke_gated_steady c w :
  gated c = true -> steady spares_session w (invoke c w).2.
Proof.
  destruct c; simpl; [done|..]; intros _.
  - unfold create_git_branch.
    destruct (negb (truthy (path (active_repo_details w)))); [apply steady_refl|].
    pose proof (subprocess_run_steady
                  (["git"; "checkout"; "-b"; branch_name]
                   ++ (if truthy base_branch then [default "" base_branch] else []))
                  (Some (default "" (path (active_repo_details w)))) r w) as Hs.
    apply (steady_weaken _ _ _ _ subprocess_spares) in Hs.
    destruct (subprocess_run _ _ _ _) as [[res|e] w1]; simpl in *;
      repeat case_match; done.
  - unfold git_commit_changes.
    destruct (negb (truthy (path (active_repo_details w)))); [apply steady_refl|].
    pose proof (subprocess_run_steady ["git"; "add"; "."]
                  (Some (default "" (path (active_repo_details w)))) add_r w) as Hs.
    apply (steady_weaken _ _ _ _ subprocess_spares) in Hs.
    destruct (subprocess_run _ _ add_r _) as [[res|e] w1]; simpl in *; [|done].
    destruct (negb (returncode res =? 0)%Z); [done|].
    pose proof (subprocess_run_steady ["git"; "commit"; "-m"; commit_message]
                  (Some (default "" (path (active_repo_details w)))) commit_r w1) as Hs'.
    apply (steady_weaken _ _ _ _ subprocess_spares) in Hs'.
    destruct (subprocess_run _ _ commit_r _) as [[res'|e] w2]; simpl in *;
      repeat case_match; simpl; eauto using steady_trans.
  - unfold git_push_branch.
    destruct (negb (truthy (path (active_repo_details w)))); [apply steady_refl|].
    pose proof (subprocess_run_steady
                  (["git"; "push"]
                   ++ (if set_upstream then ["-u"; "origin"; branch_name]
                       else ["origin"; branch_name]))
                  (Some (default "" (path (active_repo_details w)))) r w) as Hs.
    apply (steady_weaken _ _ _ _ subprocess_spares) in Hs.
    destruct (subprocess_run _ _ _ _) as [[res|e] w1]; simpl in *;
      repeat case_match; done.
  - unfold create_github_pr. repeat case_match; simpl;
      try apply steady_refl; try (by apply steady_log);
      (eapply (steady_trans _ _ (log (GithubGetRepo _) w)); by apply steady_log).
  - unfold read_file_in_repo.
    destruct (negb (truthy (path (active_repo_details w)))); [apply steady_refl|].
    set (full := OsPath.join _ relative_file_path).
    destruct (negb (os_path_exists w full)); [apply steady_refl|].
    destruct (negb (os_path_isfile w full)); [apply steady_refl|].
    pose proof (open_read_steady spares_session full w I) as Hs.
    by destruct (open_read full w) as [[res|e] w1].
  - unfold write_file_in_repo.
    destruct (negb (truthy (path (active_repo_details w)))); [apply steady_refl|].
    set (full := OsPath.join _ relative_file_path).
    assert (steady spares_session w
              (if truthy (Some (dirname full)) then makedirs (dirname full) w
               else (Returns (), w)).2) as H1.
    { destruct (truthy (Some (dirname full))); [by apply makedirs_steady|apply steady_refl]. }
    destruct (if truthy (Some (dirname full)) then makedirs (dirname full) w
              else (Returns (), w)) as [[[]|e] w1]; simpl in *; [|done].
    pose proof (open_write_steady spares_session full content w1 I) as H2.
    destruct (open_write full content w1) as [[[]|e] w2]; simpl in *;
      eauto using steady_trans.
  - unfold list_files_in_repo. repeat case_match; simpl;
      try apply steady_refl; by apply steady_log.
Qed.

Lemma steady_since K w w' :
  steady K w w' ->
  Forall (fun ev => K (act ev) /\ in_memory ev = active_repo_details w
                    /\ persisted ev = state_file w) (since w w').
Proof. intros [_ _ _ _ _ (evs & T & A)]. by rewrite (since_eq w w' evs T). Qed.

(** X17. The tools that need an active repository leave the session in
    memory as it is: none of them removes a directory tree or saves the
    session with [_save_state], and every call they make sees, in memory,
    the session they were called with. (What [write_file_in_repo] writes
    is the file its path leads to, whatever file that is.) *)
Theorem gated_tools_keep_session c w :
  gated c = true ->
  active_repo_details (invoke c w).2 = active_repo_details w
  /\ Forall (fun ev => spares_session (act ev)
                       /\ in_memory ev = active_repo_details w)
            (since w (invoke c w).2).
Proof.
  intros Hg. pose proof (invoke_gated_steady c w Hg) as H.
  split; [apply (steady_memory _ _ _ H)|].
  eapply Forall_impl; [by apply steady_since|]. by intros ev (? & ? & _).
Qed.

Lemma gated_tools_keep_session_witness :
  active_repo_details (invoke (WriteFileInRepo "docs/notes.md" "hello") running).2
  = active_repo_details running
  /\ Forall (fun ev => spares_session (act ev)
                       /\ in_memory ev = active_repo_details running)
            (since running (invoke (WriteFileInRepo "docs/notes.md" "hello") running).2).
Proof.
  exact (gated_tools_keep_session (WriteFileInRepo "docs/notes.md" "hello") running
           eq_refl).
Defined.

Lemma subprocess_run_exact cmd dir r w :
  steady (eq (Subprocess cmd dir)) w (subprocess_run cmd dir r w).2.
Proof. unfold subprocess_run. repeat case_match; simpl; by apply steady_log. Qed.

Lemma git_tool_steady c w :
  is_git_tool c = true ->
  steady (runs_git_in (path (active_repo_details w))) w (invoke c w).2.
Proof.
  assert (forall args r w',
            truthy (path (active_repo_details w)) = true ->
            steady (runs_git_in (path (active_repo_details w))) w'
              (subprocess_run ("git" :: args)
                 (Some (default "" (path (active_repo_details w)))) r w').2) as Hrun.
  { intros args r w' Hp. eapply steady_weaken; [|apply subprocess_run_exact].
    intros a <-. simpl. split; [done|]. by destruct (path (active_repo_details w)). }
  destruct c; simpl; try done; intros _.
  - unfold create_git_branch.
    destruct (truthy (path (active_repo_details w))) eqn:Hp; simpl; [|apply steady_refl].
    specialize (Hrun (["checkout"; "-b"; branch_name]
                      ++ (if truthy base_branch then [default "" base_branch] else []))
                     r w eq_refl).
    destruct (subprocess_run _ _ _ _) as [[res|e] w1]; simpl in *;
      repeat case_match; done.
  - unfold git_commit_changes.
    destruct (truthy (path (active_repo_details w))) eqn:Hp; simpl; [|apply steady_refl].
    pose proof (Hrun ["add"; "."] add_r w eq_refl) as Hs.
    destruct (subprocess_run _ _ add_r _) as [[res|e] w1]; simpl in *; [|done].
    destruct (negb (returncode res =? 0)%Z); [done|].
    pose proof (Hrun ["commit"; "-m"; commit_message] commit_r w1 eq_refl) as Hs'.
    destruct (subprocess_run _ _ commit_r _) as [[res'|e] w2]; simpl in *;
      repeat case_match; simpl; eapply steady_trans; try exact Hs.
    all: split; try apply Hs'.
    all: destruct Hs' as [Hm Hf _ _ _ (evs & T & A)]; exists evs; split; [done|].
    all: eapply Forall_impl; [exact A|]; intros ev (? & ? & ?).
    all: by rewrite <- (steady_memory _ _ _ Hs), <- (steady_file _ _ _ Hs).
  - unfold git_push_branch.
    destruct (truthy (path (active_repo_details w))) eqn:Hp; simpl; [|apply steady_refl].
    specialize (Hrun (["push"]
                      ++ (if set_upstream then ["-u"; "origin"; branch_name]
                          else ["origin"; branch_name])) r w eq_refl).
    destruct (subprocess_run _ _ _ _) as [[res|e] w1]; simpl in *;
      repeat case_match; done.
Qed.

(** X18. [create_git_branch], [git_commit_changes] and [git_push_branch] run
    git, and nothing else, in the directory of the active repository. *)
Theorem git_tools_run_in_active_repo c w :
  is_git_tool c = true ->
  Forall (fun ev => runs_git_in (path (active_repo_details w)) (act ev))
         (since w (invoke c w).2).
Proof.
  intros Hc. eapply Forall_impl; [apply steady_since, (git_tool_steady c w Hc)|].
  by intros ev (? & _).
Qed.

Lemma git_tools_run_in_active_repo_witness :
  Forall (fun ev => runs_git_in (Some old_clone) (act ev))
         (since running
            (invoke (GitPushBranch (Exit 0 "" "Everything up-to-date" "") "main" true)
                    running).2).
Proof.
  exact (git_tools_run_in_active_repo
           (GitPushBranch (Exit 0 "" "Everything up-to-date" "") "main" true) running
           eq_refl).
Defined.

(** *** Committing *)

Lemma contains_cons n a s : contains n (String a s) = startswith (String a s) n || contains n s.
Proof. reflexivity. Qed.

Lemma contains_empty c n : contains (String c n) "" = false.
Proof. reflexivity. Qed.

Lemma contains_lstrip c n s :
  is_space c = false ->
  contains (String c n) s = true -> contains (String c n) (lstrip s) = true.
Proof.
  intros Hc. induction s as [|a s IH]; [done|].
  cbn [lstrip]. destruct (is_space a) eqn:Ha; [|done].
  rewrite contains_cons. unfold startswith at 1. cbn [strip_prefix].
  destruct (Ascii.eqb_spec c a) as [->|_]; [congruence|]. simpl. exact IH.
Qed.

Lemma rstrip_space_cons a s :
  rstrip_space s <> "" -> rstrip_space (String a s) = String a (rstrip_space s).
Proof. cbn [rstrip_space]. by destruct (rstrip_space s). Qed.

(** A prefix that does not end in white space is still a prefix when the
    white space at the end is stripped. *)
Lemma strip_prefix_rstrip n s :
  n <> "" -> rstrip_space n = n ->
  startswith s n = true -> startswith (rstrip_space s) n = true.
Proof.
  unfold startswith. revert s. induction n as [|c n IH]; intros s Hne Hn Hs; [done|].
  destruct s as [|a s]; [done|]. cbn [strip_prefix] in Hs.
  destruct (Ascii.eqb_spec c a) as [<-|]; [|done].
  destruct n as [|c' n'].
  - assert (is_space c = false) as Hc
      by (cbn [rstrip_space] in Hn; by destruct (is_space c)).
    cbn [rstrip_space]. rewrite Hc.
    destruct (rstrip_space s); cbn [strip_prefix]; by rewrite Ascii.eqb_refl.
  - assert (rstrip_space (String c' n') = String c' n') as Hn'.
    { cbn [rstrip_space] in Hn |- *.
      destruct (rstrip_space n') as [|b r] eqn:E.
      - destruct (is_space c'); [by destruct (is_space c)|]. by injection Hn as <-.
      - by injection Hn as ->. }
    specialize (IH s ltac:(done) Hn').
    destruct (strip_prefix (String c' n') s) as [rest|] eqn:Es; [|done].
    specialize (IH eq_refl).
    assert (rstrip_space s <> "") as Hr.
    { intros Hr. by rewrite Hr in IH. }
    rewrite rstrip_space_cons by done. cbn [strip_prefix].
    by rewrite Ascii.eqb_refl.
Qed.

Lemma startswith_contains n s : startswith s n = true -> contains n s = true.
Proof. intros H. destruct s; simpl; by rewrite H. Qed.

Lemma contains_rstrip n s :
  n <> "" -> rstrip_space n = n ->
  contains n s = true -> contains n (rstrip_space s) = true.
Proof.
  intros Hne Hn. induction s as [|a s IH]; intros Hs.
  - destruct n; [done|]. by rewrite contains_empty in Hs.
  - rewrite contains_cons in Hs. apply orb_true_iff in Hs as [Hs|Hs].
    + by apply startswith_contains, strip_prefix_rstrip.
    + specialize (IH Hs).
      assert (rstrip_space s <> "") as Hr.
      { intros Hr. rewrite Hr in IH. destruct n; [done|]. by rewrite contains_empty in IH. }
      rewrite rstrip_space_cons by done. rewrite contains_cons, IH. apply orb_true_r.
Qed.

(** A text that neither starts nor ends with white space and is part of
    [s] is part of [s.strip()]. *)
Lemma contains_strip c n s :
  is_space c = false -> rstrip_space (String c n) = String c n ->
  contains (String c n) s = true ->
  contains (String c n) (strip s) = true /\ truthy (Some s) = true.
Proof.
  intros Hc Hn Hs. split.
  - unfold strip. apply contains_rstrip; [done|done|]. by apply contains_lstrip.
  - by destruct s.
Qed.

(** X19. When [git add] succeeds and [git commit] ends with another exit
    status than 0 and a text that says that there is nothing to commit,
    on its standard output or on its standard error, [git_commit_changes]
    answers that there are no changes to commit, not that git failed. *)
Theorem nothing_to_commit_is_no_error w P add_out add_err add_txt rc out err txt
    commit_message :
  path (active_repo_details w) = Some P -> P <> "" ->
  rc <> 0%Z ->
  contains "nothing to commit" out || contains "nothing to commit" err
  || contains "no changes added to commit" out
  || contains "no changes added to commit" err = true ->
  (git_commit_changes (Exit 0 add_out add_err add_txt) (Exit rc out err txt)
     commit_message w).1
  = nothing_to_commit P.
Proof.
  intros HP HPne Hrc Hsays. unfold git_commit_changes, subprocess_run. rewrite HP.
  apply Z.eqb_neq in Hrc. apply String.eqb_neq in HPne. simpl. rewrite HPne, Hrc. simpl.
  assert (forall c n s,
            is_space c = false -> rstrip_space (String c n) = String c n ->
            contains (String c n) s = true ->
            contains (String c n)
              (if negb (String.eqb s "") then strip s else "") = true) as Hin.
  { intros c n s Hc Hn Hs. destruct (contains_strip c n s Hc Hn Hs) as [H1 H2].
    simpl in H2. by rewrite H2. }
  enough (contains "nothing to commit" (if negb (String.eqb out "") then strip out else "")
          || contains "nothing to commit" (if negb (String.eqb err "") then strip err else "")
          || contains "no changes added to commit"
               (if negb (String.eqb out "") then strip out else "")
          || contains "no changes added to commit"
               (if negb (String.eqb err "") then strip err else "") = true) as -> by done.
  repeat (apply orb_true_iff in Hsays as [Hsays|Hsays]).
  - rewrite (Hin "n"%char "othing to commit" out eq_refl eq_refl Hsays). done.
  - rewrite (Hin "n"%char "othing to commit" err eq_refl eq_refl Hsays).
    by rewrite orb_true_r.
  - rewrite (Hin "n"%char "o changes added to commit" out eq_refl eq_refl Hsays).
    by rewrite !orb_true_r.
  - rewrite (Hin "n"%char "o changes added to commit" err eq_refl eq_refl Hsays).
    by rewrite !orb_true_r.
Qed.

Lemma nothing_to_commit_is_no_error_witness :
  (git_commit_changes (Exit 0 "" "" "")
     (Exit 1 "On branch main
nothing to commit, working tree clean
" "" "Command '['git', 'commit', '-m', 'update']' returned non-zero exit status 1.")
     "update" running).1
  = nothing_to_commit old_clone.
Proof.
  apply (nothing_to_commit_is_no_error running old_clone);
    [reflexivity|discriminate|discriminate|reflexivity].
Defined.

(** X20. [git_commit_changes] runs [git add .] in the active repository, and
    [git commit -m] with the message after it only when [git add] ended
    with exit status 0: when staging fails nothing is committed. *)
Theorem commit_stops_after_failed_add w P add_r commit_r commit_message :
  path (active_repo_details w) = Some P -> P <> "" ->
  subprocesses (since w (git_commit_changes add_r commit_r commit_message w).2)
  = if exits_zero add_r
    then [(["git"; "commit"; "-m"; commit_message], Some P);
          (["git"; "add"; "."], Some P)]
    else [(["git"; "add"; "."], Some P)].
Proof.
  intros HP HPne. unfold git_commit_changes, subprocess_run, exits_zero. rewrite HP.
  apply String.eqb_neq in HPne. simpl. rewrite HPne. simpl.
  destruct add_r as [rc out err txt|m|m]; simpl;
    [|by erewrite since_one by reflexivity..].
  destruct (rc =? 0)%Z eqn:Hrc; simpl; [|by erewrite since_one by reflexivity].
  rewrite Hrc. simpl.
  destruct commit_r as [rc' out' err' txt'|m|m]; simpl;
    [destruct (rc' =? 0)%Z eqn:Hrc'; simpl; rewrite ?Hrc'|..];
    repeat (case_match; simplify_eq/=); by erewrite since_two by reflexivity.
Qed.

Lemma commit_stops_after_failed_add_witness :
  subprocesses
    (since running
       (git_commit_changes (Exit 128 "" "fatal: Unable to create index.lock" "")
          (Exit 0 "" "" "") "update" running).2)
  = if exits_zero (Exit 128 "" "fatal: Unable to create index.lock" "")
    then [(["git"; "commit"; "-m"; "update"], Some old_clone);
          (["git"; "add"; "."], Some old_clone)]
    else [(["git"; "add"; "."], Some old_clone)].
Proof.
  apply (commit_stops_after_failed_add running old_clone); [reflexivity|discriminate].
Defined.

(** *** Pull requests *)

(** X21. After a clone that succeeded of a URL from which the parser reads an
    owner and a name that is not empty, [create_github_pr] asks the forge
    for the repository [owner/name], whatever the host of the URL, and,
    unless that call raises, asks it to create the pull request on that
    repository; it makes no other call. When the forge creates the pull
    request, the answer gives its address. *)
Theorem pr_targets_cloned_repo env repo_url w o n api title body base_branch
    head_branch :
  _parse_repo_url repo_url = (Some o, Some n) -> n <> "" ->
  active_repo_details (clone_repository env repo_url w).2 <> no_details ->
  since (clone_repository env repo_url w).2
    (create_github_pr api title body base_branch head_branch
       (clone_repository env repo_url w).2).2
  = match api with
    | GetRepoRaises _ _ _ => []
    | PullCreated _ | CreatePullRaises _ _ _ =>
        [Event (GithubCreatePull (o +:+ "/" +:+ n))
               (active_repo_details (clone_repository env repo_url w).2)
               (state_file (clone_repository env repo_url w).2)]
    end
    ++ [Event (GithubGetRepo (o +:+ "/" +:+ n))
              (active_repo_details (clone_repository env repo_url w).2)
              (state_file (clone_repository env repo_url w).2)]
  /\ (forall html_url,
        api = PullCreated html_url ->
        (create_github_pr api title body base_branch head_branch
           (clone_repository env repo_url w).2).1
        = "Successfully created PR: " +:+ html_url).
Proof.
  intros Hparse Hn Hcloned.
  assert (o <> "") as Ho.
  { destruct (parse_inv repo_url) as [E|(pre & O & S & _ & HO & _ & _ & _ & _ & E)];
      congruence. }
  destruct (clone_memory env repo_url w) as [Hd|(t & nm & _ & _ & Hd)]; [done|].
  rewrite Hparse in Hd. simpl in Hd.
  set (w1 := (clone_repository env repo_url w).2) in *.
  unfold create_github_pr. rewrite Hd. simpl.
  apply String.eqb_neq in Ho as ->. apply String.eqb_neq in Hn as ->. simpl.
  split.
  - destruct api; simpl;
      first [erewrite since_two by reflexivity | erewrite since_one by reflexivity];
      simpl; by rewrite ?Hd.
  - by intros html_url ->.
Qed.

Lemma pr_targets_cloned_repo_witness :
  _parse_repo_url new_url = (Some "c", Some "d")
  /\ active_repo_details (clone_repository git_works new_url running).2 <> no_details
  /\ since (clone_repository git_works new_url running).2
       (create_github_pr (PullCreated "https://github.com/c/d/pull/7")
          "title" "body" "main" "feature"
          (clone_repository git_works new_url running).2).2
     = [Event (GithubCreatePull ("c" +:+ "/" +:+ "d"))
              (active_repo_details (clone_repository git_works new_url running).2)
              (state_file (clone_repository git_works new_url running).2)]
       ++ [Event (GithubGetRepo ("c" +:+ "/" +:+ "d"))
                 (active_repo_details (clone_repository git_works new_url running).2)
                 (state_file (clone_repository git_works new_url running).2)]
  /\ (forall html_url,
        PullCreated "https://github.com/c/d/pull/7" = PullCreated html_url ->
        (create_github_pr (PullCreated "https://github.com/c/d/pull/7")
           "title" "body" "main" "feature"
           (clone_repository git_works new_url running).2).1
        = "Successfully created PR: " +:+ html_url).
Proof.
  assert (_parse_repo_url new_url = (Some "c", Some "d")) as Hparse
    by (vm_compute; reflexivity).
  assert (active_repo_details (clone_repository git_works new_url running).2
          <> no_details) as Hcloned by (vm_compute; discriminate).
  split; [exact Hparse|]. split; [exact Hcloned|].
  exact (pr_targets_cloned_repo git_works new_url running "c" "d"
           (PullCreated "https://github.com/c/d/pull/7") "title" "body" "main" "feature"
           Hparse ltac:(discriminate) Hcloned).
Defined.

(** *** The file tools *)

Lemma entry_at_snoc w k c : entry_at w (k ++ [c]) = fs w !! (k ++ [c]).
Proof. by destruct k. Qed.

Lemma entry_at_fs_keeps w w' :
  (forall key e, fs w !! key = Some e -> fs w' !! key = Some e) ->
  forall key e, entry_at w key = Some e -> entry_at w' key = Some e.
Proof. intros H [|c k] e; simpl; [done|apply H]. Qed.

(** [os.makedirs] only adds directories. *)
Lemma makedirs_below_keeps k rest w key e :
  fs w !! key = Some e -> fs (makedirs_below k rest w).2 !! key = Some e.
Proof.
  revert k w. induction rest as [|c rest IH]; intros k w Hkey; simpl; [done|].
  destruct (entry_at w (k ++ [c])) as [[|?]|] eqn:E; simpl; [by apply IH|done|].
  destruct (is_denied w (k ++ [c])); simpl; [done|].
  apply IH. simpl. rewrite lookup_insert_ne; [done|].
  intros <-. rewrite entry_at_snoc in E. congruence.
Qed.

(** When [os.makedirs] returns, every directory on the way is there. *)
Lemma makedirs_below_dirs k rest w j :
  (makedirs_below k rest w).1 = Returns () ->
  entry_at w k = Some Dir ->
  k `prefix_of` j -> j `prefix_of` k ++ rest ->
  entry_at (makedirs_below k rest w).2 j = Some Dir.
Proof.
  revert k w j. induction rest as [|c rest IH]; intros k w j Hret Hk [l ->] Hj.
  - rewrite app_nil_r in Hj. simpl.
    assert (k ++ l = k) as -> by (apply (anti_symm prefix); [done|by apply prefix_app_r]).
    done.
  - apply prefix_app_inv in Hj. destruct l as [|a l].
    + rewrite app_nil_r.
      eapply entry_at_fs_keeps; [|exact Hk]. intros. by apply makedirs_below_keeps.
    + pose proof (prefix_cons_inv_1 _ _ _ _ Hj) as ->.
      apply prefix_cons_inv_2 in Hj.
      replace (k ++ c :: l) with ((k ++ [c]) ++ l) by (by rewrite <- List.app_assoc).
      simpl in Hret |- *.
      destruct (entry_at w (k ++ [c])) as [[|?]|] eqn:E; simpl in *.
      * apply IH; try done; [by apply prefix_app_r|by apply prefix_app].
      * done.
      * destruct (is_denied w (k ++ [c])); simpl in *; [done|].
        apply IH; try done; [|by apply prefix_app_r|by apply prefix_app].
        rewrite entry_at_snoc. simpl. by rewrite lookup_insert_eq.
Qed.

Lemma makedirs_spec p w :
  (makedirs p w).1 = Returns () ->
  p <> ""
  /\ (forall j, j `prefix_of` where_is w p -> entry_at (makedirs p w).2 j = Some Dir).
Proof.
  unfold makedirs. destruct (String.eqb_spec p ""); [done|]. intros Hret.
  split; [done|]. intros j Hj.
  change (where_is (log (Makedirs p) w) p) with (where_is w p) in *.
  apply makedirs_below_dirs; try done. apply prefix_nil.
Qed.

Lemma makedirs_keeps p w key e :
  fs w !! key = Some e -> fs (makedirs p w).2 !! key = Some e.
Proof.
  intros H. unfold makedirs. case_match; [done|]. by apply makedirs_below_keeps.
Qed.

Lemma open_write_spec p content w :
  (open_write p content w).1 = Returns () ->
  p <> "" /\ where_is w p <> []
  /\ entry_at w (where_is w p) <> Some Dir
  /\ fs (open_write p content w).2 = <[where_is w p := File content]> (fs w).
Proof.
  unfold open_write. destruct (String.eqb_spec p ""); [done|].
  change (where_is (log (OpenWrite p) w) p) with (where_is w p).
  change (entry_at (log (OpenWrite p) w)) with (entry_at w).
  change (is_denied (log (OpenWrite p) w)) with (is_denied w).
  destruct (where_is w p) as [|c k] eqn:Ek; [done|].
  destruct (entry_at w (c :: k)) as [[|?]|] eqn:E; [done|..];
    destruct (entry_at w (removelast (c :: k))) as [[|?]|]; try done;
    destruct (is_denied w (c :: k)); done.
Qed.

Lemma open_write_keeps p content w key e :
  key <> where_is w p ->
  fs w !! key = Some e -> fs (open_write p content w).2 !! key = Some e.
Proof.
  intros Hne H. unfold open_write.
  change (where_is (log (OpenWrite p) w) p) with (where_is w p).
  repeat case_match; simpl; try done; by rewrite lookup_insert_ne.
Qed.






Lemma mem_join P rel : P <> "" -> mem "/" (OsPath.join P rel) = true.
Proof.
  intros HP. unfold OsPath.join.
  destruct (startswith rel "/") eqn:Hrel.
  - unfold startswith in Hrel. destruct rel as [|c rel]; [done|].
    cbn [strip_prefix] in Hrel. destruct (Ascii.eqb_spec "/" c) as [<-|]; [|done].
    simpl. done.
  - apply String.eqb_neq in HP as ->. simpl.
    destruct (endswith P "/") eqn:Hend.
    + apply endswith_inv in Hend. rewrite Hend, !str_mem_app. simpl.
      by rewrite orb_true_r.
    + rewrite !str_mem_app. simpl. by rewrite orb_true_r.
Qed.

Lemma rstrip_nonempty c s : all (Ascii.eqb c) s = false -> rstrip c s <> "".
Proof.
  induction s as [|a s IH]; [done|]. cbn [all rstrip].
  intros [Ha|Hs]%andb_false_iff.
  - rewrite Ascii.eqb_sym in Ha. rewrite Ha. by destruct (rstrip c s).
  - specialize (IH Hs). by destruct (rstrip c s).
Qed.

(** A path that holds a ['/'] has a directory name. *)
Lemma dirname_nonempty p : mem "/" p = true -> dirname p <> "".
Proof.
  intros Hp. unfold dirname.
  assert (head_part p <> "") as Hh by (destruct p; [done|]; cbn [head_part]; by rewrite Hp).
  apply String.eqb_neq in Hh as Hh'. rewrite Hh'. simpl.
  destruct (all (Ascii.eqb "/") (head_part p)) eqn:Hall; simpl; [done|].
  by apply rstrip_nonempty.
Qed.

(** What a call of [write_file_in_repo] that says it succeeded did. *)
Lemma write_success w P rel content :
  path (active_repo_details w) = Some P ->
  (write_file_in_repo rel content w).1
  = "Successfully wrote content to " +:+ OsPath.join P rel ->
  exists w1,
    P <> ""
    /\ makedirs (dirname (OsPath.join P rel)) w = (Returns (), w1)
    /\ open_write (OsPath.join P rel) content w1
       = (Returns (), (write_file_in_repo rel content w).2).
Proof.
  intros HP. unfold write_file_in_repo. rewrite HP. simpl.
  destruct (String.eqb_spec P "") as [->|HPne]; simpl.
  { intros H. exfalso. revert H. apply head_differs. by vm_compute. }
  pose proof (dirname_nonempty _ (mem_join P rel HPne)) as Hdir.
  apply String.eqb_neq in Hdir as ->. simpl.
  destruct (makedirs (dirname (OsPath.join P rel)) w) as [[[]|e1] w1] eqn:Hmk; simpl.
  2:{ intros H. exfalso. revert H. apply head_differs. by vm_compute. }
  destruct (open_write (OsPath.join P rel) content w1) as [[[]|e2] w2] eqn:Hop; simpl.
  2:{ intros H. exfalso. revert H. apply head_differs. by vm_compute. }
  intros _. by exists w1.
Qed.

Lemma write_success_file w P rel content :
  path (active_repo_details w) = Some P ->
  (write_file_in_repo rel content w).1
  = "Successfully wrote content to " +:+ OsPath.join P rel ->
  OsPath.join P rel <> ""
  /\ where_is w (OsPath.join P rel) <> []
  /\ cwd (write_file_in_repo rel content w).2 = cwd w
  /\ fs (write_file_in_repo rel content w).2 !! where_is w (OsPath.join P rel)
     = Some (File content).
Proof.
  intros HP Hok. destruct (write_success w P rel content HP Hok) as (w1 & _ & Hmk & Hop).
  pose proof (makedirs_steady (fun _ => True) (dirname (OsPath.join P rel)) w I) as S1.
  rewrite Hmk in S1. simpl in S1.
  pose proof (open_write_steady (fun _ => True) (OsPath.join P rel) content w1 I) as S2.
  pose proof (open_write_spec (OsPath.join P rel) content w1) as Hspec.
  rewrite Hop in S2, Hspec. simpl in S2, Hspec.
  destruct (Hspec eq_refl) as (Hne & Hk & _ & Hf).
  rewrite (where_is_cwd w w1 _ (steady_cwd _ _ _ S1)) in Hk, Hf.
  split_and!; try done.
  - by rewrite (steady_cwd _ _ _ S2), (steady_cwd _ _ _ S1).
  - by rewrite Hf, lookup_insert_eq.
Qed.




Example read_translates_line_ends :
  (read_file_in_repo "docs/notes.md"
     (write_file_in_repo "docs/notes.md" ("a" +:+ String "013" nl +:+ "b") running).2).1
  = "a" +:+ nl +:+ "b".
Proof. vm_compute. reflexivity. Qed.

(** X24. After a call of [write_file_in_repo] that answers that it succeeded,
    the directory of the file is there, with every directory above it,
    also when they were not there before. *)
Theorem write_creates_parents w P relative_file_path content :
  path (active_repo_details w) = Some P ->
  (write_file_in_repo relative_file_path content w).1
  = "Successfully wrote content to " +:+ OsPath.join P relative_file_path ->
  os_path_isdir (write_file_in_repo relative_file_path content w).2
    (dirname (OsPath.join P relative_file_path)) = true
  /\ (forall j,
        j `prefix_of` where_is w (dirname (OsPath.join P relative_file_path)) ->
        entry_at (write_file_in_repo relative_file_path content w).2 j = Some Dir).
Proof.
  intros HP Hok.
  destruct (write_success w P relative_file_path content HP Hok) as (w1 & HPne & Hmk & Hop).
  destruct (write_success_file w P relative_file_path content HP Hok)
    as (Hne & Hk & Hcwd & Hf).
  set (w' := (write_file_in_repo relative_file_path content w).2) in *.
  set (full := OsPath.join P relative_file_path) in *.
  pose proof (makedirs_spec (dirname full) w) as Hdirs.
  pose proof (makedirs_steady (fun _ => True) (dirname full) w I) as S1.
  rewrite Hmk in Hdirs, S1. simpl in Hdirs, S1.
  destruct (Hdirs eq_refl) as (Hdne & Hall).
  pose proof (open_write_spec full content w1) as Hspec.
  rewrite Hop in Hspec. simpl in Hspec.
  destruct (Hspec eq_refl) as (_ & _ & Hnd & Hfs).
  rewrite (where_is_cwd w w1 full (steady_cwd _ _ _ S1)) in Hnd, Hfs.
  assert (forall j, j `prefix_of` where_is w (dirname full) ->
                    entry_at w' j = Some Dir) as Hall'.
  { intros j Hj. specialize (Hall j Hj).
    destruct j as [|c j]; [done|]. simpl in *. rewrite Hfs.
    rewrite lookup_insert_ne; [done|]. intros Heq. apply Hnd.
    rewrite Heq. done. }
  split; [|done].
  unfold os_path_isdir. rewrite (where_is_cwd w w' _ Hcwd).
  rewrite (Hall' _ (reflexivity _)). by apply String.eqb_neq in Hdne as ->.
Qed.

Lemma write_creates_parents_witness :
  path (active_repo_details running) = Some old_clone
  /\ (write_file_in_repo "docs/api/notes.md" "hello" running).1
     = "Successfully wrote content to " +:+ OsPath.join old_clone "docs/api/notes.md"
  /\ os_path_isdir running (dirname (OsPath.join old_clone "docs/api/notes.md")) = false
  /\ os_path_isdir (write_file_in_repo "docs/api/notes.md" "hello" running).2
       (dirname (OsPath.join old_clone "docs/api/notes.md")) = true
  /\ (forall j,
        j `prefix_of` where_is running (dirname (OsPath.join old_clone "docs/api/notes.md")) ->
        entry_at (write_file_in_repo "docs/api/notes.md" "hello" running).2 j = Some Dir).
Proof.
  assert ((write_file_in_repo "docs/api/notes.md" "hello" running).1
          = "Successfully wrote content to " +:+ OsPath.join old_clone "docs/api/notes.md")
    as Hok by (vm_compute; reflexivity).
  split; [reflexivity|]. split; [exact Hok|]. split; [vm_compute; reflexivity|].
  exact (write_creates_parents running old_clone "docs/api/notes.md" "hello" eq_refl Hok).
Defined.









(** ** The tools at work *)

Example status_of_modified_file :
  (get_git_status (Exit 0 (" M server.py" +:+ nl) "" "") (Some ".") idle).1
  = "Git Status:" +:+ nl +:+ "M server.py".
Proof. vm_compute. reflexivity. Qed.

Example history_command :
  subprocesses
    (since idle (get_commit_history (Exit 0 "" "" "") (Some "main") 10 (Some ".") idle).2)
  = [(["git"; "log"; "--max-count=10"; "--oneline"; "main"], Some ".")]
  /\ (get_commit_history (Exit 0 "" "" "") (Some "main") 10 (Some ".") idle).1
     = "No commits found".
Proof. vm_compute. done. Qed.

Example summary_of_current_branch :
  (create_pr_summary (Exit 0 ("feature" +:+ nl) "" "")
     (Exit 0 (" server.py | 2 +-" +:+ nl) "" "") "main" None (Some ".") idle).1
  = "PR Summary (feature -> main):" +:+ nl +:+ nl +:+ "Changes:" +:+ nl
    +:+ "server.py | 2 +-".
Proof. vm_compute. reflexivity. Qed.

Example branches_without_git :
  (list_branches (SpawnFileNotFound "[Errno 2] No such file or directory: 'git'")
     (Some ".") true idle).1
  = "Error: [Errno 2] No such file or directory: 'git'".
Proof. vm_compute. reflexivity. Qed.
